(** * s7poll: the typed codec, the area access engine and the poll driver

    A shallow embedding of [main.go].  Go strings are byte sequences and are
    modelled by [string] (a sequence of 8-bit [ascii]); byte slices are
    [list byte]; Go's [int], [int64], [uint16], ... are [Z] with the
    truncations written out.  The parts of Go's library the program calls
    ([strings], [strconv], [fmt], [encoding/binary]) are modelled in modules
    named after the packages. *)

From Stdlib Require Import ZArith List String Ascii Bool Lia.
From Stdlib Require Import Strings.Byte.
Import ListNotations.

Local Open Scope list_scope.
Local Open Scope string_scope.
Local Open Scope Z_scope.

(** ** Values of the Go runtime *)

Definition len {A} (l : list A) : Z := Z.of_nat (List.length l).
Definition slen (s : string) : Z := Z.of_nat (String.length s).

(** [uint8(z)] and the numeric value of a byte. *)
Definition byte_of_Z (z : Z) : byte :=
  match Byte.of_N (Z.to_N (z mod 256)) with
  | Some b => b
  | None => x00
  end.
Definition Z_of_byte (b : byte) : Z := Z.of_N (Byte.to_N b).

Definition Z_of_ascii (c : ascii) : Z := Z.of_N (N_of_ascii c).
Definition ascii_of_Z (z : Z) : ascii := ascii_of_N (Z.to_N (z mod 256)).

(** Conversions [uintN(z)] and [intN(z)]: reduction modulo [2^N], read
    unsigned or in two's complement. *)
Definition to_uint (bits z : Z) : Z := z mod 2 ^ bits.
Definition to_int (bits z : Z) : Z :=
  let u := z mod 2 ^ bits in
  if u <? 2 ^ (bits - 1) then u else u - 2 ^ bits.

(** [s[lo:hi]] on a string and [b[lo:]] on a slice; [None] is the runtime's
    bounds panic. *)
Definition str_slice (s : string) (lo hi : Z) : option string :=
  if (0 <=? lo) && (lo <=? hi) && (hi <=? slen s)
  then Some (substring (Z.to_nat lo) (Z.to_nat (hi - lo)) s)
  else None.

Definition slice_from {A} (l : list A) (lo : Z) : option (list A) :=
  if (0 <=? lo) && (lo <=? len l) then Some (skipn (Z.to_nat lo) l) else None.

(** [l[i] = v]; [None] is the index panic. *)
Fixpoint list_set {A} (l : list A) (i : nat) (v : A) : option (list A) :=
  match l, i with
  | [], _ => None
  | _ :: t, O => Some (v :: t)
  | h :: t, S j => option_map (cons h) (list_set t j v)
  end.

Definition isASCII (s : string) : bool :=
  forallb (fun c => Z_of_ascii c <? 128) (list_ascii_of_string s).

(** [s] starts with [p]. *)
Fixpoint hasPrefix (p s : string) : bool :=
  match p, s with
  | EmptyString, _ => true
  | String a p, String b s => (a =? b)%char && hasPrefix p s
  | String _ _, EmptyString => false
  end.

Fixpoint map_string (f : ascii -> ascii) (s : string) : string :=
  match s with
  | EmptyString => EmptyString
  | String c r => String (f c) (map_string f r)
  end.

(** ** Errors

    One constructor per place where the program (or the library under it)
    makes an error value. *)

(** [strconv.NumError]: the function, the text it was given and the cause. *)
Inductive numErrKind : Type := ErrSyntax | ErrRange | ErrBase | ErrBitSize.
Record NumError : Type := mkNumError { Func : string; Num : string; NumErr : numErrKind }.

(** Errors of [fmt]'s scanner. *)
Inductive scanError : Type :=
| ScanUnexpectedNewline
| ScanEOF
| ScanExpectedInteger
| ScanNumError (e : NumError)
| ScanOverflow (tok : string).

Inductive error : Type :=
| EHexOddLength (n : Z)                        (* "hex input length must be even, got %d" *)
| EInvalidHex (pos : Z) (cause : scanError)    (* "invalid hex at position %d: %w" *)
| ENotAligned (size n : Z)                     (* "size %d not aligned with data length %d" *)
| EFloatSize (n : Z)                           (* "float32 output requires size to be a multiple of 4, got %d" *)
| EUnknownFormat (format : string)             (* "unknown format %q" *)
| EAreaNotSupported (area : string)            (* "area %q not supported" *)
| EInvalidInteger (tok : string) (cause : NumError) (* "invalid integer %q: %w" *)
| EInvalidFloat (tok : string) (cause : NumError)   (* "invalid float %q: %w" *)
| EValuesRequired                              (* "values is required" *)
| EConnect (msg : string)                      (* returned by handler.Connect *)
| ETransport (msg : string).                   (* returned by the client's AGRead / AGWrite *)

Inductive panic : Type :=
| MakeSliceLenOutOfRange
| DivideByZero
| OutOfRange.

(** What a call does: return a value, return an error, panic, or still run
    when the fuel given to a loop is used up. *)
Inductive result (A : Type) : Type :=
| Ok (a : A)
| Err (e : error)
| Panic (p : panic)
| Running.
Arguments Ok {A} a.
Arguments Err {A} e.
Arguments Panic {A} p.
Arguments Running {A}.

Definition bind {A B} (r : result A) (k : A -> result B) : result B :=
  match r with
  | Ok a => k a
  | Err e => Err e
  | Panic p => Panic p
  | Running => Running
  end.

Definition orPanic {A} (o : option A) : result A :=
  match o with
  | Some a => Ok a
  | None => Panic OutOfRange
  end.

Notation "x <- r ;; k" := (bind r (fun x => k))
  (at level 61, r at next level, right associativity).

(** The error taxonomy of the specification. *)
Inductive errorKind : Type :=
| ConnectError
| UnsupportedArea
| AlignmentError
| MalformedInput
| UnsupportedFormat
| TransportError.

Definition kindOf (e : error) : errorKind :=
  match e with
  | EHexOddLength _ | EInvalidHex _ _ | EInvalidInteger _ _ | EInvalidFloat _ _
  | EValuesRequired => MalformedInput
  | ENotAligned _ _ | EFloatSize _ => AlignmentError
  | EUnknownFormat _ => UnsupportedFormat
  | EAreaNotSupported _ => UnsupportedArea
  | EConnect _ => ConnectError
  | ETransport _ => TransportError
  end.

(** ** What is left abstract of Go's library

    Case mapping of strings that are not pure ASCII, and the conversion
    between decimal text and binary32 values. A float32 is its bit pattern,
    a [Z] below [2^32]. *)
Class Platform : Type := {
  (** [strings.Map(unicode.ToUpper, s)], reached when [s] has a byte >= 0x80 *)
  unicode_ToUpper : string -> string;
  (** [strings.Map(unicode.ToLower, s)], reached when [s] has a byte >= 0x80 *)
  unicode_ToLower : string -> string;
  (** [strconv.ParseFloat(s, 32)]: the bits of [float32(val)] and the error *)
  strconv_ParseFloat32 : string -> Z * option NumError;
  (** [fmt.Sprintf("%g", v)] for the float32 [v] of the given bits *)
  fmt_Sprintf_g32 : Z -> string
}.

(** An instance to run the model on ASCII text in the formats other than
    float32; the theorems below hold for every [Platform]. *)
Definition asciiPlatform : Platform := {|
  unicode_ToUpper := fun s => s;
  unicode_ToLower := fun s => s;
  strconv_ParseFloat32 := fun s => (0, Some (mkNumError "ParseFloat" s ErrSyntax));
  fmt_Sprintf_g32 := fun _ => "0"
|}.

(** An instance that knows the two floats of the write scenario, as Go
    converts them: [1.5] is [0x3FC00000] and [2.25] is [0x40100000]. Other
    text and other values are outside of what it is used for. *)
Definition scenarioFloats : Platform := {|
  unicode_ToUpper := fun s => s;
  unicode_ToLower := fun s => s;
  strconv_ParseFloat32 := fun s =>
    if (s =? "1.5")%string then (1069547520, None)
    else if (s =? "2.25")%string then (1074790400, None)
    else (0, Some (mkNumError "ParseFloat" s ErrSyntax));
  fmt_Sprintf_g32 := fun u =>
    if u =? 1069547520 then "1.5"
    else if u =? 1074790400 then "2.25"
    else "NaN"
|}.

(** ** Package [strings] *)
Module strings.

Definition upperByte (c : ascii) : ascii :=
  let z := Z_of_ascii c in
  if (97 <=? z) && (z <=? 122) then ascii_of_Z (z - 32) else c.

Definition lowerByte (c : ascii) : ascii :=
  let z := Z_of_ascii c in
  if (65 <=? z) && (z <=? 90) then ascii_of_Z (z + 32) else c.

Definition ToUpper `{Platform} (s : string) : string :=
  if isASCII s then map_string upperByte s else unicode_ToUpper s.

Definition ToLower `{Platform} (s : string) : string :=
  if isASCII s then map_string lowerByte s else unicode_ToLower s.

(** Leftmost, non-overlapping occurrences of [old], scanning from the
    left: [skip] bytes of an occurrence already replaced remain. *)
Fixpoint replaceFrom (skip : nat) (s old new : string) : string :=
  match s with
  | EmptyString => EmptyString
  | String c rest =>
    match skip with
    | S k => replaceFrom k rest old new
    | O =>
      if hasPrefix old s
      then new ++ replaceFrom (String.length old - 1) rest old new
      else String c (replaceFrom 0 rest old new)
    end
  end.

(** [ReplaceAll(s, old, new)] for the calls the program makes: [old] is
    not empty, or [old] and [new] are both empty (then Go returns [s]). *)
Definition ReplaceAll (s old new : string) : string :=
  if (old =? new)%string then s
  else match old with
       | EmptyString => s
       | _ => replaceFrom 0 s old new
       end.

Definition Contains (s substr : string) : bool :=
  match index 0 substr s with
  | Some _ => true
  | None => false
  end.

Definition Join (elems : list string) (sep : string) : string :=
  String.concat sep elems.

(** [Split(s, sep)] for a one-byte separator: the pieces between the
    occurrences of [sep], one piece more than there are occurrences. *)
Fixpoint splitByte (sep : ascii) (cur s : string) : list string :=
  match s with
  | EmptyString => [cur]
  | String c rest =>
    if (c =? sep)%char then cur :: splitByte sep EmptyString rest
    else splitByte sep (cur ++ String c EmptyString) rest
  end.

(** White space as [unicode.IsSpace] has it, in UTF-8: the six ASCII
    characters, U+0085, U+00A0, U+1680, U+2000..U+200A, U+2028, U+2029,
    U+202F, U+205F and U+3000. *)
Definition asciiSpace (c : ascii) : bool :=
  let z := Z_of_ascii c in
  ((9 <=? z) && (z <=? 13)) || (z =? 32).

(** The width of the white space rune that [s] starts with, or [0]. *)
Definition spaceWidth (s : string) : nat :=
  match s with
  | EmptyString => 0%nat
  | String c r =>
    let c0 := Z_of_ascii c in
    let r := List.map Z_of_ascii (list_ascii_of_string (substring 0 2 r)) in
    if asciiSpace c then 1%nat
    else if c0 =? 194 then
      match r with
      | c1 :: _ => if (c1 =? 133) || (c1 =? 160) then 2%nat else 0%nat
      | [] => 0%nat
      end
    else if (c0 =? 225) || (c0 =? 226) || (c0 =? 227) then
      match r with
      | [c1; c2] =>
        if (c0 =? 225) && (c1 =? 154) && (c2 =? 128) then 3%nat
        else if (c0 =? 226) && (c1 =? 128)
                && (((128 <=? c2) && (c2 <=? 138)) || (c2 =? 168) || (c2 =? 169)
                    || (c2 =? 175)) then 3%nat
        else if (c0 =? 226) && (c1 =? 129) && (c2 =? 159) then 3%nat
        else if (c0 =? 227) && (c1 =? 128) && (c2 =? 128) then 3%nat
        else 0%nat
      | _ => 0%nat
      end
    else 0%nat
  end.

Fixpoint trimLeft (fuel : nat) (s : string) : string :=
  match fuel with
  | O => s
  | S fuel =>
    match spaceWidth s with
    | O => s
    | w => trimLeft fuel (substring w (String.length s - w) s)
    end
  end.

(** The width of the white space rune that ends [s], or [0]. *)
Definition spaceWidthLast (s : string) : nat :=
  let n := String.length s in
  if (1 <=? n)%nat && (spaceWidth (substring (n - 1) 1 s) =? 1)%nat then 1%nat
  else if (2 <=? n)%nat && (spaceWidth (substring (n - 2) 2 s) =? 2)%nat then 2%nat
  else if (3 <=? n)%nat && (spaceWidth (substring (n - 3) 3 s) =? 3)%nat then 3%nat
  else 0%nat.

Fixpoint trimRight (fuel : nat) (s : string) : string :=
  match fuel with
  | O => s
  | S fuel =>
    match spaceWidthLast s with
    | O => s
    | w => trimRight fuel (substring 0 (String.length s - w) s)
    end
  end.

Definition TrimSpace (s : string) : string :=
  let l := trimLeft (String.length s) s in
  trimRight (String.length l) l.

End strings.

(** ** Package [strconv] *)
Module strconv.

Definition maxUint64 : Z := 2 ^ 64 - 1.

(** [lower(c)] is [c | ('x' - 'X')]. *)
Definition lower (c : Z) : Z := Z.lor c 32.

Definition syntaxError (fn str : string) : NumError := mkNumError fn str ErrSyntax.
Definition rangeError (fn str : string) : NumError := mkNumError fn str ErrRange.

(** The state [i] of [underscoreOK]: what the previous byte was. *)
Inductive prevTok : Type := TokStart | TokDigit | TokUnderscore | TokOther.

Fixpoint underscoreOK_loop (hex : bool) (i : prevTok) (s : string) : bool :=
  match s with
  | EmptyString => match i with TokUnderscore => false | _ => true end
  | String c rest =>
    let z := Z_of_ascii c in
    if ((48 <=? z) && (z <=? 57)) || (hex && (97 <=? lower z) && (lower z <=? 102))
    then underscoreOK_loop hex TokDigit rest
    else if z =? 95 then
      match i with
      | TokDigit => underscoreOK_loop hex TokUnderscore rest
      | _ => false
      end
    else
      match i with
      | TokUnderscore => false
      | _ => underscoreOK_loop hex TokOther rest
      end
  end.

Definition underscoreOK (s : string) : bool :=
  let s :=
    match s with
    | String c rest =>
      if (Z_of_ascii c =? 45) || (Z_of_ascii c =? 43) then rest else s
    | EmptyString => s
    end in
  match s with
  | String c0 (String c1 rest) =>
    let l := lower (Z_of_ascii c1) in
    if (Z_of_ascii c0 =? 48) && ((l =? 98) || (l =? 111) || (l =? 120))
    then underscoreOK_loop (l =? 120) TokDigit rest
    else underscoreOK_loop false TokStart s
  | _ => underscoreOK_loop false TokStart s
  end.

(** The digit loop of [ParseUint]: the value so far, whether an
    underscore was seen, and how the loop ended. *)
Fixpoint parseDigits (s : string) (base : Z) (base0 : bool) (cutoff maxVal : Z)
         (underscores : bool) (n : Z) : Z * bool * option numErrKind :=
  match s with
  | EmptyString => (n, underscores, None)
  | String ch rest =>
    let c := Z_of_ascii ch in
    if (c =? 95) && base0
    then parseDigits rest base base0 cutoff maxVal true n
    else
      let d :=
        if (48 <=? c) && (c <=? 57) then Some (c - 48)
        else if (97 <=? lower c) && (lower c <=? 122) then Some (lower c - 97 + 10)
        else None in
      match d with
      | None => (0, underscores, Some ErrSyntax)
      | Some d =>
        if d >=? base then (0, underscores, Some ErrSyntax)
        else if n >=? cutoff then (maxVal, underscores, Some ErrRange)
        else
          let n' := (n * base) mod 2 ^ 64 in
          let n1 := (n' + d) mod 2 ^ 64 in
          if (n1 <? n') || (n1 >? maxVal) then (maxVal, underscores, Some ErrRange)
          else parseDigits rest base base0 cutoff maxVal underscores n1
      end
  end.

Definition ParseUint (s0 : string) (base bitSize : Z) : Z * option NumError :=
  let fn := "ParseUint" in
  match s0 with
  | EmptyString => (0, Some (syntaxError fn s0))
  | String c0 r0 =>
    let base0 := base =? 0 in
    let detected : option (Z * string) :=
      if (2 <=? base) && (base <=? 36) then Some (base, s0)
      else if base0 then
        if Z_of_ascii c0 =? 48 then
          match r0 with
          | String c1 r1 =>
            let l := lower (Z_of_ascii c1) in
            if (3 <=? slen s0) && (l =? 98) then Some (2, r1)
            else if (3 <=? slen s0) && (l =? 111) then Some (8, r1)
            else if (3 <=? slen s0) && (l =? 120) then Some (16, r1)
            else Some (8, r0)
          | EmptyString => Some (8, r0)
          end
        else Some (10, s0)
      else None in
    match detected with
    | None => (0, Some (mkNumError fn s0 ErrBase))
    | Some (base, s) =>
      let bitSize := if bitSize =? 0 then 64 else bitSize in
      if (bitSize <? 0) || (bitSize >? 64) then (0, Some (mkNumError fn s0 ErrBitSize))
      else
        let cutoff := maxUint64 / base + 1 in
        let maxVal := 2 ^ bitSize - 1 in
        match parseDigits s base base0 cutoff maxVal false 0 with
        | (v, _, Some k) => (v, Some (mkNumError fn s0 k))
        | (n, underscores, None) =>
          if underscores && negb (underscoreOK s0) then (0, Some (syntaxError fn s0))
          else (n, None)
        end
    end
  end.

Definition ParseInt (s0 : string) (base bitSize : Z) : Z * option NumError :=
  let fn := "ParseInt" in
  match s0 with
  | EmptyString => (0, Some (syntaxError fn s0))
  | String c0 r0 =>
    let '(neg, s) :=
      if Z_of_ascii c0 =? 43 then (false, r0)
      else if Z_of_ascii c0 =? 45 then (true, r0)
      else (false, s0) in
    let '(un, err) := ParseUint s base bitSize in
    let stop :=
      match err with
      | Some e => match NumErr e with ErrRange => None | k => Some k end
      | None => None
      end in
    match stop with
    | Some k => (0, Some (mkNumError fn s0 k))
    | None =>
      let bitSize := if bitSize =? 0 then 64 else bitSize in
      let cutoff := 2 ^ (bitSize - 1) in
      if negb neg && (un >=? cutoff) then (cutoff - 1, Some (rangeError fn s0))
      else if neg && (un >? cutoff) then (- cutoff, Some (rangeError fn s0))
      else (if neg then - un else un, None)
    end
  end.

End strconv.

(** ** Package [fmt] *)
Module fmt.

Definition ldigits : string := "0123456789abcdefx".
Definition udigits : string := "0123456789ABCDEFX".

Definition digitAt (digits : string) (u : Z) : ascii :=
  match String.get (Z.to_nat u) digits with
  | Some c => c
  | None => "000"%char
  end.

(** The digits of [u], written right to left in front of [buf], as
    [fmtInteger] does for the bases 10 and 16. *)
Fixpoint fmtDigits (fuel : nat) (base : Z) (digits : string) (u : Z) (buf : string)
  : string :=
  match fuel with
  | O => buf
  | S fuel =>
    if u >=? base
    then
      let next := u / base in
      fmtDigits fuel base digits next (String (digitAt digits (u - next * base)) buf)
    else String (digitAt digits u) buf
  end.

Fixpoint zeroPad (fuel : nat) (prec : Z) (buf : string) : string :=
  match fuel with
  | O => buf
  | S fuel =>
    if prec >? slen buf then zeroPad fuel prec (String "0"%char buf) else buf
  end.

(** [fmtInteger(u, base, isSigned, verb, digits)] with the flags that
    [%d] and [%02X] set: [v] is the operand as an int64 or as the unsigned
    value, [wid] the width under the zero flag. A uint64 has at most 64
    digits, and the buffer leaves room for the width. *)
Definition fmtInteger (v : Z) (base : Z) (isSigned : bool) (zeroWid : option Z)
           (digits : string) : string :=
  let negative := isSigned && (v <? 0) in
  let u := if negative then (- v) mod 2 ^ 64 else v in
  let prec :=
    match zeroWid with
    | Some wid => if negative then wid - 1 else wid
    | None => 0
    end in
  let buf := fmtDigits 64 base digits u EmptyString in
  let buf := zeroPad (Z.to_nat prec) prec buf in
  if negative then String "-"%char buf else buf.

(** [Sprintf("%d", v)] for an int64. *)
Definition Sprintf_d (v : Z) : string := fmtInteger v 10 true None ldigits.

(** [Sprintf("%02X", v)] for a byte. *)
Definition Sprintf_02X (v : byte) : string :=
  fmtInteger (Z_of_byte v) 16 false (Some 2) udigits.

(** *** Scanning: [Sscanf(input, "%02X", &v)] with [v] a byte *)

Definition hexadecimalDigits : string := "0123456789aAbBcCdDeEfF".

Definition inString (c : ascii) (set : string) : bool :=
  existsb (Ascii.eqb c) (list_ascii_of_string set).

(** [SkipSpace] when a newline is not a space: the input left, or the
    error. White space runes of more than one byte (U+0085, U+00A0, ...)
    are not skipped here: the program scans groups of two bytes, where
    such a rune leaves no digit behind it and the scan fails either way. *)
Fixpoint SkipSpace (s : string) : scanError + string :=
  match s with
  | EmptyString => inr s
  | String c rest =>
    let z := Z_of_ascii c in
    if (z =? 13) && hasPrefix (String "010"%char EmptyString) rest then SkipSpace rest
    else if z =? 10 then inl ScanUnexpectedNewline
    else if strings.asciiSpace c then SkipSpace rest
    else inr s
  end.

(** [accept(digits)] repeated: the longest run of accepted bytes at the
    head of the input, at most [wid] of them. *)
Fixpoint acceptAll (wid : nat) (digits : string) (s : string) : string :=
  match wid, s with
  | S wid, String c rest =>
    if inString c digits then String c (acceptAll wid digits rest) else EmptyString
  | _, _ => EmptyString
  end.

(** [scanNumber]: at least one digit is required. *)
Definition scanNumber (wid : nat) (digits : string) (s : string) : scanError + string :=
  match wid, s with
  | O, _ | _, EmptyString => inl ScanEOF
  | _, String c _ =>
    if inString c digits then inr (acceptAll wid digits s) else inl ScanExpectedInteger
  end.

(** The verb [%02X] has width 2 (the flag [0] is part of the number that
    [parsenum] reads); the operand is scanned by [scanUint(verb, 8)]. The
    input that follows the operand is not looked at. *)
Definition Sscanf_02X (input : string) : scanError + byte :=
  match SkipSpace input with
  | inl e => inl e
  | inr s =>
    match scanNumber 2 hexadecimalDigits s with
    | inl e => inl e
    | inr tok =>
      match strconv.ParseUint tok 16 64 with
      | (i, None) =>
        if to_uint 8 i =? i then inr (byte_of_Z i) else inl (ScanOverflow tok)
      | (_, Some e) => inl (ScanNumError e)
      end
    end
  end.

End fmt.

(** ** Package [encoding/binary], big endian *)
Module binary.

Definition Uint16 (b : list byte) : option Z :=
  match b with
  | b0 :: b1 :: _ => Some (Z.lor (Z_of_byte b1) (Z.shiftl (Z_of_byte b0) 8))
  | _ => None
  end.

Definition Uint32 (b : list byte) : option Z :=
  match b with
  | b0 :: b1 :: b2 :: b3 :: _ =>
    Some (Z.lor (Z.lor (Z.lor (Z_of_byte b3) (Z.shiftl (Z_of_byte b2) 8))
                       (Z.shiftl (Z_of_byte b1) 16))
                (Z.shiftl (Z_of_byte b0) 24))
  | _ => None
  end.

(** [PutUint16(buf, v)] on a fresh [buf] of two bytes. *)
Definition PutUint16 (v : Z) : list byte :=
  [byte_of_Z (Z.shiftr v 8); byte_of_Z v].

(** [PutUint32(buf, v)] on a fresh [buf] of four bytes. *)
Definition PutUint32 (v : Z) : list byte :=
  [byte_of_Z (Z.shiftr v 24); byte_of_Z (Z.shiftr v 16); byte_of_Z (Z.shiftr v 8);
   byte_of_Z v].

End binary.

(** ** The codec of [main.go] *)
Section Codec.
Context `{Platform}.

Fixpoint bytesToHex_loop (data : list byte) (i : Z) (b : string) : string :=
  match data with
  | [] => b
  | v :: rest =>
    let b := if i >? 0 then b ++ " " else b in
    bytesToHex_loop rest (i + 1) (b ++ fmt.Sprintf_02X v)
  end.

Definition bytesToHex (data : list byte) : string :=
  bytesToHex_loop data 0 "".

Fixpoint parseHex_loop (fuel : nat) (clean : string) (i : Z) (out : list byte)
  : result (list byte) :=
  match fuel with
  | O => Running
  | S fuel =>
    if i <? slen clean then
      group <- orPanic (str_slice clean i (i + 2)) ;;
      match fmt.Sscanf_02X group with
      | inl err => Err (EInvalidHex i err)
      | inr v =>
        out <- orPanic (list_set out (Z.to_nat (i / 2)) v) ;;
        parseHex_loop fuel clean (i + 2) out
      end
    else Ok out
  end.

Definition parseHex (s : string) : result (list byte) :=
  let clean :=
    strings.ReplaceAll (strings.ReplaceAll (strings.ReplaceAll s " " "") "0x" "") "0X" "" in
  if negb (Z.rem (slen clean) 2 =? 0) then Err (EHexOddLength (slen clean))
  else
    let out := repeat x00 (Z.to_nat (slen clean / 2)) in
    parseHex_loop (S (String.length clean)) clean 0 out.

(** One element of [decodeInts]: [int64(int16(Uint16(data[i:])))] and the
    like for four bytes; any other [size] appends nothing. *)
Definition decodeInts_step (data : list byte) (size i : Z) (vals : list Z)
  : result (list Z) :=
  if size =? 2 then
    b <- orPanic (slice_from data i) ;;
    u <- orPanic (binary.Uint16 b) ;;
    Ok (vals ++ [to_int 16 u])%list
  else if size =? 4 then
    b <- orPanic (slice_from data i) ;;
    u <- orPanic (binary.Uint32 b) ;;
    Ok (vals ++ [to_int 32 u])%list
  else Ok vals.

Fixpoint decodeInts_loop (fuel : nat) (data : list byte) (size i : Z) (vals : list Z)
  : result (list Z) :=
  match fuel with
  | O => Running
  | S fuel =>
    if i <? len data then
      vals <- decodeInts_step data size i vals ;;
      decodeInts_loop fuel data size (i + size) vals
    else Ok vals
  end.

Definition decodeInts (data : list byte) (size : Z) : result (list Z) :=
  if size =? 0 then Panic DivideByZero
  else if negb (Z.rem (len data) size =? 0) then Err (ENotAligned size (len data))
  else if Z.quot (len data) size <? 0 then Panic MakeSliceLenOutOfRange
  else decodeInts_loop (S (List.length data)) data size 0 [].

Definition parseInt (s : string) (size : Z) : result Z :=
  match strconv.ParseInt s 0 (size * 8) with
  | (_, Some err) => Err (EInvalidInteger s err)
  | (val, None) => Ok val
  end.

(** The float32 result is carried as its bit pattern. *)
Definition parseFloat (s : string) : result Z :=
  match strconv_ParseFloat32 s with
  | (_, Some err) => Err (EInvalidFloat s err)
  | (val, None) => Ok val
  end.

Fixpoint splitValues_loop (items res : list string) : list string :=
  match items with
  | [] => res
  | item :: items =>
    let item := strings.TrimSpace item in
    if negb (item =? "")%string
    then splitValues_loop items (res ++ [item])%list
    else splitValues_loop items res
  end.

Definition splitValues (raw : string) : list string :=
  splitValues_loop (strings.splitByte ","%char "" raw) [].

Fixpoint encodeInts_loop (parts : list string) (size : Z) (out : list byte)
  : result (list byte) :=
  match parts with
  | [] => Ok out
  | p :: parts =>
    val <- parseInt p size ;;
    let out :=
      if size =? 2 then (out ++ binary.PutUint16 (to_uint 16 val))%list
      else if size =? 4 then (out ++ binary.PutUint32 (to_uint 32 val))%list
      else out in
    encodeInts_loop parts size out
  end.

Definition encodeInts (raw : string) (size : Z) : result (list byte) :=
  encodeInts_loop (splitValues raw) size [].

Fixpoint encodeFloats_loop (parts : list string) (out : list byte) : result (list byte) :=
  match parts with
  | [] => Ok out
  | p :: parts =>
    val <- parseFloat p ;;
    encodeFloats_loop parts (out ++ binary.PutUint32 val)%list
  end.

Definition encodeFloats (raw : string) : result (list byte) :=
  encodeFloats_loop (splitValues raw) [].

(** [parts[i] = fmt.Sprintf("%d", v)] for every [i], then [Join]. *)
Definition joinInts (vals : list Z) : string :=
  strings.Join (List.map fmt.Sprintf_d vals) ",".

Fixpoint formatFloats_loop (fuel : nat) (data : list byte) (i : Z) (out : list string)
  : result (list string) :=
  match fuel with
  | O => Running
  | S fuel =>
    if i <? len data then
      b <- orPanic (slice_from data i) ;;
      u <- orPanic (binary.Uint32 b) ;;
      formatFloats_loop fuel data (i + 4) (out ++ [fmt_Sprintf_g32 u])%list
    else Ok out
  end.

Definition formatData (data : list byte) (format : string) : result string :=
  let f := strings.ToLower format in
  if (f =? "hex")%string then Ok (bytesToHex data)
  else if (f =? "string")%string || (f =? "str")%string then Ok (string_of_list_byte data)
  else if (f =? "int16")%string then
    vals <- decodeInts data 2 ;; Ok (joinInts vals)
  else if (f =? "int32")%string then
    vals <- decodeInts data 4 ;; Ok (joinInts vals)
  else if (f =? "float32")%string || (f =? "float")%string then
    if negb (Z.rem (len data) 4 =? 0) then Err (EFloatSize (len data))
    else
      out <- formatFloats_loop (S (List.length data)) data 0 [] ;;
      Ok (strings.Join out ",")
  else Err (EUnknownFormat format).

Definition parseWriteData (format raw : string) : result (list byte) :=
  let f := strings.ToLower format in
  if (f =? "hex")%string then parseHex raw
  else if (f =? "string")%string || (f =? "str")%string then Ok (list_byte_of_string raw)
  else if (f =? "int16")%string then encodeInts raw 2
  else if (f =? "int32")%string then encodeInts raw 4
  else if (f =? "float32")%string || (f =? "float")%string then encodeFloats raw
  else Err (EUnknownFormat format).

End Codec.

(** ** The transport and the process environment

    [gos7.Client] and the handler behind it are an interface to the program:
    a class of operations on an abstract state [St] of the outside world
    (the controller, the connection, the clock). Every call the program
    makes is also recorded in a trace. *)

Record connOptions : Type := {
  address : string;
  rack : Z;
  slot : Z;
  ctype : Z;
  port : Z
}.

Record areaOptions : Type := {
  area : string;
  db : Z;
  start : Z;
  amount : Z
}.

Inductive event : Type :=
| EvConnect (addr : string) (rack slot : Z) (connectType : option Z)
| EvClose
| EvAGReadDB (db start size : Z)
| EvAGReadEB (start size : Z)
| EvAGReadAB (start size : Z)
| EvAGReadMB (start size : Z)
| EvAGWriteDB (db start size : Z) (data : list byte)
| EvAGWriteEB (start size : Z) (data : list byte)
| EvAGWriteAB (start size : Z) (data : list byte)
| EvAGWriteMB (start size : Z) (data : list byte)
| EvPrint (text : string)
| EvSleep (d : Z).

Class Client (St : Type) : Type := {
  (** [handler.Connect()] of the handler made for an address, rack and slot,
      with a connect type when [ctype > 0] *)
  Connect : string -> Z -> Z -> option Z -> St -> St * option string;
  (** [handler.Close()]; its error is dropped by [plcClient.Close] *)
  Close : St -> St;
  (** the reads get the buffer and give back what they left in it *)
  AGReadDB : Z -> Z -> Z -> list byte -> St -> St * list byte * option string;
  AGReadEB : Z -> Z -> list byte -> St -> St * list byte * option string;
  AGReadAB : Z -> Z -> list byte -> St -> St * list byte * option string;
  AGReadMB : Z -> Z -> list byte -> St -> St * list byte * option string;
  AGWriteDB : Z -> Z -> Z -> list byte -> St -> St * option string;
  AGWriteEB : Z -> Z -> list byte -> St -> St * option string;
  AGWriteAB : Z -> Z -> list byte -> St -> St * option string;
  AGWriteMB : Z -> Z -> list byte -> St -> St * option string;
  (** [time.Now().Format(time.RFC3339)] and [time.Sleep(d)] *)
  Now : St -> string;
  Sleep : Z -> St -> St
}.

(** A controller to run the model with: one memory of bytes shared by the
    four areas, which reads as zero past its end and drops the writes that
    do not fit; a connection that always opens; a clock that stands still. *)
Definition simRead (start size : Z) (buf : list byte) (mem : list byte)
  : list byte * list byte * option string :=
  (mem, firstn (Z.to_nat size) (skipn (Z.to_nat start) mem), None).

Definition simWrite (start size : Z) (data : list byte) (mem : list byte)
  : list byte * option string :=
  if (0 <=? start) && (0 <=? size) && (start + size <=? len mem) && (size <=? len data)
  then ((firstn (Z.to_nat start) mem ++ firstn (Z.to_nat size) data
         ++ skipn (Z.to_nat (start + size)) mem)%list, None)
  else (mem, None).

Definition simPLC : Client (list byte) := {|
  Connect := fun _ _ _ _ mem => (mem, None);
  Close := fun mem => mem;
  AGReadDB := fun _ start size buf mem => simRead start size buf mem;
  AGReadEB := fun start size buf mem => simRead start size buf mem;
  AGReadAB := fun start size buf mem => simRead start size buf mem;
  AGReadMB := fun start size buf mem => simRead start size buf mem;
  AGWriteDB := fun _ start size data mem => simWrite start size data mem;
  AGWriteEB := fun start size data mem => simWrite start size data mem;
  AGWriteAB := fun start size data mem => simWrite start size data mem;
  AGWriteMB := fun start size data mem => simWrite start size data mem;
  Now := fun _ => "2024-01-01T00:00:00Z";
  Sleep := fun _ mem => mem
|}.

Record world (St : Type) : Type := mkWorld {
  env : St;
  trace : list event
}.
Arguments mkWorld {St} env trace.
Arguments env {St} w.
Arguments trace {St} w.

(** Calls on the transport's read and write operations, and calls on the
    transport at all. *)
Definition isAreaCall (e : event) : bool :=
  match e with
  | EvAGReadDB _ _ _ | EvAGReadEB _ _ | EvAGReadAB _ _ | EvAGReadMB _ _
  | EvAGWriteDB _ _ _ _ | EvAGWriteEB _ _ _ | EvAGWriteAB _ _ _ | EvAGWriteMB _ _ _ => true
  | _ => false
  end.

Definition isWriteCall (e : event) : bool :=
  match e with
  | EvAGWriteDB _ _ _ _ | EvAGWriteEB _ _ _ | EvAGWriteAB _ _ _ | EvAGWriteMB _ _ _ => true
  | _ => false
  end.

Definition isReadCall (e : event) : bool :=
  match e with
  | EvAGReadDB _ _ _ | EvAGReadEB _ _ | EvAGReadAB _ _ | EvAGReadMB _ _ => true
  | _ => false
  end.

Definition isTransportCall (e : event) : bool :=
  match e with
  | EvConnect _ _ _ _ | EvClose => true
  | _ => isAreaCall e
  end.

Definition isSleep (e : event) : bool :=
  match e with EvSleep _ => true | _ => false end.

Definition isPrint (e : event) : bool :=
  match e with EvPrint _ => true | _ => false end.

(** ** The access engine and the commands of [main.go] *)
Section Engine.
Context `{Platform} {St : Type} `{Client St}.

(** A computation on the world that returns, fails, panics or runs on. *)
Definition M (A : Type) : Type := world St -> result A * world St.

Definition ret {A} (a : A) : M A := fun w => (Ok a, w).
Definition lift {A} (r : result A) : M A := fun w => (r, w).
Definition bindM {A B} (m : M A) (k : A -> M B) : M B :=
  fun w =>
    match m w with
    | (Ok a, w) => k a w
    | (Err e, w) => (Err e, w)
    | (Panic p, w) => (Panic p, w)
    | (Running, w) => (Running, w)
    end.

Notation "x <~ m ;; k" := (bindM m (fun x => k))
  (at level 61, m at next level, right associativity).

(** A call of the transport or of the process environment: the step on
    the outside world, and the event in the trace. *)
Definition call {A} (e : event) (f : St -> St * A) : M A :=
  fun w => let '(s, a) := f (env w) in (Ok a, mkWorld s (trace w ++ [e])%list).

(** [defer f()]: [f] runs when the function is left, however it is left. *)
Definition defer {A} (f : world St -> world St) (body : M A) : M A :=
  fun w =>
    match body w with
    | (Running, w) => (Running, w)
    | (r, w) => (r, f w)
    end.

Definition plcClose : world St -> world St :=
  fun w => mkWorld (Close (env w)) (trace w ++ [EvClose])%list.

Definition failWith {A} (msg : option string) (mk : string -> error) (a : A) : M A :=
  match msg with
  | Some m => lift (Err (mk m))
  | None => ret a
  end.

Definition connect (opts : connOptions) : M unit :=
  let addr := address opts in
  let addr :=
    if negb (strings.Contains addr ":") && (port opts >? 0)
    then addr ++ ":" ++ fmt.Sprintf_d (port opts)
    else addr in
  let connectType := if ctype opts >? 0 then Some (to_int 64 (ctype opts)) else None in
  err <~ call (EvConnect addr (rack opts) (slot opts) connectType)
              (Connect addr (rack opts) (slot opts) connectType) ;;
  failWith err EConnect tt.

(** What a read leaves in [buf]: the callee can only overwrite the
    elements of the slice it was given. *)
Definition overwrite (buf data : list byte) : list byte :=
  firstn (List.length buf) (data ++ skipn (List.length data) buf)%list.

Definition readCall (e : event) (buf : list byte)
           (f : list byte -> St -> St * list byte * option string) : M (list byte) :=
  r <~ call e (fun s => let '(s, data, err) := f buf s in (s, (data, err))) ;;
  failWith (snd r) ETransport (overwrite buf (fst r)).

Definition writeCall (e : event) (f : St -> St * option string) : M unit :=
  err <~ call e f ;;
  failWith err ETransport tt.

(** [make([]byte, area.amount)] panics on a negative length; the limit that
    the memory of the machine puts on the length is not modelled. *)
Definition readArea (a : areaOptions) : M (list byte) :=
  if amount a <? 0 then lift (Panic MakeSliceLenOutOfRange)
  else
    let buf := repeat x00 (Z.to_nat (amount a)) in
    let u := strings.ToUpper (area a) in
    if (u =? "DB")%string then
      readCall (EvAGReadDB (db a) (start a) (amount a)) buf
               (AGReadDB (db a) (start a) (amount a))
    else if (u =? "PE")%string || (u =? "I")%string || (u =? "INPUT")%string then
      readCall (EvAGReadEB (start a) (amount a)) buf (AGReadEB (start a) (amount a))
    else if (u =? "PA")%string || (u =? "Q")%string || (u =? "OUTPUT")%string then
      readCall (EvAGReadAB (start a) (amount a)) buf (AGReadAB (start a) (amount a))
    else if (u =? "MK")%string || (u =? "M")%string || (u =? "MERKER")%string then
      readCall (EvAGReadMB (start a) (amount a)) buf (AGReadMB (start a) (amount a))
    else lift (Err (EAreaNotSupported (area a))).

Definition writeArea (a : areaOptions) (data : list byte) : M unit :=
  let u := strings.ToUpper (area a) in
  if (u =? "DB")%string then
    writeCall (EvAGWriteDB (db a) (start a) (len data) data)
              (AGWriteDB (db a) (start a) (len data) data)
  else if (u =? "PE")%string || (u =? "I")%string || (u =? "INPUT")%string then
    writeCall (EvAGWriteEB (start a) (len data) data) (AGWriteEB (start a) (len data) data)
  else if (u =? "PA")%string || (u =? "Q")%string || (u =? "OUTPUT")%string then
    writeCall (EvAGWriteAB (start a) (len data) data) (AGWriteAB (start a) (len data) data)
  else if (u =? "MK")%string || (u =? "M")%string || (u =? "MERKER")%string then
    writeCall (EvAGWriteMB (start a) (len data) data) (AGWriteMB (start a) (len data) data)
  else lift (Err (EAreaNotSupported (area a))).

Definition println (text : string) : M unit :=
  call (EvPrint (text ++ String "010"%char "")) (fun s => (s, tt)).

(** The commands, after their flags are parsed. *)
Definition runRead (conn : connOptions) (a : areaOptions) (format : string) : M unit :=
  _ <~ connect conn ;;
  defer plcClose (
    data <~ readArea a ;;
    out <~ lift (formatData data format) ;;
    println out).

Fixpoint runPoll_loop (fuel : nat) (a : areaOptions) (format : string)
         (interval count : Z) (i : Z) : M unit :=
  match fuel with
  | O => lift Running
  | S fuel =>
    data <~ readArea a ;;
    out <~ lift (formatData data format) ;;
    stamp <~ (fun w => (Ok (Now (env w)), w)) ;;
    _ <~ println ("[" ++ stamp ++ "] " ++ out) ;;
    let i := to_int 64 (i + 1) in
    if (count >? 0) && (i >=? count) then ret tt
    else
      _ <~ call (EvSleep interval) (fun s => (Sleep interval s, tt)) ;;
      runPoll_loop fuel a format interval count i
  end.

Definition runPoll (fuel : nat) (conn : connOptions) (a : areaOptions) (format : string)
           (interval count : Z) : M unit :=
  _ <~ connect conn ;;
  defer plcClose (runPoll_loop fuel a format interval count 0).

Definition runWrite (conn : connOptions) (a : areaOptions) (format rawValues : string)
  : M unit :=
  if (rawValues =? "")%string then lift (Err EValuesRequired)
  else
    payload <~ lift (parseWriteData format rawValues) ;;
    _ <~ connect conn ;;
    defer plcClose (writeArea a payload).

End Engine.

Definition world0 {St} (s : St) : world St := mkWorld s [].

(** ** The specification's words

    Definitions that follow the specification rather than the program, to
    state what the program is compared with. *)
Module Spec.

(** The four canonical memory-area kinds and the table of their aliases. *)
Inductive AreaKind : Type := DataBlock | Input | Output | Marker.

Definition aliasTable : list (string * AreaKind) :=
  [("DB", DataBlock);
   ("PE", Input); ("I", Input); ("INPUT", Input);
   ("PA", Output); ("Q", Output); ("OUTPUT", Output);
   ("MK", Marker); ("M", Marker); ("MERKER", Marker)].

Fixpoint lookup (k : string) (t : list (string * AreaKind)) : option AreaKind :=
  match t with
  | [] => None
  | (a, v) :: t => if (k =? a)%string then Some v else lookup k t
  end.

(** [resolve(kindString)]: case-insensitive matching against the table;
    [None] is the [UnsupportedArea] error. *)
Definition resolve `{Platform} (kindString : string) : option AreaKind :=
  lookup (strings.ToUpper kindString) aliasTable.

(** The transport operation selected by a kind. *)
Definition readOp (k : AreaKind) (a : areaOptions) : event :=
  match k with
  | DataBlock => EvAGReadDB (db a) (start a) (amount a)
  | Input => EvAGReadEB (start a) (amount a)
  | Output => EvAGReadAB (start a) (amount a)
  | Marker => EvAGReadMB (start a) (amount a)
  end.

Definition writeOp (k : AreaKind) (a : areaOptions) (payload : list byte) : event :=
  match k with
  | DataBlock => EvAGWriteDB (db a) (start a) (len payload) payload
  | Input => EvAGWriteEB (start a) (len payload) payload
  | Output => EvAGWriteAB (start a) (len payload) payload
  | Marker => EvAGWriteMB (start a) (len payload) payload
  end.

(** Two uppercase hex digits for a byte. *)
Definition upperHexDigit (d : Z) : ascii :=
  if d <? 10 then ascii_of_Z (48 + d) else ascii_of_Z (65 + (d - 10)).


Definition isHexDigit (c : ascii) : bool :=
  let z := Z_of_ascii c in
  ((48 <=? z) && (z <=? 57)) || ((65 <=? z) && (z <=? 70)) || ((97 <=? z) && (z <=? 102)).

Definition hexDigitValue (c : ascii) : Z :=
  let z := Z_of_ascii c in
  if z <=? 57 then z - 48 else if z <=? 70 then z - 55 else z - 87.

(** The bytes that a run of hex digits denotes, two digits a byte. *)
Fixpoint hexBytes (digits : list ascii) : list byte :=
  match digits with
  | h :: l :: rest => byte_of_Z (16 * hexDigitValue h + hexDigitValue l) :: hexBytes rest
  | _ => []
  end.

(** A signed big-endian integer of [List.length chunk] bytes. *)
Definition unsignedBigEndian (chunk : list byte) : Z :=
  fold_left (fun acc b => acc * 256 + Z_of_byte b) chunk 0.

Definition signedBigEndian (chunk : list byte) : Z :=
  let bits := 8 * len chunk in
  let u := unsignedBigEndian chunk in
  if u <? 2 ^ (bits - 1) then u else u - 2 ^ bits.

Fixpoint chunks2 (data : list byte) : list (list byte) :=
  match data with
  | a :: b :: rest => [a; b] :: chunks2 rest
  | _ => []
  end.

Fixpoint chunks4 (data : list byte) : list (list byte) :=
  match data with
  | a :: b :: c :: d :: rest => [a; b; c; d] :: chunks4 rest
  | _ => []
  end.

(** The value of a run of digits in a base, most significant first. *)
Definition digitValue (c : ascii) : Z :=
  let z := Z_of_ascii c in
  if z <=? 57 then z - 48 else if z <=? 90 then z - 55 else z - 87.

Definition isAlnum (c : ascii) : bool :=
  let z := Z_of_ascii c in
  ((48 <=? z) && (z <=? 57)) || ((65 <=? z) && (z <=? 90)) || ((97 <=? z) && (z <=? 122)).

Definition isDigitIn (base : Z) (c : ascii) : bool :=
  isAlnum c && (digitValue c <? base).

Fixpoint valueIn (base : Z) (acc : Z) (s : string) : Z :=
  match s with
  | EmptyString => acc
  | String c rest => valueIn base (acc * base + digitValue c) rest
  end.

Fixpoint allChars (p : ascii -> bool) (s : string) : bool :=
  match s with
  | EmptyString => true
  | String c rest => p c && allChars p rest
  end.

(** A token that can be a number at all: an optional sign, then at least
    one character, all of them digits, letters or underscores. *)
Definition numericToken (tok : string) : bool :=
  let body :=
    match tok with
    | String c r => if (Z_of_ascii c =? 43) || (Z_of_ascii c =? 45) then r else tok
    | EmptyString => tok
    end in
  negb (body =? "")%string
  && allChars (fun c => isAlnum c || (Z_of_ascii c =? 95)) body.

(** The range of a signed integer of [bits] bits. *)
Definition inRange (bits v : Z) : bool :=
  (- 2 ^ (bits - 1) <=? v) && (v <? 2 ^ (bits - 1)).

(** A character that can stand in a token of a value list: ASCII, not
    white space and not the comma. *)
Definition tokenChar (c : ascii) : bool :=
  (Z_of_ascii c <? 128) && negb (strings.asciiSpace c) && negb (Z_of_ascii c =? 44).

(** What [ParseUint] and [ParseInt] return for text that denotes [v]:
    the value when it fits, else the nearest bound and a range error. *)
Definition uintResult (s0 : string) (bits v : Z) : Z * option NumError :=
  if v <=? 2 ^ bits - 1 then (v, None)
  else (2 ^ bits - 1, Some (mkNumError "ParseUint" s0 ErrRange)).

Definition intResult (s0 : string) (bits v : Z) : Z * option NumError :=
  if inRange bits v then (v, None)
  else (if v <? 0 then - 2 ^ (bits - 1) else 2 ^ (bits - 1) - 1,
        Some (mkNumError "ParseInt" s0 ErrRange)).

Definition headIs (z : Z) (s : string) : bool :=
  match s with
  | String c _ => Z_of_ascii c =? z
  | EmptyString => false
  end.

(** The steps of a poll: a read, an emitted line, a suspension. *)
Inductive step : Type := Read | Emit | Suspend.

Definition stepOf (e : event) : option step :=
  if isReadCall e then Some Read
  else if isPrint e then Some Emit
  else if isSleep e then Some Suspend
  else None.


(** The integer that a token denotes, read as an integer literal. A
    literal is an optional sign and a body. The body starts with [0b],
    [0o] or [0x] (in either case) before at least one more character and
    is then binary, octal or hexadecimal; or it starts with [0] and is
    octal; or it is decimal. Single underscores may stand among the
    digits, each between two digits or between the prefix and a digit. *)
Definition isUnderscore (c : ascii) : bool := Z_of_ascii c =? 95.

Fixpoint withoutUnderscores (s : string) : string :=
  match s with
  | EmptyString => EmptyString
  | String c rest =>
    if isUnderscore c then withoutUnderscores rest
    else String c (withoutUnderscores rest)
  end.

(** Every underscore of [s] comes after a digit (or after the prefix, when
    [afterDigit] holds at the start) and before a character that is not
    an underscore. *)
Fixpoint separated (afterDigit : bool) (s : string) : bool :=
  match s with
  | EmptyString => true
  | String c rest =>
    if isUnderscore c
    then afterDigit
         && match rest with
            | String d _ => negb (isUnderscore d)
            | EmptyString => false
            end
         && separated false rest
    else separated true rest
  end.

Definition prefixBase (c : ascii) : option Z :=
  let z := Z_of_ascii c in
  if (z =? 98) || (z =? 66) then Some 2
  else if (z =? 111) || (z =? 79) then Some 8
  else if (z =? 120) || (z =? 88) then Some 16
  else None.

(** The base of a body, whether an underscore may come first among its
    digits, and the digits. *)
Definition literalDigits (body : string) : Z * bool * string :=
  match body with
  | String c0 r0 =>
    if Z_of_ascii c0 =? 48 then
      match r0 with
      | String c1 (String c2 r2) =>
        match prefixBase c1 with
        | Some b => (b, true, String c2 r2)
        | None => (8, true, r0)
        end
      | _ => (8, true, r0)
      end
    else (10, false, body)
  | EmptyString => (10, false, body)
  end.

Definition naturalOf (body : string) : option Z :=
  let '(base, afterDigit, digits) := literalDigits body in
  let ds := withoutUnderscores digits in
  if negb (body =? "")%string && separated afterDigit digits && allChars (isDigitIn base) ds
  then Some (valueIn base 0 ds)
  else None.

Definition integerOf (tok : string) : option Z :=
  match tok with
  | EmptyString => None
  | String c rest =>
    if Z_of_ascii c =? 43 then naturalOf rest
    else if Z_of_ascii c =? 45 then option_map Z.opp (naturalOf rest)
    else naturalOf tok
  end.

(** A token that is no integer literal, or one whose value a signed
    integer of [bits] bits cannot hold. *)
Definition notEncodable (bits : Z) (tok : string) : Prop :=
  integerOf tok = None
  \/ exists v, integerOf tok = Some v /\ inRange bits v = false.

End Spec.

(** Hex text as the write command accepts it: bytes of two hex digits in
    either case, with spaces and [0x] / [0X] prefixes anywhere between them. *)
Module HexText.

Inductive token : Type :=
| Space
| Prefix (upper : bool)
| Digits (h l : ascii).

Definition render (t : token) : string :=
  match t with
  | Space => " "
  | Prefix false => "0x"
  | Prefix true => "0X"
  | Digits h l => String h (String l EmptyString)
  end.

Fixpoint text (ts : list token) : string :=
  match ts with
  | [] => EmptyString
  | t :: ts => render t ++ text ts
  end.


Fixpoint bytes (ts : list token) : list byte :=
  match ts with
  | [] => []
  | Digits h l :: ts =>
    byte_of_Z (16 * Spec.hexDigitValue h + Spec.hexDigitValue l) :: bytes ts
  | _ :: ts => bytes ts
  end.

(** How the read command renders bytes: two uppercase digits a byte, one
    space between two bytes. *)
Definition ofByte (b : byte) : token :=
  Digits (Spec.upperHexDigit (Z_of_byte b / 16)) (Spec.upperHexDigit (Z_of_byte b mod 16)).


Definition isUpperHex (c : ascii) : bool :=
  let z := Z_of_ascii c in ((48 <=? z) && (z <=? 57)) || ((65 <=? z) && (z <=? 70)).





Definition hexChars : list ascii := list_ascii_of_string "0123456789abcdefABCDEF".

End HexText.

(** What [parseHex] calls [clean]. *)
Definition cleanHex (s : string) : string :=
  strings.ReplaceAll (strings.ReplaceAll (strings.ReplaceAll s " " "") "0x" "") "0X" "".

(** The operation of the transport that a kind selects. *)
Section Dispatch.
Context {St : Type} `{Client St}.

Definition readMethod (k : Spec.AreaKind) (a : areaOptions)
  : list byte -> St -> St * list byte * option string :=
  match k with
  | Spec.DataBlock => AGReadDB (db a) (start a) (amount a)
  | Spec.Input => AGReadEB (start a) (amount a)
  | Spec.Output => AGReadAB (start a) (amount a)
  | Spec.Marker => AGReadMB (start a) (amount a)
  end.

Definition writeMethod (k : Spec.AreaKind) (a : areaOptions) (data : list byte)
  : St -> St * option string :=
  match k with
  | Spec.DataBlock => AGWriteDB (db a) (start a) (len data) data
  | Spec.Input => AGWriteEB (start a) (len data) data
  | Spec.Output => AGWriteAB (start a) (len data) data
  | Spec.Marker => AGWriteMB (start a) (len data) data
  end.

End Dispatch.

(** ** Vocabulary of the further properties *)

(** The calls that open and release the session. *)
Definition isSession (e : event) : bool :=
  match e with
  | EvConnect _ _ _ _ | EvClose => true
  | _ => false
  end.

(** Whether [ParseUint] has seen an underscore in its digits. *)
Fixpoint hasUnderscore (s : string) : bool :=
  match s with
  | EmptyString => false
  | String c rest => Spec.isUnderscore c || hasUnderscore rest
  end.

(** What [underscoreOK] takes for a digit. *)
Definition scanDigit (hex : bool) (c : ascii) : bool :=
  let z := Z_of_ascii c in
  ((48 <=? z) && (z <=? 57))
  || (hex && (97 <=? strconv.lower z) && (strconv.lower z <=? 102)).

(** The library's conversions agree on the float32 of bits [u]: its [%g]
    text is one token of a value list, and parsing that text gives the
    same bits. Go's shortest formatting has this property on finite
    floats. *)
Definition rendersBack `{Platform} (u : Z) : Prop :=
  fmt_Sprintf_g32 u <> ""
  /\ Spec.allChars Spec.tokenChar (fmt_Sprintf_g32 u) = true
  /\ strconv_ParseFloat32 (fmt_Sprintf_g32 u) = (u, None).

(** The call that opens the session. *)
Definition opened (e : event) : bool :=
  match e with
  | EvConnect _ _ _ _ => true
  | _ => false
  end.

(** Any character but the separator of a value list. *)
Definition noComma (c : ascii) : bool := negb (c =? ",")%char.

(** A character of a value list that belongs to no token. *)
Definition blankChar (c : ascii) : bool :=
  strings.asciiSpace c || (Z_of_ascii c =? 44).

(** [k] complete ticks of a poll, each followed by its suspension. *)
Fixpoint ticks (k : nat) : list Spec.step :=
  match k with
  | O => []
  | S k => Spec.Read :: Spec.Emit :: Spec.Suspend :: ticks k
  end.

(** The call came back, with a value or with an error. *)
Definition returned {A} (r : result A) : bool :=
  match r with
  | Ok _ | Err _ => true
  | Panic _ | Running => false
  end.

Definition firstChar (s : string) : option ascii :=
  match s with
  | String c _ => Some c
  | EmptyString => None
  end.

Definition lastChar (s : string) : option ascii :=
  String.get (String.length s - 1) s.

(** * Properties *)

(** ** Bytes, strings and slices *)

Lemma Z_of_byte_range b : 0 <= Z_of_byte b < 256.
Proof.
  unfold Z_of_byte. pose proof (Byte.to_N_bounded b). lia.
Qed.

Lemma byte_of_Z_of_byte b : byte_of_Z (Z_of_byte b) = b.
Proof.
  unfold byte_of_Z. rewrite Z.mod_small by apply Z_of_byte_range.
  unfold Z_of_byte. rewrite N2Z.id, Byte.of_to_N. reflexivity.
Qed.

Lemma Z_of_byte_of_Z z : Z_of_byte (byte_of_Z z) = z mod 256.
Proof.
  unfold byte_of_Z, Z_of_byte.
  pose proof (Z.mod_pos_bound z 256 ltac:(lia)) as Hb.
  destruct (Byte.of_N (Z.to_N (z mod 256))) eqn:E.
  - apply Byte.to_of_N in E. rewrite E. lia.
  - apply Byte.of_N_None_iff in E. lia.
Qed.

Lemma lor_shiftl_add (b a n : Z) :
  0 <= n -> 0 <= b < 2 ^ n -> Z.lor b (Z.shiftl a n) = b + a * 2 ^ n.
Proof.
  intros Hn Hb.
  rewrite <- Z.shiftl_mul_pow2 by lia.
  assert (Z.land b (Z.shiftl a n) = 0) as Hl.
  { apply Z.bits_inj'. intros i Hi. rewrite Z.land_spec, Z.bits_0.
    destruct (Z.lt_ge_cases i n).
    - rewrite Z.shiftl_spec_low by lia. apply andb_false_r.
    - replace b with (b mod 2 ^ n) by (apply Z.mod_small; lia).
      rewrite Z.mod_pow2_bits_high by lia. reflexivity. }
  rewrite <- Z.lxor_lor by exact Hl. symmetry. apply Z.add_nocarry_lxor. exact Hl.
Qed.

(** strings *)
Lemma length_append (a b : string) :
  String.length (a ++ b) = (String.length a + String.length b)%nat.
Proof. induction a; simpl; congruence. Qed.

Lemma append_nil_r (a : string) : a ++ "" = a.
Proof. induction a; simpl; congruence. Qed.

Lemma append_assoc (a b c : string) : (a ++ b) ++ c = a ++ (b ++ c).
Proof. induction a; simpl; congruence. Qed.


Lemma slen_append a b : slen (a ++ b) = slen a + slen b.
Proof. unfold slen. rewrite length_append. lia. Qed.



(** ** Hex text *)
Import HexText.

Lemma isHexDigit_In c : Spec.isHexDigit c = true -> In c hexChars.
Proof.
  destruct c as [[] [] [] [] [] [] [] []]; vm_compute; intro E;
    first [discriminate E | tauto].
Qed.



















(** *** The rendering of bytes is hex text *)



Lemma ofByte_upper b :
  Spec.allChars isUpperHex (render (ofByte b)) = true.
Proof. destruct b; reflexivity. Qed.








Lemma allChars_app p a b :
  Spec.allChars p (a ++ b) = Spec.allChars p a && Spec.allChars p b.
Proof. induction a; cbn [append Spec.allChars]; auto. rewrite IHa. apply andb_assoc. Qed.




(** ** What [parseHex] rejects, and what it lets through *)

Lemma parseHex_odd_length s :
  Z.rem (slen (cleanHex s)) 2 <> 0 ->
  parseHex s = Err (EHexOddLength (slen (cleanHex s)))
  /\ kindOf (EHexOddLength (slen (cleanHex s))) = MalformedInput.
Proof.
  intro Ho. split; [|reflexivity]. unfold parseHex. fold (cleanHex s).
  destruct (Z.eqb_spec (Z.rem (slen (cleanHex s)) 2) 0); [contradiction|reflexivity].
Qed.

(** An error of the loop carries the offset of the group that the scanner
    refused. *)
Lemma parseHex_loop_offset fuel clean : forall i out pos cause,
  parseHex_loop fuel clean i out = Err (EInvalidHex pos cause) ->
  (exists k, 0 <= k /\ pos = i + 2 * k) /\ pos < slen clean
  /\ exists g, str_slice clean pos (pos + 2) = Some g /\ fmt.Sscanf_02X g = inl cause.
Proof.
  induction fuel as [|fuel IH]; intros i out pos cause; cbn [parseHex_loop]; [discriminate|].
  destruct (Z.ltb_spec i (slen clean)) as [Hlt|]; [|discriminate].
  destruct (str_slice clean i (i + 2)) as [g|] eqn:Eg; cbn [orPanic bind]; [|discriminate].
  destruct (fmt.Sscanf_02X g) as [err|v] eqn:Es.
  - intro E. injection E as <- <-. split; [exists 0; lia|]. split; [exact Hlt|eauto].
  - destruct (list_set out (Z.to_nat (i / 2)) v); cbn [orPanic bind]; [|discriminate].
    intro E. apply IH in E as ((k & Hk & ->) & Hp & Hg).
    split; [exists (k + 1); lia|]. split; [exact Hp|exact Hg].
Qed.

Lemma parseHex_invalid_group_offset s pos cause :
  parseHex s = Err (EInvalidHex pos cause) ->
  0 <= pos < slen (cleanHex s) /\ Z.even pos = true
  /\ exists g, str_slice (cleanHex s) pos (pos + 2) = Some g /\ fmt.Sscanf_02X g = inl cause.
Proof.
  unfold parseHex. fold (cleanHex s). destruct (negb _); [discriminate|].
  intro E. apply parseHex_loop_offset in E as ((k & Hk & ->) & Hp & Hg).
  split; [lia|]. split; [|exact Hg].
  cbn [Z.add]. rewrite Z.even_mul. reflexivity.
Qed.

(** The scanner takes a group whose second character is not a hex digit for
    the number that its first character spells. *)
Lemma Sscanf_half_group h c :
  Spec.isHexDigit h = true -> Spec.isHexDigit c = false ->
  fmt.Sscanf_02X (String h (String c "")) = inr (byte_of_Z (Spec.hexDigitValue h)).
Proof.
  intros Hh Hc. apply isHexDigit_In in Hh.
  unfold hexChars in Hh. cbn [list_ascii_of_string In] in Hh.
  destruct c as [[] [] [] [] [] [] [] []]; try discriminate Hc; clear Hc;
    repeat (destruct Hh as [<-|Hh]; [vm_compute; reflexivity|]); contradiction.
Qed.

(** So does [parseHex], unless the cleaning removes something of the group. *)
Lemma parseHex_half_group h c :
  Spec.isHexDigit h = true -> Spec.isHexDigit c = false ->
  c <> " "%char -> ~ (h = "0"%char /\ (c = "x"%char \/ c = "X"%char)) ->
  parseHex (String h (String c "")) = Ok [byte_of_Z (Spec.hexDigitValue h)].
Proof.
  intros Hh Hc Hsp Hx. apply isHexDigit_In in Hh.
  unfold hexChars in Hh. cbn [list_ascii_of_string In] in Hh.
  destruct c as [[] [] [] [] [] [] [] []]; try discriminate Hc; clear Hc;
    try (exfalso; apply Hsp; reflexivity);
    repeat (destruct Hh as [<-|Hh];
            [first [vm_compute; reflexivity
                   | exfalso; apply Hx; split; [reflexivity|auto]]|]);
    contradiction.
Qed.

(** C1: the half of the claim that the program breaks. A group whose first
    character is a hex digit and whose second is not is scanned as the
    one-digit number: ["1G"] encodes to the byte [01] and no error. Odd
    length, and a group that does not start with a hex digit, are refused. *)
Theorem C1_invalid_group_accepted :
  parseHex "1G" = Ok [x01]
  /\ cleanHex "1G" = "1G"
  /\ fmt.Sscanf_02X "1G" = inr x01
  /\ Spec.isHexDigit "G" = false
  /\ parseHex "ABC" = Err (EHexOddLength 3)
  /\ parseHex "G1" = Err (EInvalidHex 0 ScanExpectedInteger).
Proof. repeat split; reflexivity. Qed.

(** ** Integers on the wire *)

Lemma Uint16_value a b rest :
  binary.Uint16 (a :: b :: rest) = Some (Z_of_byte a * 256 + Z_of_byte b).
Proof.
  cbn [binary.Uint16]. f_equal.
  pose proof (Z_of_byte_range a). pose proof (Z_of_byte_range b).
  rewrite lor_shiftl_add by lia. lia.
Qed.

Lemma Uint32_value a b c d rest :
  binary.Uint32 (a :: b :: c :: d :: rest)
  = Some (((Z_of_byte a * 256 + Z_of_byte b) * 256 + Z_of_byte c) * 256 + Z_of_byte d).
Proof.
  cbn [binary.Uint32]. f_equal.
  pose proof (Z_of_byte_range a). pose proof (Z_of_byte_range b).
  pose proof (Z_of_byte_range c). pose proof (Z_of_byte_range d).
  rewrite (lor_shiftl_add (Z_of_byte d)) by lia.
  rewrite (lor_shiftl_add (Z_of_byte d + _)) by lia.
  rewrite (lor_shiftl_add (Z_of_byte d + _ + _)) by lia.
  lia.
Qed.

Lemma to_int_16_signed a b :
  to_int 16 (Z_of_byte a * 256 + Z_of_byte b) = Spec.signedBigEndian [a; b].
Proof.
  unfold to_int, Spec.signedBigEndian, Spec.unsignedBigEndian, len.
  cbn [fold_left List.length].
  pose proof (Z_of_byte_range a). pose proof (Z_of_byte_range b).
  change (8 * Z.of_nat 2) with 16.
  rewrite Z.mod_small by (change (2 ^ 16) with 65536; lia).
  replace ((0 * 256 + Z_of_byte a) * 256 + Z_of_byte b)
    with (Z_of_byte a * 256 + Z_of_byte b) by lia.
  reflexivity.
Qed.

Lemma to_int_32_signed a b c d :
  to_int 32 (((Z_of_byte a * 256 + Z_of_byte b) * 256 + Z_of_byte c) * 256 + Z_of_byte d)
  = Spec.signedBigEndian [a; b; c; d].
Proof.
  unfold to_int, Spec.signedBigEndian, Spec.unsignedBigEndian, len.
  cbn [fold_left List.length].
  pose proof (Z_of_byte_range a). pose proof (Z_of_byte_range b).
  pose proof (Z_of_byte_range c). pose proof (Z_of_byte_range d).
  change (8 * Z.of_nat 4) with 32.
  rewrite Z.mod_small by (change (2 ^ 32) with 4294967296; lia).
  replace ((((0 * 256 + Z_of_byte a) * 256 + Z_of_byte b) * 256 + Z_of_byte c) * 256 + Z_of_byte d)
    with (((Z_of_byte a * 256 + Z_of_byte b) * 256 + Z_of_byte c) * 256 + Z_of_byte d) by lia.
  reflexivity.
Qed.

Lemma slice_from_app {A} (pre rest : list A) :
  slice_from (pre ++ rest)%list (len pre) = Some rest.
Proof.
  unfold slice_from, len. rewrite length_app.
  replace ((0 <=? Z.of_nat (List.length pre))
           && (Z.of_nat (List.length pre) <=? Z.of_nat (List.length pre + List.length rest)))
    with true by (symmetry; rewrite andb_true_iff, !Z.leb_le; lia).
  rewrite Nat2Z.id. f_equal.
  induction pre; cbn [List.length skipn app]; auto.
Qed.

Lemma len_app {A} (a b : list A) : len (a ++ b)%list = len a + len b.
Proof. unfold len. rewrite length_app. lia. Qed.

Lemma decodeInts_loop_2 k : forall rest pre vals fuel,
  List.length rest = (2 * k)%nat -> (k < fuel)%nat ->
  decodeInts_loop fuel (pre ++ rest)%list 2 (len pre) vals
  = Ok (vals ++ List.map Spec.signedBigEndian (Spec.chunks2 rest))%list.
Proof.
  induction k as [|k IH]; intros rest pre vals fuel Hl Hf;
    (destruct fuel as [|fuel]; [lia|]); cbn [decodeInts_loop].
  - destruct rest; [|discriminate Hl]. rewrite app_nil_r, Z.ltb_irrefl.
    cbn [Spec.chunks2 List.map]. now rewrite app_nil_r.
  - destruct rest as [|a [|b rest]]; try (cbn in Hl; lia).
    replace (len pre <? len (pre ++ a :: b :: rest)%list) with true
      by (symmetry; apply Z.ltb_lt; rewrite len_app; unfold len; cbn [List.length]; lia).
    unfold decodeInts_step. cbn [Z.eqb Pos.eqb].
    rewrite slice_from_app. cbn [orPanic bind]. rewrite Uint16_value. cbn [orPanic bind].
    rewrite to_int_16_signed.
    specialize (IH rest (pre ++ [a; b])%list (vals ++ [Spec.signedBigEndian [a; b]])%list fuel).
    rewrite <- !app_assoc in IH. cbn [app] in IH.
    replace (len (pre ++ [a; b])%list) with (len pre + 2) in IH
      by (rewrite len_app; reflexivity).
    rewrite IH by (cbn in Hl; lia). cbn [Spec.chunks2 List.map]. reflexivity.
Qed.

Lemma decodeInts_loop_4 k : forall rest pre vals fuel,
  List.length rest = (4 * k)%nat -> (k < fuel)%nat ->
  decodeInts_loop fuel (pre ++ rest)%list 4 (len pre) vals
  = Ok (vals ++ List.map Spec.signedBigEndian (Spec.chunks4 rest))%list.
Proof.
  induction k as [|k IH]; intros rest pre vals fuel Hl Hf;
    (destruct fuel as [|fuel]; [lia|]); cbn [decodeInts_loop].
  - destruct rest; [|discriminate Hl]. rewrite app_nil_r, Z.ltb_irrefl.
    cbn [Spec.chunks4 List.map]. now rewrite app_nil_r.
  - destruct rest as [|a [|b [|c [|d rest]]]]; try (cbn in Hl; lia).
    replace (len pre <? len (pre ++ a :: b :: c :: d :: rest)%list) with true
      by (symmetry; apply Z.ltb_lt; rewrite len_app; unfold len; cbn [List.length]; lia).
    unfold decodeInts_step. cbn [Z.eqb Pos.eqb].
    rewrite slice_from_app. cbn [orPanic bind]. rewrite Uint32_value. cbn [orPanic bind].
    rewrite to_int_32_signed.
    specialize (IH rest (pre ++ [a; b; c; d])%list
                   (vals ++ [Spec.signedBigEndian [a; b; c; d]])%list fuel).
    rewrite <- !app_assoc in IH. cbn [app] in IH.
    replace (len (pre ++ [a; b; c; d])%list) with (len pre + 4) in IH
      by (rewrite len_app; reflexivity).
    rewrite IH by (cbn in Hl; lia). cbn [Spec.chunks4 List.map]. reflexivity.
Qed.

Lemma decodeInts_2 data :
  decodeInts data 2 =
  if len data mod 2 =? 0
  then Ok (List.map Spec.signedBigEndian (Spec.chunks2 data))
  else Err (ENotAligned 2 (len data)).
Proof.
  unfold decodeInts. cbn [Z.eqb].
  assert (0 <= len data) as Hn by (unfold len; lia).
  rewrite Z.rem_mod_nonneg by lia.
  destruct (len data mod 2 =? 0) eqn:E; cbn [negb]; [|reflexivity].
  apply Z.eqb_eq in E.
  replace (Z.quot (len data) 2 <? 0) with false
    by (symmetry; apply Z.ltb_ge; apply Z.quot_pos; lia).
  pose proof (decodeInts_loop_2 (List.length data / 2) data [] [] (S (List.length data))) as P.
  cbn [app] in P. apply P.
  - unfold len in E. apply Nat.Div0.div_exact.
    apply Nat2Z.inj. rewrite Nat2Z.inj_mod. exact E.
  - pose proof (Nat.Div0.div_le_upper_bound (List.length data) 2 (List.length data)). lia.
Qed.

Lemma decodeInts_4 data :
  decodeInts data 4 =
  if len data mod 4 =? 0
  then Ok (List.map Spec.signedBigEndian (Spec.chunks4 data))
  else Err (ENotAligned 4 (len data)).
Proof.
  unfold decodeInts. cbn [Z.eqb].
  assert (0 <= len data) as Hn by (unfold len; lia).
  rewrite Z.rem_mod_nonneg by lia.
  destruct (len data mod 4 =? 0) eqn:E; cbn [negb]; [|reflexivity].
  apply Z.eqb_eq in E.
  replace (Z.quot (len data) 4 <? 0) with false
    by (symmetry; apply Z.ltb_ge; apply Z.quot_pos; lia).
  pose proof (decodeInts_loop_4 (List.length data / 4) data [] [] (S (List.length data))) as P.
  cbn [app] in P. apply P.
  - unfold len in E. apply Nat.Div0.div_exact.
    apply Nat2Z.inj. rewrite Nat2Z.inj_mod. exact E.
  - pose proof (Nat.Div0.div_le_upper_bound (List.length data) 4 (List.length data)). lia.
Qed.

(** C3: decoding as int16 or int32. A payload whose length is not a multiple
    of the width is an alignment error; otherwise every group of two (four)
    bytes is read as a signed big-endian integer and the values are printed
    in decimal, joined by commas. The bytes 01 02 03 04 read as int16 print
    as 258,772. *)
Theorem C3_decode_ints :
  forall (P : Platform) (data : list byte),
    decodeInts data 2 =
      (if len data mod 2 =? 0
       then Ok (List.map Spec.signedBigEndian (Spec.chunks2 data))
       else Err (ENotAligned 2 (len data)))
    /\ decodeInts data 4 =
      (if len data mod 4 =? 0
       then Ok (List.map Spec.signedBigEndian (Spec.chunks4 data))
       else Err (ENotAligned 4 (len data)))
    /\ formatData data "int16" =
      (if len data mod 2 =? 0
       then Ok (String.concat ","
                  (List.map fmt.Sprintf_d (List.map Spec.signedBigEndian (Spec.chunks2 data))))
       else Err (ENotAligned 2 (len data)))
    /\ formatData data "int32" =
      (if len data mod 4 =? 0
       then Ok (String.concat ","
                  (List.map fmt.Sprintf_d (List.map Spec.signedBigEndian (Spec.chunks4 data))))
       else Err (ENotAligned 4 (len data)))
    /\ kindOf (ENotAligned 2 (len data)) = AlignmentError
    /\ kindOf (ENotAligned 4 (len data)) = AlignmentError
    /\ formatData [x01; x02; x03; x04] "int16" = Ok "258,772".
Proof.
  intros P data.
  split; [apply decodeInts_2|]. split; [apply decodeInts_4|].
  split; [|split; [|repeat split]].
  - change (formatData data "int16") with (vals <- decodeInts data 2 ;; Ok (joinInts vals)).
    rewrite decodeInts_2. destruct (len data mod 2 =? 0); reflexivity.
  - change (formatData data "int32") with (vals <- decodeInts data 4 ;; Ok (joinInts vals)).
    rewrite decodeInts_4. destruct (len data mod 4 =? 0); reflexivity.
Qed.

Import Spec.

(** ** Decimal text *)

Lemma Z_of_ascii_range c : 0 <= Z_of_ascii c < 256.
Proof. unfold Z_of_ascii. pose proof (N_ascii_bounded c). lia. Qed.

Lemma ascii_of_Z_of_ascii c : ascii_of_Z (Z_of_ascii c) = c.
Proof.
  unfold ascii_of_Z. rewrite Z.mod_small by apply Z_of_ascii_range.
  unfold Z_of_ascii. rewrite N2Z.id. apply ascii_N_embedding.
Qed.

Lemma Z_of_ascii_of_Z z : 0 <= z < 256 -> Z_of_ascii (ascii_of_Z z) = z.
Proof.
  intro Hz. unfold Z_of_ascii, ascii_of_Z. rewrite Z.mod_small by lia.
  rewrite N_ascii_embedding by lia. lia.
Qed.

Lemma digitAt_decimal d :
  0 <= d < 10 -> fmt.digitAt fmt.ldigits d = ascii_of_Z (48 + d).
Proof.
  intro Hd.
  assert (d = 0 \/ d = 1 \/ d = 2 \/ d = 3 \/ d = 4 \/ d = 5 \/ d = 6 \/ d = 7 \/ d = 8 \/ d = 9)
    as Hc by lia.
  repeat (destruct Hc as [->|Hc]; [reflexivity|]). subst d. reflexivity.
Qed.

Lemma decimal_char d :
  0 <= d < 10 ->
  Spec.isDigitIn 10 (ascii_of_Z (48 + d)) = true
  /\ Spec.digitValue (ascii_of_Z (48 + d)) = d
  /\ (Z_of_ascii (ascii_of_Z (48 + d)) =? 48) = (d =? 0).
Proof.
  intro Hd.
  assert (d = 0 \/ d = 1 \/ d = 2 \/ d = 3 \/ d = 4 \/ d = 5 \/ d = 6 \/ d = 7 \/ d = 8 \/ d = 9)
    as Hc by lia.
  repeat (destruct Hc as [->|Hc]; [repeat split|]). subst d. repeat split.
Qed.

Lemma valueIn_app base acc a b :
  Spec.valueIn base acc (a ++ b) = Spec.valueIn base (Spec.valueIn base acc a) b.
Proof. revert acc. induction a; intro acc; cbn [append Spec.valueIn]; auto. Qed.

(** The digits that [fmtInteger] writes for [u] in base 10: decimal digits
    of value [u], with no leading zero unless [u] is zero. *)
Lemma fmtDigits_decimal fuel : forall u buf,
  fuel <> O -> 0 <= u < 10 ^ Z.of_nat fuel ->
  exists ds,
    fmt.fmtDigits fuel 10 fmt.ldigits u buf = ds ++ buf
    /\ ds <> ""
    /\ Spec.allChars (Spec.isDigitIn 10) ds = true
    /\ Spec.valueIn 10 0 ds = u
    /\ headIs 48 ds = (u =? 0).
Proof.
  induction fuel as [|fuel IH]; intros u buf Hf Hu; [congruence|].
  cbn [fmt.fmtDigits].
  destruct (u >=? 10) eqn:E.
  - apply Z.geb_le in E.
    assert (0 <= u / 10 < 10 ^ Z.of_nat fuel) as Hq.
    { split; [apply Z.div_pos; lia|].
      apply Z.div_lt_upper_bound; [lia|].
      rewrite Nat2Z.inj_succ, Z.pow_succ_r in Hu by lia. lia. }
    assert (1 <= u / 10) as Hq1 by (apply Z.div_le_lower_bound; lia).
    assert (fuel <> O) as Hf' by (intros ->; cbn in Hq; lia).
    set (d := u - u / 10 * 10).
    assert (0 <= d < 10) as Hd by (subst d; pose proof (Z.mod_pos_bound u 10); pose proof (Z.div_mod u 10); lia).
    destruct (IH (u / 10) (String (fmt.digitAt fmt.ldigits d) buf) Hf' Hq)
      as (ds & Eq & Hne & Hall & Hval & Hhead).
    exists (ds ++ String (fmt.digitAt fmt.ldigits d) "").
    rewrite digitAt_decimal in * by exact Hd.
    destruct (decimal_char d Hd) as (Dd & Dv & _).
    split; [|split; [|split; [|split]]].
    + rewrite Eq. clear. induction ds; cbn [append]; congruence.
    + destruct ds; [congruence|discriminate].
    + rewrite allChars_app, Hall. cbn [Spec.allChars]. now rewrite Dd.
    + rewrite valueIn_app, Hval. cbn [Spec.valueIn]. rewrite Dv. subst d. lia.
    + destruct ds as [|c ds]; [congruence|]. cbn [append headIs] in *.
      rewrite Hhead. destruct (Z.eqb_spec (u / 10) 0), (Z.eqb_spec u 0); lia || reflexivity.
  - rewrite Z.geb_leb in E. apply Z.leb_gt in E.
    assert (0 <= u < 10) as Hd by lia.
    exists (String (fmt.digitAt fmt.ldigits u) "").
    rewrite digitAt_decimal by exact Hd.
    destruct (decimal_char u Hd) as (Dd & Dv & Dh).
    split; [reflexivity|]. split; [discriminate|].
    split; [cbn [Spec.allChars]; now rewrite Dd|].
    split; [cbn [Spec.valueIn]; rewrite Dv; lia|].
    cbn [headIs]. exact Dh.
Qed.

Lemma Sprintf_d_shape v :
  - 2 ^ 63 <= v < 2 ^ 63 ->
  exists ds,
    fmt.Sprintf_d v = (if v <? 0 then "-" else "") ++ ds
    /\ ds <> ""
    /\ Spec.allChars (Spec.isDigitIn 10) ds = true
    /\ Spec.valueIn 10 0 ds = Z.abs v
    /\ headIs 48 ds = (v =? 0).
Proof.
  intro Hv. unfold fmt.Sprintf_d, fmt.fmtInteger. cbn [andb].
  assert (2 ^ 63 < 2 ^ 64) as P1 by reflexivity.
  assert (2 ^ 64 < 10 ^ Z.of_nat 64) as P2 by reflexivity.
  destruct (v <? 0) eqn:E.
  - apply Z.ltb_lt in E.
    rewrite Z.mod_small by lia.
    destruct (fmtDigits_decimal 64 (- v) "" ltac:(discriminate) ltac:(lia))
      as (ds & Eq & Hne & Hall & Hval & Hhead).
    exists ds. rewrite Eq, append_nil_r. cbn [fmt.zeroPad Z.to_nat].
    rewrite Hval, Hhead.
    repeat split; auto.
    + lia.
    + destruct (Z.eqb_spec (- v) 0), (Z.eqb_spec v 0); lia || reflexivity.
  - apply Z.ltb_ge in E.
    destruct (fmtDigits_decimal 64 v "" ltac:(discriminate) ltac:(lia))
      as (ds & Eq & Hne & Hall & Hval & Hhead).
    exists ds. rewrite Eq, append_nil_r. cbn [fmt.zeroPad Z.to_nat].
    rewrite Hval, Hhead. repeat split; auto. lia.
Qed.

(** ** [strconv]: the digit loop computes the value or reports the range *)

Lemma digit_of_char c :
  let z := Z_of_ascii c in
  (if (48 <=? z) && (z <=? 57) then Some (z - 48)
   else if (97 <=? strconv.lower z) && (strconv.lower z <=? 122)
        then Some (strconv.lower z - 97 + 10)
        else None)
  = if Spec.isAlnum c then Some (Spec.digitValue c) else None.
Proof. destruct c as [[] [] [] [] [] [] [] []]; reflexivity. Qed.

Lemma alnum_facts c :
  Spec.isAlnum c = true -> (Z_of_ascii c =? 95) = false /\ 0 <= Spec.digitValue c.
Proof. destruct c as [[] [] [] [] [] [] [] []]; cbv; intro E; split; congruence. Qed.

Lemma valueIn_ge base s : forall acc,
  1 <= base -> 0 <= acc -> Spec.allChars Spec.isAlnum s = true ->
  acc <= Spec.valueIn base acc s.
Proof.
  induction s as [|c s IH]; intros acc Hb Ha Hs; cbn [Spec.valueIn]; [lia|].
  cbn [Spec.allChars] in Hs. apply andb_true_iff in Hs as [Hc Hs].
  destruct (alnum_facts c Hc) as [_ Hd].
  specialize (IH (acc * base + Spec.digitValue c) Hb ltac:(nia) Hs). nia.
Qed.

Lemma allChars_impl (p q : ascii -> bool) s :
  (forall c, p c = true -> q c = true) ->
  Spec.allChars p s = true -> Spec.allChars q s = true.
Proof.
  intros Hpq. induction s; cbn [Spec.allChars]; auto. rewrite !andb_true_iff. intuition.
Qed.

Lemma isDigitIn_alnum base s :
  Spec.allChars (Spec.isDigitIn base) s = true -> Spec.allChars Spec.isAlnum s = true.
Proof.
  apply allChars_impl. intros c Hc. unfold Spec.isDigitIn in Hc.
  now apply andb_true_iff in Hc as [Hc _].
Qed.

Lemma parseDigits_value s : forall base base0 maxVal us n,
  2 <= base <= 36 -> 0 <= maxVal <= strconv.maxUint64 -> 0 <= n <= maxVal ->
  Spec.allChars (Spec.isDigitIn base) s = true ->
  strconv.parseDigits s base base0 (strconv.maxUint64 / base + 1) maxVal us n =
  if Spec.valueIn base n s <=? maxVal
  then (Spec.valueIn base n s, us, None)
  else (maxVal, us, Some ErrRange).
Proof.
  induction s as [|c s IH]; intros base base0 maxVal us n Hb Hm Hn Hs.
  - cbn [strconv.parseDigits Spec.valueIn].
    replace (n <=? maxVal) with true by (symmetry; apply Z.leb_le; lia). reflexivity.
  - cbn [Spec.allChars] in Hs. apply andb_true_iff in Hs as [Hc Hs].
    pose proof (isDigitIn_alnum base s Hs) as Hal.
    unfold Spec.isDigitIn in Hc. apply andb_true_iff in Hc as [Hc Hlt].
    apply Z.ltb_lt in Hlt.
    destruct (alnum_facts c Hc) as [Hu Hd].
    cbn [strconv.parseDigits Spec.valueIn]. rewrite Hu. cbn [andb].
    rewrite (digit_of_char c), Hc.
    replace (Spec.digitValue c >=? base) with false
      by (symmetry; rewrite Z.geb_leb; apply Z.leb_gt; lia).
    unfold strconv.maxUint64 in *.
    assert (2 ^ 64 - 1 < (( 2 ^ 64 - 1) / base + 1) * base) as Hcut.
    { pose proof (Z.div_mod (2 ^ 64 - 1) base ltac:(lia)).
      pose proof (Z.mod_pos_bound (2 ^ 64 - 1) base ltac:(lia)). nia. }
    assert (((2 ^ 64 - 1) / base) * base <= 2 ^ 64 - 1) as Hcut'.
    { pose proof (Z.div_mod (2 ^ 64 - 1) base ltac:(lia)).
      pose proof (Z.mod_pos_bound (2 ^ 64 - 1) base ltac:(lia)). nia. }
    pose proof (valueIn_ge base s (n * base + Spec.digitValue c) ltac:(lia) ltac:(nia) Hal) as Hge.
    destruct (n >=? (2 ^ 64 - 1) / base + 1) eqn:E1.
    + rewrite Z.geb_leb in E1. apply Z.leb_le in E1.
      replace (Spec.valueIn base (n * base + Spec.digitValue c) s <=? maxVal) with false
        by (symmetry; apply Z.leb_gt; nia).
      reflexivity.
    + rewrite Z.geb_leb in E1. apply Z.leb_gt in E1.
      assert (0 <= n * base <= 2 ^ 64 - 1) as Hnb by nia.
      rewrite (Z.mod_small (n * base)) by lia.
      destruct (Z_lt_ge_dec (n * base + Spec.digitValue c) (2 ^ 64)) as [Hs1|Hs1].
      * rewrite (Z.mod_small (n * base + Spec.digitValue c)) by lia.
        replace (n * base + Spec.digitValue c <? n * base) with false
          by (symmetry; apply Z.ltb_ge; lia).
        cbn [orb].
        destruct (n * base + Spec.digitValue c >? maxVal) eqn:E2.
        -- rewrite Z.gtb_ltb in E2. apply Z.ltb_lt in E2.
           replace (Spec.valueIn base (n * base + Spec.digitValue c) s <=? maxVal) with false
             by (symmetry; apply Z.leb_gt; lia).
           reflexivity.
        -- rewrite Z.gtb_ltb in E2. apply Z.ltb_ge in E2.
           apply IH; auto. lia.
      * assert ((n * base + Spec.digitValue c) mod 2 ^ 64
                = n * base + Spec.digitValue c - 2 ^ 64) as ->.
        { symmetry. apply Z.mod_unique with (q := 1); lia. }
        replace (n * base + Spec.digitValue c - 2 ^ 64 <? n * base) with true
          by (symmetry; apply Z.ltb_lt; lia).
        cbn [orb].
        replace (Spec.valueIn base (n * base + Spec.digitValue c) s <=? maxVal) with false
          by (symmetry; apply Z.leb_gt; lia).
        reflexivity.
Qed.

Lemma alnum_not_sign c :
  Spec.isAlnum c = true -> (Z_of_ascii c =? 43) = false /\ (Z_of_ascii c =? 45) = false.
Proof. destruct c as [[] [] [] [] [] [] [] []]; cbv; intro E; split; congruence. Qed.

Lemma octal_not_prefix c :
  Spec.isDigitIn 8 c = true ->
  let l := strconv.lower (Z_of_ascii c) in
  (l =? 98) = false /\ (l =? 111) = false /\ (l =? 120) = false.
Proof. destruct c as [[] [] [] [] [] [] [] []]; cbv; intro E; repeat split; congruence. Qed.

Lemma pow2_bounds bits : 1 <= bits <= 64 -> 0 <= 2 ^ bits - 1 <= strconv.maxUint64.
Proof.
  intro Hb. unfold strconv.maxUint64.
  pose proof (Z.pow_le_mono_r 2 bits 64 ltac:(lia) ltac:(lia)).
  pose proof (Z.pow_pos_nonneg 2 bits ltac:(lia) ltac:(lia)). lia.
Qed.

Lemma bitSize_ok bits :
  1 <= bits <= 64 ->
  (bits =? 0) = false /\ ((bits <? 0) || (bits >? 64)) = false.
Proof.
  intro Hb. split; [apply Z.eqb_neq; lia|].
  apply orb_false_iff. split; [apply Z.ltb_ge; lia|].
  rewrite Z.gtb_ltb. apply Z.ltb_ge. lia.
Qed.

Lemma ParseUint_decimal s bits :
  1 <= bits <= 64 ->
  Spec.allChars (Spec.isDigitIn 10) s = true -> s <> "" -> headIs 48 s = false ->
  strconv.ParseUint s 0 bits = uintResult s bits (Spec.valueIn 10 0 s).
Proof.
  intros Hb Hs Hne Hh. destruct s as [|c0 r0]; [congruence|].
  cbn [headIs] in Hh. unfold strconv.ParseUint.
  destruct (bitSize_ok bits Hb) as [B0 B1].
  cbn [Z.eqb Z.leb Z.compare andb]. rewrite Hh, B0, B1.
  rewrite parseDigits_value
    by first [assumption | apply pow2_bounds; assumption
             | pose proof (pow2_bounds bits Hb); lia].
  unfold uintResult. destruct (Spec.valueIn 10 0 (String c0 r0) <=? 2 ^ bits - 1); reflexivity.
Qed.

Lemma ParseUint_hex x ds bits :
  1 <= bits <= 64 ->
  x = "x"%char \/ x = "X"%char ->
  Spec.allChars (Spec.isDigitIn 16) ds = true -> ds <> "" ->
  strconv.ParseUint (String "0" (String x ds)) 0 bits
  = uintResult (String "0" (String x ds)) bits (Spec.valueIn 16 0 ds).
Proof.
  intros Hb Hx Hs Hne. unfold strconv.ParseUint.
  destruct (bitSize_ok bits Hb) as [B0 B1].
  assert ((3 <=? slen (String "0" (String x ds))) = true) as L.
  { apply Z.leb_le. unfold slen. destruct ds; [congruence|]. cbn [String.length]. lia. }
  rewrite L.
  assert (strconv.lower (Z_of_ascii x) = 120) as -> by (destruct Hx; subst; reflexivity).
  cbn [Z.eqb Z.leb Z.compare andb Pos.eqb Z_of_ascii N_of_ascii]. 
  change (Z_of_ascii "0" =? 48) with true. cbn iota. rewrite B0, B1.
  rewrite parseDigits_value
    by first [assumption | apply pow2_bounds; assumption
             | pose proof (pow2_bounds bits Hb); lia].
  unfold uintResult. destruct (Spec.valueIn 16 0 ds <=? 2 ^ bits - 1); reflexivity.
Qed.

Lemma ParseUint_octal ds bits :
  1 <= bits <= 64 ->
  Spec.allChars (Spec.isDigitIn 8) ds = true ->
  strconv.ParseUint (String "0" ds) 0 bits
  = uintResult (String "0" ds) bits (Spec.valueIn 8 0 ds).
Proof.
  intros Hb Hs. unfold strconv.ParseUint.
  destruct (bitSize_ok bits Hb) as [B0 B1].
  cbn [Z.eqb Z.leb Z.compare andb].
  change (Z_of_ascii "0" =? 48) with true. cbn iota.
  destruct ds as [|c1 r1].
  - rewrite B0, B1.
    rewrite parseDigits_value
      by first [assumption | apply pow2_bounds; assumption
               | pose proof (pow2_bounds bits Hb); lia].
    unfold uintResult. destruct (Spec.valueIn 8 0 "" <=? 2 ^ bits - 1); reflexivity.
  - pose proof Hs as Hs'. cbn [Spec.allChars] in Hs'. apply andb_true_iff in Hs' as [Hc _].
    destruct (octal_not_prefix c1 Hc) as (E1 & E2 & E3).
    cbv zeta. rewrite E1, E2, E3, !andb_false_r. rewrite B0, B1.
    rewrite parseDigits_value
      by first [assumption | apply pow2_bounds; assumption
               | pose proof (pow2_bounds bits Hb); lia].
    unfold uintResult.
    destruct (Spec.valueIn 8 0 (String c1 r1) <=? 2 ^ bits - 1); reflexivity.
Qed.

Lemma ParseInt_of_uint s0 c0 r0 (neg : bool) body bits v :
  s0 = String c0 r0 ->
  (if Z_of_ascii c0 =? 43 then (false, r0)
   else if Z_of_ascii c0 =? 45 then (true, r0) else (false, s0)) = (neg, body) ->
  2 <= bits <= 64 -> 0 <= v ->
  strconv.ParseUint body 0 bits = uintResult body bits v ->
  strconv.ParseInt s0 0 bits = intResult s0 bits (if neg then - v else v).
Proof.
  intros -> Hsplit Hb Hv Hu. unfold strconv.ParseInt. rewrite Hsplit, Hu.
  replace (bits =? 0) with false by (symmetry; apply Z.eqb_neq; lia).
  unfold uintResult, intResult, inRange, strconv.rangeError.
  assert (0 < 2 ^ (bits - 1)) as P1 by (apply Z.pow_pos_nonneg; lia).
  assert (2 ^ bits = 2 * 2 ^ (bits - 1)) as P2
      by (rewrite <- Z.pow_succ_r by lia; f_equal; lia).
  assert (2 <= 2 ^ (bits - 1)) as P3.
  { change 2 with (2 ^ 1) at 1. apply Z.pow_le_mono_r; lia. }
  destruct (v <=? 2 ^ bits - 1) eqn:E; [apply Z.leb_le in E|apply Z.leb_gt in E];
    cbn [NumErr]; destruct neg; cbn [negb andb];
    rewrite ?Z.geb_leb, ?Z.gtb_ltb;
    repeat match goal with
           | |- context [?a <=? ?b] => destruct (Z.leb_spec a b)
           | |- context [?a <? ?b] => destruct (Z.ltb_spec a b)
           end; cbn [andb]; try reflexivity; try lia.
Qed.

Lemma ParseInt_decimal v bits :
  - 2 ^ 63 <= v < 2 ^ 63 -> 2 <= bits <= 64 ->
  strconv.ParseInt (fmt.Sprintf_d v) 0 bits = intResult (fmt.Sprintf_d v) bits v.
Proof.
  intros Hv Hb.
  destruct (Z.eq_dec v 0) as [->|Hnz].
  { change (fmt.Sprintf_d 0) with "0".
    apply (ParseInt_of_uint "0" "0" "" false "0" bits 0); auto; try lia.
    apply (ParseUint_octal "" bits); [lia|reflexivity]. }
  destruct (Sprintf_d_shape v Hv) as (ds & Eq & Hne & Hall & Hval & Hhead).
  replace (v =? 0) with false in Hhead by (symmetry; apply Z.eqb_neq; lia).
  pose proof (ParseUint_decimal ds bits ltac:(lia) Hall Hne Hhead) as Hu.
  rewrite Hval in Hu. rewrite Eq.
  destruct (v <? 0) eqn:E; [apply Z.ltb_lt in E|apply Z.ltb_ge in E].
  - cbn [append].
    pose proof (ParseInt_of_uint (String "-" ds) "-" ds true ds bits (Z.abs v)
                  eq_refl eq_refl Hb ltac:(lia) Hu) as P.
    cbv iota in P. replace (- Z.abs v) with v in P by lia. exact P.
  - cbn [append]. destruct ds as [|c r]; [congruence|].
    cbn [Spec.allChars] in Hall. apply andb_true_iff in Hall as [Hc _].
    unfold Spec.isDigitIn in Hc. apply andb_true_iff in Hc as [Hc _].
    destruct (alnum_not_sign c Hc) as [S1 S2].
    assert ((if Z_of_ascii c =? 43 then (false, r)
             else if Z_of_ascii c =? 45 then (true, r) else (false, String c r))
            = (false, String c r)) as Hsplit by now rewrite S1, S2.
    pose proof (ParseInt_of_uint (String c r) c r false (String c r) bits (Z.abs v)
                  eq_refl Hsplit Hb ltac:(lia) Hu) as P.
    cbv iota in P. replace (Z.abs v) with v in P by lia. exact P.
Qed.

(** ** Splitting a value list that is one token *)

Lemma spaceWidth_token s :
  Spec.allChars Spec.tokenChar s = true -> strings.spaceWidth s = 0%nat.
Proof.
  destruct s as [|c r]; [reflexivity|]. cbn [Spec.allChars].
  rewrite andb_true_iff. intros [Hc _]. unfold Spec.tokenChar in Hc.
  apply andb_true_iff in Hc as [Hc _]. apply andb_true_iff in Hc as [Hlt Hsp].
  apply Z.ltb_lt in Hlt. apply negb_true_iff in Hsp.
  unfold strings.spaceWidth. rewrite Hsp.
  replace (Z_of_ascii c =? 194) with false by (symmetry; apply Z.eqb_neq; lia).
  replace (Z_of_ascii c =? 225) with false by (symmetry; apply Z.eqb_neq; lia).
  replace (Z_of_ascii c =? 226) with false by (symmetry; apply Z.eqb_neq; lia).
  replace (Z_of_ascii c =? 227) with false by (symmetry; apply Z.eqb_neq; lia).
  reflexivity.
Qed.

Lemma allChars_substring p s : forall n m,
  Spec.allChars p s = true -> Spec.allChars p (substring n m s) = true.
Proof.
  induction s as [|c s IH]; intros n m Hs.
  - destruct n, m; reflexivity.
  - cbn [Spec.allChars] in Hs. apply andb_true_iff in Hs as [Hc Hs].
    destruct n as [|n]; destruct m as [|m]; cbn [substring Spec.allChars]; auto.
    rewrite Hc. cbn [andb]. auto.
Qed.

Lemma trimLeft_token fuel s :
  Spec.allChars Spec.tokenChar s = true -> strings.trimLeft fuel s = s.
Proof.
  intro Hs. destruct fuel; [reflexivity|]. cbn [strings.trimLeft].
  now rewrite spaceWidth_token.
Qed.

Lemma trimRight_token fuel s :
  Spec.allChars Spec.tokenChar s = true -> strings.trimRight fuel s = s.
Proof.
  intro Hs. destruct fuel; [reflexivity|]. cbn [strings.trimRight].
  unfold strings.spaceWidthLast.
  rewrite !spaceWidth_token by (apply allChars_substring; exact Hs).
  cbn [Nat.eqb]. rewrite !andb_false_r. reflexivity.
Qed.

Lemma TrimSpace_token s :
  Spec.allChars Spec.tokenChar s = true -> strings.TrimSpace s = s.
Proof.
  intro Hs. unfold strings.TrimSpace.
  rewrite trimLeft_token by exact Hs. now apply trimRight_token.
Qed.

Lemma splitByte_token s : forall cur,
  Spec.allChars Spec.tokenChar s = true ->
  strings.splitByte "," cur s = [cur ++ s].
Proof.
  induction s as [|c s IH]; intros cur Hs; cbn [strings.splitByte].
  - now rewrite append_nil_r.
  - cbn [Spec.allChars] in Hs. apply andb_true_iff in Hs as [Hc Hs].
    unfold Spec.tokenChar in Hc. apply andb_true_iff in Hc as [_ Hc].
    apply negb_true_iff in Hc. apply Z.eqb_neq in Hc.
    destruct (Ascii.eqb_spec c ","); [subst c; now contradiction Hc|].
    rewrite IH by exact Hs. now rewrite append_assoc.
Qed.

Lemma splitValues_token s :
  s <> "" -> Spec.allChars Spec.tokenChar s = true -> splitValues s = [s].
Proof.
  intros Hne Hs. unfold splitValues. rewrite splitByte_token by exact Hs.
  cbn [append splitValues_loop]. rewrite TrimSpace_token by exact Hs.
  destruct (String.eqb_spec s ""); [contradiction|reflexivity].
Qed.

Lemma Sprintf_d_token v :
  - 2 ^ 63 <= v < 2 ^ 63 ->
  fmt.Sprintf_d v <> "" /\ Spec.allChars Spec.tokenChar (fmt.Sprintf_d v) = true.
Proof.
  intro Hv. destruct (Sprintf_d_shape v Hv) as (ds & Eq & Hne & Hall & _).
  assert (Spec.allChars Spec.tokenChar ds = true) as Ht.
  { revert Hall. apply allChars_impl. intros c Hc. unfold Spec.isDigitIn in Hc.
    apply andb_true_iff in Hc as [Hc _]. revert Hc.
    destruct c as [[] [] [] [] [] [] [] []]; cbv; congruence. }
  rewrite Eq. destruct (v <? 0); cbn [append].
  - split; [discriminate|]. cbn [Spec.allChars]. now rewrite Ht.
  - split; assumption.
Qed.

(** ** Integers to bytes and back *)

Lemma Uint16_PutUint16 u :
  0 <= u < 2 ^ 16 -> binary.Uint16 (binary.PutUint16 u) = Some u.
Proof.
  intro Hu. unfold binary.PutUint16. rewrite Uint16_value, !Z_of_byte_of_Z.
  rewrite Z.shiftr_div_pow2 by lia. f_equal.
  change (2 ^ 16) with 65536 in Hu. change (2 ^ 8) with 256.
  assert (0 <= u / 256 < 256) as Hq
      by (split; [apply Z.div_pos; lia|apply Z.div_lt_upper_bound; lia]).
  rewrite (Z.mod_small (u / 256)) by exact Hq.
  rewrite Z.mul_comm. symmetry. apply Z.div_mod. lia.
Qed.
Lemma Uint32_PutUint32 u :
  0 <= u < 2 ^ 32 -> binary.Uint32 (binary.PutUint32 u) = Some u.
Proof.
  intro Hu. unfold binary.PutUint32. rewrite Uint32_value, !Z_of_byte_of_Z.
  rewrite !Z.shiftr_div_pow2 by lia. f_equal.
  change (2 ^ 32) with 4294967296 in Hu.
  change (2 ^ 8) with 256. change (2 ^ 16) with (256 * 256).
  change (2 ^ 24) with (256 * 256 * 256).
  rewrite <- !Z.div_div by lia.
  set (q1 := u / 256). set (q2 := q1 / 256). set (q3 := q2 / 256).
  pose proof (Z.div_mod u 256 ltac:(lia)) as E1. fold q1 in E1.
  pose proof (Z.div_mod q1 256 ltac:(lia)) as E2. fold q2 in E2.
  pose proof (Z.div_mod q2 256 ltac:(lia)) as E3. fold q3 in E3.
  assert (0 <= q1 < 16777216) as B1
      by (subst q1; split; [apply Z.div_pos; lia|apply Z.div_lt_upper_bound; lia]).
  assert (0 <= q2 < 65536) as B2
      by (subst q2; split; [apply Z.div_pos; lia|apply Z.div_lt_upper_bound; lia]).
  assert (0 <= q3 < 256) as B3
      by (subst q3; split; [apply Z.div_pos; lia|apply Z.div_lt_upper_bound; lia]).
  rewrite (Z.mod_small q3) by exact B3.
  generalize dependent (u mod 256). generalize dependent (q1 mod 256).
  generalize dependent (q2 mod 256). intros. lia.
Qed.

Lemma pow2_half bits : 1 <= bits -> 0 < 2 ^ (bits - 1) /\ 2 ^ bits = 2 * 2 ^ (bits - 1).
Proof.
  intro Hb. split; [apply Z.pow_pos_nonneg; lia|].
  rewrite <- Z.pow_succ_r by lia. f_equal. lia.
Qed.

Lemma to_int_to_uint bits v :
  1 <= bits -> inRange bits v = true -> to_int bits (to_uint bits v) = v.
Proof.
  intros Hb Hr. unfold inRange in Hr. apply andb_true_iff in Hr as [H1 H2].
  apply Z.leb_le in H1. apply Z.ltb_lt in H2.
  unfold to_int, to_uint.
  destruct (pow2_half bits Hb) as [P1 P2].
  generalize dependent (2 ^ (bits - 1)). intros h H1 H2 P1 P2.
  rewrite P2. clear P2.
  rewrite Z.mod_mod by lia.
  destruct (Z_lt_ge_dec v 0) as [Hn|Hn].
  - assert (v mod (2 * h) = v + 2 * h) as ->
        by (symmetry; apply Z.mod_unique with (q := -1); lia).
    destruct (Z.ltb_spec (v + 2 * h) h); lia.
  - rewrite Z.mod_small by lia.
    destruct (Z.ltb_spec v h); lia.
Qed.

Lemma to_uint_range bits v : 0 <= bits -> 0 <= to_uint bits v < 2 ^ bits.
Proof. intro Hb. unfold to_uint. apply Z.mod_pos_bound. apply Z.pow_pos_nonneg; lia. Qed.

Lemma Some_inj {A} (a b : A) : Some a = Some b -> a = b.
Proof. intro E. now injection E. Qed.

Lemma signed_PutUint16_raw u :
  0 <= u < 2 ^ 16 -> Spec.signedBigEndian (binary.PutUint16 u) = to_int 16 u.
Proof.
  intro R. pose proof (Uint16_PutUint16 u) as E. specialize (E R).
  unfold binary.PutUint16 in *. rewrite Uint16_value in E.
  rewrite <- to_int_16_signed. apply Some_inj in E. now rewrite E.
Qed.

Lemma signed_PutUint32_raw u :
  0 <= u < 2 ^ 32 -> Spec.signedBigEndian (binary.PutUint32 u) = to_int 32 u.
Proof.
  intro R. pose proof (Uint32_PutUint32 u) as E. specialize (E R).
  unfold binary.PutUint32 in *. rewrite Uint32_value in E.
  rewrite <- to_int_32_signed. apply Some_inj in E. now rewrite E.
Qed.

Lemma signed_PutUint16 v :
  inRange 16 v = true ->
  Spec.signedBigEndian (binary.PutUint16 (to_uint 16 v)) = v.
Proof.
  intro Hr. rewrite signed_PutUint16_raw by (apply to_uint_range; lia).
  apply to_int_to_uint; [lia|exact Hr].
Qed.

Lemma signed_PutUint32 v :
  inRange 32 v = true ->
  Spec.signedBigEndian (binary.PutUint32 (to_uint 32 v)) = v.
Proof.
  intro Hr. rewrite signed_PutUint32_raw by (apply to_uint_range; lia).
  apply to_int_to_uint; [lia|exact Hr].
Qed.

Lemma chunks2_PutUint16 u rest :
  Spec.chunks2 (binary.PutUint16 u ++ rest)%list = binary.PutUint16 u :: Spec.chunks2 rest.
Proof. unfold binary.PutUint16. cbn [app Spec.chunks2]. reflexivity. Qed.

Lemma chunks4_PutUint32 u rest :
  Spec.chunks4 (binary.PutUint32 u ++ rest)%list = binary.PutUint32 u :: Spec.chunks4 rest.
Proof. unfold binary.PutUint32. cbn [app Spec.chunks4]. reflexivity. Qed.

(** ** What [strconv] accepts *)

Lemma parseDigits_ok s : forall base base0 cutoff maxVal us n v us',
  0 <= n ->
  strconv.parseDigits s base base0 cutoff maxVal us n = (v, us', None) ->
  0 <= v /\ allChars (fun c => isAlnum c || (Z_of_ascii c =? 95)) s = true.
Proof.
  induction s as [|c s IH]; intros base base0 cutoff maxVal us n v us' Hn Hp.
  - cbn [strconv.parseDigits] in Hp. injection Hp as <- _. split; [lia|reflexivity].
  - cbn [strconv.parseDigits allChars] in *.
    destruct ((Z_of_ascii c =? 95) && base0) eqn:E0.
    + apply andb_true_iff in E0 as [E0 _]. rewrite E0, orb_true_r. cbn [andb].
      eapply IH; eauto.
    + rewrite (digit_of_char c) in Hp.
      destruct (isAlnum c) eqn:Ea; [|discriminate Hp]. cbn [orb andb].
      destruct (digitValue c >=? base); [discriminate Hp|].
      destruct (n >=? cutoff); [discriminate Hp|].
      destruct (_ || _) in Hp; [discriminate Hp|].
      eapply IH; [|exact Hp]. apply Z.mod_pos_bound. reflexivity.
Qed.

Lemma prefix_letter_alnum c :
  let l := strconv.lower (Z_of_ascii c) in
  (l =? 98) || (l =? 111) || (l =? 120) = true -> isAlnum c = true.
Proof. destruct c as [[] [] [] [] [] [] [] []]; cbv; congruence. Qed.

Lemma zero_alnum c : (Z_of_ascii c =? 48) = true -> isAlnum c = true.
Proof. destruct c as [[] [] [] [] [] [] [] []]; cbv; congruence. Qed.

Lemma ParseUint_ok s0 bits un :
  strconv.ParseUint s0 0 bits = (un, None) ->
  0 <= un /\ s0 <> "" /\ allChars (fun c => isAlnum c || (Z_of_ascii c =? 95)) s0 = true.
Proof.
  unfold strconv.ParseUint. destruct s0 as [|c0 r0]; [discriminate|].
  cbn [Z.eqb Z.leb Z.compare andb].
  set (ok := fun c => isAlnum c || (Z_of_ascii c =? 95)).
  assert (forall s base v, 
    (if ((if bits =? 0 then 64 else bits) <? 0) || ((if bits =? 0 then 64 else bits) >? 64)
     then (0, Some (mkNumError "ParseUint" (String c0 r0) ErrBitSize))
     else
       match strconv.parseDigits s base true (strconv.maxUint64 / base + 1)
               (2 ^ (if bits =? 0 then 64 else bits) - 1) false 0 with
       | (v, _, Some k) => (v, Some (mkNumError "ParseUint" (String c0 r0) k))
       | (n, underscores, None) =>
         if underscores && negb (strconv.underscoreOK (String c0 r0))
         then (0, Some (strconv.syntaxError "ParseUint" (String c0 r0)))
         else (n, None)
       end) = (v, None) -> 0 <= v /\ allChars ok s = true) as Hcore.
  { intros s base v. destruct (_ || _); [discriminate|].
    destruct (strconv.parseDigits _ _ _ _ _ _ _) as [[n us] [k|]] eqn:Ep; [discriminate|].
    destruct (us && _); [discriminate|]. intro E. injection E as <-.
    eapply parseDigits_ok; [|exact Ep]. lia. }
  destruct (Z_of_ascii c0 =? 48) eqn:E48.
  - pose proof (zero_alnum c0 E48) as A0.
    destruct r0 as [|c1 r1].
    + intro Hp. apply Hcore in Hp as [Hv _]. split; [exact Hv|]. split; [discriminate|].
      cbn [allChars]. subst ok. cbv beta. now rewrite A0.
    + cbv zeta.
      destruct ((3 <=? slen (String c0 (String c1 r1))) && (strconv.lower (Z_of_ascii c1) =? 98)) eqn:Eb;
        [|destruct ((3 <=? slen (String c0 (String c1 r1))) && (strconv.lower (Z_of_ascii c1) =? 111)) eqn:Eo;
          [|destruct ((3 <=? slen (String c0 (String c1 r1))) && (strconv.lower (Z_of_ascii c1) =? 120)) eqn:Ex]];
        intro Hp; apply Hcore in Hp as [Hv Hs];
        (split; [exact Hv|]); (split; [discriminate|]);
        cbn [allChars] in *; subst ok; cbv beta in *; rewrite A0; cbn [orb andb];
        try exact Hs.
      * apply andb_true_iff in Eb as [_ Eb].
        rewrite (prefix_letter_alnum c1) by (cbv zeta; now rewrite Eb). exact Hs.
      * apply andb_true_iff in Eo as [_ Eo].
        rewrite (prefix_letter_alnum c1) by (cbv zeta; rewrite Eo; apply orb_true_iff; left; apply orb_true_r). exact Hs.
      * apply andb_true_iff in Ex as [_ Ex].
        rewrite (prefix_letter_alnum c1) by (cbv zeta; rewrite Ex; apply orb_true_r). exact Hs.
  - intro Hp. apply Hcore in Hp as [Hv Hs]. split; [exact Hv|]. split; [discriminate|exact Hs].
Qed.

Lemma parseDigits_range_value s : forall base base0 cutoff maxVal us n v us',
  strconv.parseDigits s base base0 cutoff maxVal us n = (v, us', Some ErrRange) ->
  v = maxVal.
Proof.
  induction s as [|c s IH]; intros base base0 cutoff maxVal us n v us' Hp;
    cbn [strconv.parseDigits] in Hp; [discriminate|].
  destruct ((Z_of_ascii c =? 95) && base0); [eapply IH; eauto|].
  destruct (if (48 <=? Z_of_ascii c) && (Z_of_ascii c <=? 57) then _ else _) as [d|];
    [|discriminate].
  destruct (d >=? base); [discriminate|].
  destruct (n >=? cutoff); [now injection Hp|].
  destruct (_ || _); [now injection Hp|]. eapply IH; eauto.
Qed.

Lemma ParseUint_range_value s0 bits un e :
  1 <= bits <= 64 ->
  strconv.ParseUint s0 0 bits = (un, Some e) -> NumErr e = ErrRange ->
  un = 2 ^ bits - 1.
Proof.
  intros Hb. unfold strconv.ParseUint. destruct s0 as [|c0 r0]; [intros E; injection E as _ <-; discriminate|].
  cbn [Z.eqb Z.leb Z.compare andb].
  destruct (bitSize_ok bits Hb) as [B0 B1]. rewrite B0, B1.
  assert (forall s base,
    match strconv.parseDigits s base true (strconv.maxUint64 / base + 1) (2 ^ bits - 1) false 0 with
    | (v, _, Some k) => (v, Some (mkNumError "ParseUint" (String c0 r0) k))
    | (n, underscores, None) =>
      if underscores && negb (strconv.underscoreOK (String c0 r0))
      then (0, Some (strconv.syntaxError "ParseUint" (String c0 r0)))
      else (n, None)
    end = (un, Some e) -> NumErr e = ErrRange -> un = 2 ^ bits - 1) as Hcore.
  { intros s base.
    destruct (strconv.parseDigits _ _ _ _ _ _ _) as [[n us] [k|]] eqn:Ep.
    - intros E Hk. injection E as <- <-. cbn [NumErr] in Hk. subst k.
      eapply parseDigits_range_value; eauto.
    - destruct (us && _); intros E Hk; [injection E as _ <-; discriminate|discriminate]. }
  destruct (Z_of_ascii c0 =? 48); [|apply Hcore].
  destruct r0 as [|c1 r1]; [apply Hcore|]. cbv zeta.
  destruct (_ && _); [apply Hcore|]. destruct (_ && _); [apply Hcore|].
  destruct (_ && _); apply Hcore.
Qed.

Lemma ParseInt_ok s0 bits v :
  2 <= bits <= 64 ->
  strconv.ParseInt s0 0 bits = (v, None) ->
  inRange bits v = true /\ numericToken s0 = true.
Proof.
  intros Hb. unfold strconv.ParseInt, numericToken.
  destruct s0 as [|c0 r0]; [discriminate|].
  replace (bits =? 0) with false by (symmetry; apply Z.eqb_neq; lia).
  destruct (pow2_half bits ltac:(lia)) as [P1 P2].
  assert (forall (neg : bool) body,
    (let '(un, err) := strconv.ParseUint body 0 bits in
     match match err with
           | Some e => match NumErr e with ErrRange => None | k => Some k end
           | None => None
           end with
     | Some k => (0, Some (mkNumError "ParseInt" (String c0 r0) k))
     | None =>
       if negb neg && (un >=? 2 ^ (bits - 1))
       then (2 ^ (bits - 1) - 1, Some (strconv.rangeError "ParseInt" (String c0 r0)))
       else if neg && (un >? 2 ^ (bits - 1))
            then (- 2 ^ (bits - 1), Some (strconv.rangeError "ParseInt" (String c0 r0)))
            else (if neg then - un else un, None)
     end) = (v, None) ->
    inRange bits v = true
    /\ negb (body =? "")%string
       && allChars (fun c => isAlnum c || (Z_of_ascii c =? 95)) body = true) as Hcore.
  { intros neg body.
    destruct (strconv.ParseUint body 0 bits) as [un [e|]] eqn:Eu.
    - destruct (NumErr e) eqn:Ek; try discriminate.
      pose proof (ParseUint_range_value body bits un e ltac:(lia) Eu Ek) as ->.
      destruct neg; cbn [negb andb].
      + rewrite Z.gtb_ltb. destruct (Z.ltb_spec (2 ^ (bits - 1)) (2 ^ bits - 1)); [discriminate|].
        assert (2 <= 2 ^ (bits - 1)); [|lia].
        change 2 with (2 ^ 1) at 1. apply Z.pow_le_mono_r; lia.
      + rewrite Z.geb_leb. destruct (Z.leb_spec (2 ^ (bits - 1)) (2 ^ bits - 1)); [discriminate|lia].
    - apply ParseUint_ok in Eu as (Hun & Hne & Hall).
      rewrite Hall, andb_true_r.
      assert (negb (body =? "")%string = true) as ->
          by (destruct (String.eqb_spec body ""); [contradiction|reflexivity]).
      unfold inRange.
      destruct neg; cbn [negb andb]; rewrite ?Z.gtb_ltb, ?Z.geb_leb.
      + destruct (Z.ltb_spec (2 ^ (bits - 1)) un); [discriminate|].
        intro E. injection E as <-. split; [|reflexivity].
        apply andb_true_iff. split; [apply Z.leb_le|apply Z.ltb_lt]; lia.
      + destruct (Z.leb_spec (2 ^ (bits - 1)) un); [discriminate|].
        intro E. injection E as <-. split; [|reflexivity].
        apply andb_true_iff. split; [apply Z.leb_le|apply Z.ltb_lt]; lia. }
  destruct (Z_of_ascii c0 =? 43) eqn:E43; [cbn [orb]; apply Hcore|].
  destruct (Z_of_ascii c0 =? 45) eqn:E45; [cbn [orb]; apply Hcore|].
  cbn [orb]. apply Hcore.
Qed.

Lemma ParseInt_err s0 base bits v e :
  strconv.ParseInt s0 base bits = (v, Some e) -> Func e = "ParseInt" /\ Num e = s0.
Proof.
  unfold strconv.ParseInt. destruct s0 as [|c0 r0]; [intro E; injection E as _ <-; split; reflexivity|].
  destruct (if Z_of_ascii c0 =? 43 then _ else _) as [neg s].
  destruct (strconv.ParseUint s base bits) as [un err].
  destruct (match err with Some e0 => _ | None => None end).
  - intro E; injection E as _ <-; split; reflexivity.
  - destruct (_ && _); [intro E; injection E as _ <-; split; reflexivity|].
    destruct (_ && _); [intro E; injection E as _ <-; split; reflexivity|discriminate].
Qed.

(** ** Encoding integers *)

Lemma parseInt_total s size :
  (exists v, parseInt s size = Ok v)
  \/ (exists cause, parseInt s size = Err (EInvalidInteger s cause)
                    /\ Func cause = "ParseInt" /\ Num cause = s).
Proof.
  unfold parseInt. destruct (strconv.ParseInt s 0 (size * 8)) as [v [e|]] eqn:E.
  - right. exists e. split; [reflexivity|]. eapply ParseInt_err; eauto.
  - left. eauto.
Qed.

Lemma parseInt_ok s size v :
  size = 2 \/ size = 4 -> parseInt s size = Ok v ->
  inRange (size * 8) v = true /\ numericToken s = true.
Proof.
  intros Hs. unfold parseInt.
  destruct (strconv.ParseInt s 0 (size * 8)) as [v' [e|]] eqn:E; [discriminate|].
  intro Ev. injection Ev as <-. eapply ParseInt_ok; [|exact E]. lia.
Qed.

Lemma parseInt_decimal v size :
  size = 2 \/ size = 4 -> - 2 ^ 63 <= v < 2 ^ 63 ->
  parseInt (fmt.Sprintf_d v) size =
  if inRange (size * 8) v then Ok v
  else Err (EInvalidInteger (fmt.Sprintf_d v)
                            (mkNumError "ParseInt" (fmt.Sprintf_d v) ErrRange)).
Proof.
  intros Hs Hv. unfold parseInt. rewrite ParseInt_decimal by lia.
  unfold intResult. destruct (inRange (size * 8) v); reflexivity.
Qed.

Lemma encodeInts_loop_ok parts : forall size out bytes,
  encodeInts_loop parts size out = Ok bytes ->
  exists vals,
    Forall2 (fun tok v => parseInt tok size = Ok v) parts vals
    /\ bytes = fold_left
                 (fun out v =>
                    if size =? 2 then (out ++ binary.PutUint16 (to_uint 16 v))%list
                    else if size =? 4 then (out ++ binary.PutUint32 (to_uint 32 v))%list
                         else out) vals out.
Proof.
  induction parts as [|p parts IH]; intros size out bytes He; cbn [encodeInts_loop] in He.
  - injection He as <-. exists []. split; [constructor|reflexivity].
  - destruct (parseInt p size) as [v| | |] eqn:Ep; cbn [bind] in He; try discriminate.
    apply IH in He as (vals & HF & ->).
    exists (v :: vals). split; [constructor; assumption|reflexivity].
Qed.

Lemma encodeInts_loop_err parts : forall size out e,
  encodeInts_loop parts size out = Err e ->
  exists tok, In tok parts /\ parseInt tok size = Err e.
Proof.
  induction parts as [|p parts IH]; intros size out e He; cbn [encodeInts_loop] in He;
    [discriminate|].
  destruct (parseInt p size) as [v| | |] eqn:Ep; cbn [bind] in He; try discriminate.
  - apply IH in He as (tok & Hin & Ht). exists tok. split; [now right|exact Ht].
  - injection He as <-. exists p. split; [now left|exact Ep].
Qed.

Lemma encodeInts_loop_total parts : forall size out,
  (exists bytes, encodeInts_loop parts size out = Ok bytes)
  \/ (exists e, encodeInts_loop parts size out = Err e).
Proof.
  induction parts as [|p parts IH]; intros size out; cbn [encodeInts_loop].
  - left. eauto.
  - destruct (parseInt_total p size) as [[v Ev]|[c [Ec _]]]; rewrite ?Ev, ?Ec; cbn [bind].
    + apply IH.
    + right. eauto.
Qed.

Lemma fold_put16 vals : forall out,
  fold_left (fun out v => (out ++ binary.PutUint16 (to_uint 16 v))%list) vals out
  = (out ++ flat_map (fun v => binary.PutUint16 (to_uint 16 v)) vals)%list.
Proof.
  induction vals as [|v vals IH]; intro out; cbn [fold_left flat_map].
  - now rewrite app_nil_r.
  - rewrite IH. now rewrite <- app_assoc.
Qed.

Lemma fold_put32 vals : forall out,
  fold_left (fun out v => (out ++ binary.PutUint32 (to_uint 32 v))%list) vals out
  = (out ++ flat_map (fun v => binary.PutUint32 (to_uint 32 v)) vals)%list.
Proof.
  induction vals as [|v vals IH]; intro out; cbn [fold_left flat_map].
  - now rewrite app_nil_r.
  - rewrite IH. now rewrite <- app_assoc.
Qed.

Lemma decode_put16 vals :
  Forall (fun v => inRange 16 v = true) vals ->
  decodeInts (flat_map (fun v => binary.PutUint16 (to_uint 16 v)) vals) 2 = Ok vals.
Proof.
  intro Hr. rewrite decodeInts_2.
  assert (len (flat_map (fun v => binary.PutUint16 (to_uint 16 v)) vals) = 2 * len vals) as L.
  { clear. induction vals as [|v vals IH]; [reflexivity|].
    cbn [flat_map]. rewrite len_app, IH. unfold len. cbn [List.length binary.PutUint16]. lia. }
  rewrite L. replace (2 * len vals mod 2) with 0
    by (symmetry; rewrite Z.mul_comm; apply Z.mod_mul; lia).
  cbn [Z.eqb]. f_equal.
  induction Hr as [|v vals Hv Hr IH]; [reflexivity|].
  cbn [flat_map]. rewrite chunks2_PutUint16. cbn [List.map].
  rewrite signed_PutUint16 by exact Hv. f_equal. apply IH.
  clear -vals. induction vals as [|w vals IH]; [reflexivity|].
  cbn [flat_map]. rewrite len_app, IH. unfold len. cbn [List.length binary.PutUint16]. lia.
Qed.

Lemma decode_put32 vals :
  Forall (fun v => inRange 32 v = true) vals ->
  decodeInts (flat_map (fun v => binary.PutUint32 (to_uint 32 v)) vals) 4 = Ok vals.
Proof.
  intro Hr. rewrite decodeInts_4.
  assert (len (flat_map (fun v => binary.PutUint32 (to_uint 32 v)) vals) = 4 * len vals) as L.
  { clear. induction vals as [|v vals IH]; [reflexivity|].
    cbn [flat_map]. rewrite len_app, IH. unfold len. cbn [List.length binary.PutUint32]. lia. }
  rewrite L. replace (4 * len vals mod 4) with 0
    by (symmetry; rewrite Z.mul_comm; apply Z.mod_mul; lia).
  cbn [Z.eqb]. f_equal.
  induction Hr as [|v vals Hv Hr IH]; [reflexivity|].
  cbn [flat_map]. rewrite chunks4_PutUint32. cbn [List.map].
  rewrite signed_PutUint32 by exact Hv. f_equal. apply IH.
  clear -vals. induction vals as [|w vals IH]; [reflexivity|].
  cbn [flat_map]. rewrite len_app, IH. unfold len. cbn [List.length binary.PutUint32]. lia.
Qed.

Section IntCodec.
Context `{Platform}.

Lemma encodeInts_one tok size :
  tok <> "" -> allChars tokenChar tok = true ->
  encodeInts tok size =
  val <- parseInt tok size ;;
  Ok (if size =? 2 then binary.PutUint16 (to_uint 16 val)
      else if size =? 4 then binary.PutUint32 (to_uint 32 val) else []).
Proof.
  intros Hne Ht. unfold encodeInts. rewrite splitValues_token by assumption.
  cbn [encodeInts_loop]. destruct (parseInt tok size); cbn [bind app]; try reflexivity.
Qed.

Lemma round_trip_16 v :
  inRange 16 v = true ->
  parseWriteData "int16" (fmt.Sprintf_d v) = Ok (binary.PutUint16 (to_uint 16 v))
  /\ decodeInts (binary.PutUint16 (to_uint 16 v)) 2 = Ok [v]
  /\ formatData (binary.PutUint16 (to_uint 16 v)) "int16" = Ok (fmt.Sprintf_d v).
Proof.
  intro Hr.
  assert (- 2 ^ 63 <= v < 2 ^ 63) as Hv.
  { unfold inRange in Hr. apply andb_true_iff in Hr as [H1 H2].
    apply Z.leb_le in H1. apply Z.ltb_lt in H2.
    change (2 ^ (16 - 1)) with 32768 in *. change (2 ^ 63) with 9223372036854775808. lia. }
  destruct (Sprintf_d_token v Hv) as [Hne Ht].
  pose proof (decode_put16 [v]) as D. cbn [flat_map] in D. rewrite app_nil_r in D.
  specialize (D (Forall_cons _ Hr (Forall_nil _))).
  split; [|split; [exact D|]].
  - change (parseWriteData "int16" (fmt.Sprintf_d v)) with (encodeInts (fmt.Sprintf_d v) 2).
    rewrite encodeInts_one by assumption.
    rewrite parseInt_decimal by (auto; lia). change (2 * 8) with 16. rewrite Hr. reflexivity.
  - change (formatData (binary.PutUint16 (to_uint 16 v)) "int16")
      with (vals <- decodeInts (binary.PutUint16 (to_uint 16 v)) 2 ;; Ok (joinInts vals)).
    rewrite D. reflexivity.
Qed.

Lemma round_trip_32 v :
  inRange 32 v = true ->
  parseWriteData "int32" (fmt.Sprintf_d v) = Ok (binary.PutUint32 (to_uint 32 v))
  /\ decodeInts (binary.PutUint32 (to_uint 32 v)) 4 = Ok [v]
  /\ formatData (binary.PutUint32 (to_uint 32 v)) "int32" = Ok (fmt.Sprintf_d v).
Proof.
  intro Hr.
  assert (- 2 ^ 63 <= v < 2 ^ 63) as Hv.
  { unfold inRange in Hr. apply andb_true_iff in Hr as [H1 H2].
    apply Z.leb_le in H1. apply Z.ltb_lt in H2.
    change (2 ^ (32 - 1)) with 2147483648 in *. change (2 ^ 63) with 9223372036854775808. lia. }
  destruct (Sprintf_d_token v Hv) as [Hne Ht].
  pose proof (decode_put32 [v]) as D. cbn [flat_map] in D. rewrite app_nil_r in D.
  specialize (D (Forall_cons _ Hr (Forall_nil _))).
  split; [|split; [exact D|]].
  - change (parseWriteData "int32" (fmt.Sprintf_d v)) with (encodeInts (fmt.Sprintf_d v) 4).
    rewrite encodeInts_one by assumption.
    rewrite parseInt_decimal by (auto; lia). change (4 * 8) with 32. rewrite Hr. reflexivity.
  - change (formatData (binary.PutUint32 (to_uint 32 v)) "int32")
      with (vals <- decodeInts (binary.PutUint32 (to_uint 32 v)) 4 ;; Ok (joinInts vals)).
    rewrite D. reflexivity.
Qed.

End IntCodec.

Lemma encodeInts_decodes (size : Z) (raw : string) (bytes : list byte) :
  size = 2 \/ size = 4 ->
  encodeInts raw size = Ok bytes ->
  exists vals,
    Forall2 (fun tok v => parseInt tok size = Ok v
                          /\ inRange (size * 8) v = true
                          /\ numericToken tok = true) (splitValues raw) vals
    /\ decodeInts bytes size = Ok vals.
Proof.
  intros Hs He. unfold encodeInts in He.
  apply encodeInts_loop_ok in He as (vals & HF & ->).
  exists vals. split.
  - clear -HF Hs. induction HF as [|tok v toks vals Hp HF IH]; constructor; auto.
    split; [exact Hp|]. now apply parseInt_ok.
  - assert (Forall (fun v => inRange (size * 8) v = true) vals) as Hr.
    { clear -HF Hs. induction HF as [|tok v toks vals Hp HF IH]; constructor; auto.
      now apply (parseInt_ok tok size v). }
    destruct Hs as [-> | ->]; cbn [Z.eqb Pos.eqb].
    + rewrite fold_put16. cbn [app]. now apply decode_put16.
    + rewrite fold_put32. cbn [app]. now apply decode_put32.
Qed.

Lemma encodeInts_rejects (size : Z) (raw : string) (e : error) :
  encodeInts raw size = Err e ->
  exists tok cause,
    In tok (splitValues raw) /\ e = EInvalidInteger tok cause
    /\ Num cause = tok /\ kindOf e = MalformedInput.
Proof.
  intro He. unfold encodeInts in He.
  apply encodeInts_loop_err in He as (tok & Hin & Ht).
  destruct (parseInt_total tok size) as [[v Ev]|[c (Ec & _ & Hn)]]; [congruence|].
  rewrite Ec in Ht. injection Ht as <-.
  exists tok, c. repeat split; auto.
Qed.

Lemma parseInt_non_numeric size tok :
  size = 2 \/ size = 4 -> numericToken tok = false ->
  exists cause, parseInt tok size = Err (EInvalidInteger tok cause).
Proof.
  intros Hs Hn. destruct (parseInt_total tok size) as [[v Ev]|[c (Ec & _)]]; [|eauto].
  apply parseInt_ok in Ev as [_ Hnum]; [congruence|exact Hs].
Qed.

Lemma valueIn_nonneg base s :
  1 <= base -> allChars (isDigitIn base) s = true -> 0 <= valueIn base 0 s.
Proof.
  intros Hb Hs. apply (valueIn_ge base s 0); [lia|lia|]. eapply isDigitIn_alnum; eauto.
Qed.

Lemma intResult_nonneg s0 bits v :
  1 <= bits -> 0 <= v ->
  intResult s0 bits v =
  if v <? 2 ^ (bits - 1) then (v, None)
  else (2 ^ (bits - 1) - 1, Some (mkNumError "ParseInt" s0 ErrRange)).
Proof.
  intros Hb Hv. unfold intResult, inRange.
  destruct (pow2_half bits Hb) as [P1 _].
  replace (- 2 ^ (bits - 1) <=? v) with true by (symmetry; apply Z.leb_le; lia).
  replace (v <? 0) with false by (symmetry; apply Z.ltb_ge; lia).
  reflexivity.
Qed.

Lemma parseInt_hex size x ds :
  size = 2 \/ size = 4 -> x = "x"%char \/ x = "X"%char ->
  ds <> "" -> allChars (isDigitIn 16) ds = true ->
  parseInt (String "0" (String x ds)) size =
  if valueIn 16 0 ds <? 2 ^ (size * 8 - 1) then Ok (valueIn 16 0 ds)
  else Err (EInvalidInteger (String "0" (String x ds))
              (mkNumError "ParseInt" (String "0" (String x ds)) ErrRange)).
Proof.
  intros Hs Hx Hne Hd. unfold parseInt.
  pose proof (valueIn_nonneg 16 ds ltac:(lia) Hd) as Hv.
  assert (2 <= size * 8 <= 64) as Hb by lia.
  pose proof (ParseUint_hex x ds (size * 8) ltac:(lia) Hx Hd Hne) as Hu.
  pose proof (ParseInt_of_uint (String "0" (String x ds)) "0" (String x ds) false
                (String "0" (String x ds)) (size * 8) (valueIn 16 0 ds)
                eq_refl eq_refl Hb Hv Hu) as P.
  cbv iota in P. rewrite P, intResult_nonneg by lia.
  destruct (valueIn 16 0 ds <? 2 ^ (size * 8 - 1)); reflexivity.
Qed.

Lemma parseInt_octal size ds :
  size = 2 \/ size = 4 -> allChars (isDigitIn 8) ds = true ->
  parseInt (String "0" ds) size =
  if valueIn 8 0 ds <? 2 ^ (size * 8 - 1) then Ok (valueIn 8 0 ds)
  else Err (EInvalidInteger (String "0" ds) (mkNumError "ParseInt" (String "0" ds) ErrRange)).
Proof.
  intros Hs Hd. unfold parseInt.
  pose proof (valueIn_nonneg 8 ds ltac:(lia) Hd) as Hv.
  assert (2 <= size * 8 <= 64) as Hb by lia.
  pose proof (ParseUint_octal ds (size * 8) ltac:(lia) Hd) as Hu.
  pose proof (ParseInt_of_uint (String "0" ds) "0" ds false
                (String "0" ds) (size * 8) (valueIn 8 0 ds)
                eq_refl eq_refl Hb Hv Hu) as P.
  cbv iota in P. rewrite P, intResult_nonneg by lia.
  destruct (valueIn 8 0 ds <? 2 ^ (size * 8 - 1)); reflexivity.
Qed.

(** ** Integer literals *)

Lemma parseDigits_app a : forall b base base0 cutoff maxVal us n,
  strconv.parseDigits (a ++ b) base base0 cutoff maxVal us n =
  match strconv.parseDigits a base base0 cutoff maxVal us n with
  | (v, u, None) => strconv.parseDigits b base base0 cutoff maxVal u v
  | r => r
  end.
Proof.
  induction a as [|c a IH]; intros b base base0 cutoff maxVal us n;
    cbn [append strconv.parseDigits]; [reflexivity|].
  destruct ((Z_of_ascii c =? 95) && base0); [apply IH|].
  destruct (if (48 <=? Z_of_ascii c) && (Z_of_ascii c <=? 57) then _ else _) as [d|];
    [|reflexivity].
  destruct (d >=? base); [reflexivity|].
  destruct (n >=? cutoff); [reflexivity|].
  destruct (_ || _); [reflexivity|apply IH].
Qed.

Lemma isUnderscore_not_alnum c : isUnderscore c = true -> isAlnum c = false.
Proof. destruct c as [[] [] [] [] [] [] [] []]; cbv; congruence. Qed.

Lemma withoutUnderscores_alnum base s :
  allChars (isDigitIn base) (withoutUnderscores s) = true ->
  allChars isAlnum (withoutUnderscores s) = true.
Proof. apply isDigitIn_alnum. Qed.

(** The digit loop on digits among which underscores stand. *)
Lemma parseDigits_underscores s : forall base maxVal us n,
  2 <= base <= 36 -> 0 <= maxVal <= strconv.maxUint64 -> 0 <= n <= maxVal ->
  allChars (isDigitIn base) (withoutUnderscores s) = true ->
  exists u,
    strconv.parseDigits s base true (strconv.maxUint64 / base + 1) maxVal us n =
    if valueIn base n (withoutUnderscores s) <=? maxVal
    then (valueIn base n (withoutUnderscores s), us || hasUnderscore s, None)
    else (maxVal, u, Some ErrRange).
Proof.
  induction s as [|c s IH]; intros base maxVal us n Hb Hm Hn Hs.
  - exists us. cbn [strconv.parseDigits withoutUnderscores valueIn hasUnderscore].
    rewrite orb_false_r.
    replace (n <=? maxVal) with true by (symmetry; apply Z.leb_le; lia). reflexivity.
  - cbn [withoutUnderscores hasUnderscore] in *.
    destruct (isUnderscore c) eqn:Eu.
    + cbn [strconv.parseDigits]. unfold isUnderscore in Eu. rewrite Eu. cbn [andb orb].
      destruct (IH base maxVal true n Hb Hm Hn Hs) as (u & ->). exists u.
      now rewrite orb_true_r.
    + cbn [allChars] in Hs. apply andb_true_iff in Hs as [Hc Hs].
      change (String c s) with (String c "" ++ s). rewrite parseDigits_app.
      rewrite (parseDigits_value (String c "")) by (auto; cbn [allChars]; now rewrite Hc).
      cbn [valueIn orb].
      pose proof Hc as Hc'. unfold isDigitIn in Hc'. apply andb_true_iff in Hc' as [Ha _].
      destruct (alnum_facts c Ha) as [_ Hd].
      destruct (Z.leb_spec (n * base + digitValue c) maxVal) as [Hle|Hgt].
      * destruct (IH base maxVal us (n * base + digitValue c) Hb Hm ltac:(nia) Hs) as (u & ->).
        exists u. reflexivity.
      * exists us.
        pose proof (valueIn_ge base (withoutUnderscores s) (n * base + digitValue c)
                      ltac:(lia) ltac:(nia) (isDigitIn_alnum _ _ Hs)) as Hge.
        replace (valueIn base (n * base + digitValue c) (withoutUnderscores s) <=? maxVal)
          with false by (symmetry; apply Z.leb_gt; lia).
        reflexivity.
Qed.

(** When the digit loop ends without an error, it has seen digits of the
    base and underscores only. *)
Lemma parseDigits_digits s : forall base cutoff maxVal us n v u,
  strconv.parseDigits s base true cutoff maxVal us n = (v, u, None) ->
  allChars (isDigitIn base) (withoutUnderscores s) = true.
Proof.
  induction s as [|c s IH]; intros base cutoff maxVal us n v u Hp; [reflexivity|].
  cbn [strconv.parseDigits withoutUnderscores] in *. unfold isUnderscore.
  destruct (Z_of_ascii c =? 95) eqn:Eu; cbn [andb] in Hp; [eapply IH; eauto|].
  rewrite (digit_of_char c) in Hp.
  destruct (isAlnum c) eqn:Ea; [|discriminate Hp].
  destruct (digitValue c >=? base) eqn:Ed; [discriminate Hp|].
  destruct (n >=? cutoff); [discriminate Hp|].
  destruct (_ || _) in Hp; [discriminate Hp|].
  cbn [allChars]. unfold isDigitIn at 1. rewrite Ea.
  rewrite Z.geb_leb in Ed. apply Z.leb_gt in Ed.
  replace (digitValue c <? base) with true by (symmetry; apply Z.ltb_lt; lia).
  cbn [andb]. eapply IH; eauto.
Qed.

Lemma separated_plain s : forall ad,
  hasUnderscore s = false -> separated ad s = true.
Proof.
  induction s as [|c s IH]; intros ad Hu; [reflexivity|].
  cbn [hasUnderscore separated] in *. apply orb_false_iff in Hu as [-> Hu]. now apply IH.
Qed.

Lemma scanDigit_not_underscore hex c : scanDigit hex c = true -> isUnderscore c = false.
Proof. destruct hex; destruct c as [[] [] [] [] [] [] [] []]; cbv; congruence. Qed.

Lemma underscore_not_scanDigit hex c : isUnderscore c = true -> scanDigit hex c = false.
Proof. destruct hex; destruct c as [[] [] [] [] [] [] [] []]; cbv; congruence. Qed.

(** The scan of [underscoreOK] on digits and underscores, state by state. *)
Lemma underscoreOK_loop_separated hex s :
  allChars (fun c => scanDigit hex c || isUnderscore c) s = true ->
  strconv.underscoreOK_loop hex strconv.TokDigit s = separated true s
  /\ strconv.underscoreOK_loop hex strconv.TokStart s = separated false s
  /\ strconv.underscoreOK_loop hex strconv.TokUnderscore s
     = match s with
       | String d _ => negb (isUnderscore d)
       | EmptyString => false
       end && separated false s.
Proof.
  induction s as [|c s IH]; intro Hs; [repeat split|].
  cbn [allChars] in Hs. apply andb_true_iff in Hs as [Hc Hs].
  destruct (IH Hs) as (I1 & I2 & I3).
  cbn [strconv.underscoreOK_loop separated]. fold (scanDigit hex c).
  destruct (isUnderscore c) eqn:Eu.
  - rewrite (underscore_not_scanDigit hex c Eu).
    unfold isUnderscore in Eu. rewrite Eu. cbn [negb andb]. rewrite I3.
    repeat split.
  - rewrite orb_false_r in Hc. rewrite Hc. cbn [negb andb]. rewrite I1. repeat split.
Qed.

Lemma lower_prefixBase c :
  (if strconv.lower (Z_of_ascii c) =? 98 then Some 2
   else if strconv.lower (Z_of_ascii c) =? 111 then Some 8
        else if strconv.lower (Z_of_ascii c) =? 120 then Some 16 else None)
  = prefixBase c.
Proof. destruct c as [[] [] [] [] [] [] [] []]; reflexivity. Qed.

Lemma literalDigits_base body :
  let '(base, _, _) := literalDigits body in
  base = 2 \/ base = 8 \/ base = 10 \/ base = 16.
Proof.
  unfold literalDigits. destruct body as [|c0 r0]; [auto|].
  destruct (Z_of_ascii c0 =? 48); [|auto].
  destruct r0 as [|c1 [|c2 r2]]; auto.
  unfold prefixBase.
  destruct (_ || _); [auto|]. destruct (_ || _); [auto|]. destruct (_ || _); auto.
Qed.

(** [ParseUint] with base 0 finds the base and the digits of the literal. *)
Lemma ParseUint_literalDigits body bits :
  body <> "" -> 1 <= bits <= 64 ->
  strconv.ParseUint body 0 bits =
  let '(base, _, digits) := literalDigits body in
  match strconv.parseDigits digits base true (strconv.maxUint64 / base + 1)
                            (2 ^ bits - 1) false 0 with
  | (v, _, Some k) => (v, Some (mkNumError "ParseUint" body k))
  | (n, us, None) =>
    if us && negb (strconv.underscoreOK body)
    then (0, Some (strconv.syntaxError "ParseUint" body))
    else (n, None)
  end.
Proof.
  intros Hne Hb. destruct body as [|c0 r0]; [congruence|].
  unfold strconv.ParseUint, literalDigits.
  destruct (bitSize_ok bits Hb) as [B0 B1].
  cbn [Z.eqb Z.leb Z.compare andb].
  destruct (Z_of_ascii c0 =? 48); [|now rewrite B0, B1].
  destruct r0 as [|c1 r1]; [now rewrite B0, B1|].
  cbv zeta. rewrite <- (lower_prefixBase c1).
  destruct r1 as [|c2 r2].
  - change (3 <=? slen (String c0 (String c1 ""))) with false. cbn [andb].
    now rewrite B0, B1.
  - assert ((3 <=? slen (String c0 (String c1 (String c2 r2)))) = true) as ->
        by (apply Z.leb_le; unfold slen; cbn [String.length]; lia).
    cbn [andb].
    destruct (strconv.lower (Z_of_ascii c1) =? 98); [now rewrite B0, B1|].
    destruct (strconv.lower (Z_of_ascii c1) =? 111); [now rewrite B0, B1|].
    destruct (strconv.lower (Z_of_ascii c1) =? 120); now rewrite B0, B1.
Qed.

Lemma digit_scanDigit base c :
  base = 2 \/ base = 8 \/ base = 10 \/ base = 16 ->
  isDigitIn base c = true -> scanDigit (base =? 16) c = true.
Proof.
  intros [-> | [-> | [-> | ->]]]; destruct c as [[] [] [] [] [] [] [] []]; cbv; congruence.
Qed.

Lemma digits_scan base s :
  base = 2 \/ base = 8 \/ base = 10 \/ base = 16 ->
  allChars (isDigitIn base) (withoutUnderscores s) = true ->
  allChars (fun c => scanDigit (base =? 16) c || isUnderscore c) s = true.
Proof.
  intro Hb. induction s as [|c s IH]; intro Hs; [reflexivity|].
  cbn [withoutUnderscores allChars] in *. destruct (isUnderscore c) eqn:Eu.
  - rewrite orb_true_r. cbn [andb]. now apply IH.
  - cbn [allChars] in Hs. apply andb_true_iff in Hs as [Hc Hs].
    rewrite (digit_scanDigit base c Hb Hc). cbn [orb andb]. now apply IH.
Qed.

Lemma digit_not_sign base c :
  isDigitIn base c = true \/ isUnderscore c = true ->
  (Z_of_ascii c =? 45) || (Z_of_ascii c =? 43) = false.
Proof.
  unfold isDigitIn. intros [Hc|Hc].
  - apply andb_true_iff in Hc as [Hc _]. destruct (alnum_not_sign c Hc) as [-> ->].
    reflexivity.
  - revert Hc. destruct c as [[] [] [] [] [] [] [] []]; cbv; congruence.
Qed.

Lemma head_digit base c s :
  allChars (isDigitIn base) (withoutUnderscores (String c s)) = true ->
  isDigitIn base c = true \/ isUnderscore c = true.
Proof.
  cbn [withoutUnderscores]. destruct (isUnderscore c); [auto|].
  cbn [allChars]. intro H. apply andb_true_iff in H as [H _]. auto.
Qed.

Lemma digit_not_prefix base c :
  base = 8 -> isDigitIn base c = true \/ isUnderscore c = true ->
  prefixBase c = None
  /\ (strconv.lower (Z_of_ascii c) =? 98) || (strconv.lower (Z_of_ascii c) =? 111)
     || (strconv.lower (Z_of_ascii c) =? 120) = false.
Proof.
  intros -> [Hc|Hc]; revert Hc; destruct c as [[] [] [] [] [] [] [] []]; cbv;
    intro; split; congruence.
Qed.

(** On a body whose digits are digits of its base, [underscoreOK] checks
    that the underscores separate digits. *)
Lemma underscoreOK_separated body :
  body <> "" ->
  let '(base, afterDigit, digits) := literalDigits body in
  allChars (isDigitIn base) (withoutUnderscores digits) = true ->
  strconv.underscoreOK body = separated afterDigit digits.
Proof.
  intro Hne. pose proof (literalDigits_base body) as Hbase.
  destruct body as [|c0 r0]; [congruence|].
  unfold literalDigits in *.
  destruct (Z_of_ascii c0 =? 48) eqn:E0.
  - assert (c0 = "0"%char) as ->.
    { apply Z.eqb_eq in E0. rewrite <- (ascii_of_Z_of_ascii c0), E0. reflexivity. }
    destruct r0 as [|c1 r1].
    { intros _. reflexivity. }
    destruct r1 as [|c2 r2].
    { intro Hs. destruct (digit_not_prefix 8 c1 eq_refl (head_digit _ _ _ Hs)) as [_ Hl].
      unfold strconv.underscoreOK.
      change ((Z_of_ascii "0" =? 45) || (Z_of_ascii "0" =? 43)) with false. cbv iota zeta.
      change (Z_of_ascii "0" =? 48) with true. cbn [andb]. rewrite Hl.
      cbn [strconv.underscoreOK_loop]. change (Z_of_ascii "0") with 48.
      cbn [Z.leb Z.compare andb orb].
      apply (underscoreOK_loop_separated false (String c1 "")).
      now apply (digits_scan 8); [auto|]. }
    unfold strconv.underscoreOK.
    change ((Z_of_ascii "0" =? 45) || (Z_of_ascii "0" =? 43)) with false. cbv iota zeta.
    change (Z_of_ascii "0" =? 48) with true. cbn [andb].
    rewrite <- (lower_prefixBase c1) in *.
    destruct (strconv.lower (Z_of_ascii c1) =? 98) eqn:Eb.
    { cbn [orb]. intro Hs.
      assert ((strconv.lower (Z_of_ascii c1) =? 120) = false) as ->
          by (apply Z.eqb_eq in Eb; rewrite Eb; reflexivity).
      apply (underscoreOK_loop_separated false (String c2 r2)).
      now apply (digits_scan 2); [auto|]. }
    destruct (strconv.lower (Z_of_ascii c1) =? 111) eqn:Eo.
    { cbn [orb]. intro Hs.
      assert ((strconv.lower (Z_of_ascii c1) =? 120) = false) as ->
          by (apply Z.eqb_eq in Eo; rewrite Eo; reflexivity).
      apply (underscoreOK_loop_separated false (String c2 r2)).
      now apply (digits_scan 8); [auto|]. }
    destruct (strconv.lower (Z_of_ascii c1) =? 120) eqn:Ex.
    { cbn [orb]. intro Hs.
      apply (underscoreOK_loop_separated true (String c2 r2)).
      now apply (digits_scan 16); [auto|]. }
    cbn [orb]. intro Hs.
    cbn [strconv.underscoreOK_loop]. change (Z_of_ascii "0") with 48.
    cbn [Z.leb Z.compare andb orb].
    apply (underscoreOK_loop_separated false (String c1 (String c2 r2))).
    now apply (digits_scan 8); [auto|].
  - intro Hs. unfold strconv.underscoreOK.
    rewrite (digit_not_sign 10 c0 (head_digit _ _ _ Hs)).
    assert (strconv.underscoreOK_loop false strconv.TokStart (String c0 r0)
            = separated false (String c0 r0)) as Hloop.
    { apply (underscoreOK_loop_separated false (String c0 r0)).
      now apply (digits_scan 10); [auto|]. }
    destruct r0 as [|c1 r1]; [exact Hloop|]. rewrite E0. cbn [andb]. exact Hloop.
Qed.

Lemma naturalOf_nonneg body v : naturalOf body = Some v -> 0 <= v.
Proof.
  unfold naturalOf. pose proof (literalDigits_base body) as Hbase.
  destruct (literalDigits body) as [[base ad] digits].
  destruct (allChars (isDigitIn base) (withoutUnderscores digits)) eqn:Ed;
    [|rewrite andb_false_r; discriminate].
  destruct (_ && _); [|discriminate]. intro E. injection E as <-.
  apply valueIn_nonneg; [lia|exact Ed].
Qed.

(** What [ParseUint] returns for a literal. *)
Lemma ParseUint_literal body bits v :
  1 <= bits <= 64 -> naturalOf body = Some v ->
  strconv.ParseUint body 0 bits = uintResult body bits v.
Proof.
  intros Hb Hn. unfold naturalOf in Hn.
  pose proof (literalDigits_base body) as Hbase.
  destruct (String.eqb_spec body "") as [->|Hne]; [discriminate Hn|].
  rewrite (ParseUint_literalDigits body bits Hne Hb).
  pose proof (underscoreOK_separated body Hne) as Hu.
  destruct (literalDigits body) as [[base ad] digits].
  cbn [negb andb] in Hn.
  destruct (separated ad digits) eqn:Es; [|discriminate Hn]. cbn [andb] in Hn.
  destruct (allChars (isDigitIn base) (withoutUnderscores digits)) eqn:Ed; [|discriminate Hn].
  injection Hn as <-. specialize (Hu eq_refl).
  pose proof (pow2_bounds bits Hb) as Hm.
  destruct (parseDigits_underscores digits base (2 ^ bits - 1) false 0
              ltac:(lia) Hm ltac:(lia) Ed) as (u & ->).
  unfold uintResult.
  destruct (valueIn base 0 (withoutUnderscores digits) <=? 2 ^ bits - 1); [|reflexivity].
  rewrite Hu. cbn [orb negb]. now rewrite andb_false_r.
Qed.

(** What [ParseUint] accepts is a literal, and it returns its value. *)
Lemma ParseUint_sound body bits v :
  1 <= bits <= 64 -> strconv.ParseUint body 0 bits = (v, None) ->
  naturalOf body = Some v.
Proof.
  intros Hb Hp.
  destruct (String.eqb_spec body "") as [->|Hne]; [discriminate Hp|].
  assert (naturalOf body <> None) as Hsome.
  { rewrite (ParseUint_literalDigits body bits Hne Hb) in Hp.
    unfold naturalOf.
    pose proof (literalDigits_base body) as Hbase.
    pose proof (underscoreOK_separated body Hne) as Hu.
    destruct (literalDigits body) as [[base ad] digits].
    destruct (strconv.parseDigits _ _ _ _ _ _ _) as [[n us] [k|]] eqn:Ed; [discriminate Hp|].
    pose proof (parseDigits_digits _ _ _ _ _ _ _ _ Ed) as Hd.
    rewrite Hd, andb_true_r. specialize (Hu Hd).
    destruct (String.eqb_spec body ""); [contradiction|]. cbn [negb andb].
    pose proof (pow2_bounds bits Hb) as Hm.
    destruct (parseDigits_underscores digits base (2 ^ bits - 1) false 0
                ltac:(lia) Hm ltac:(lia) Hd) as (u & Ef).
    rewrite Ef in Ed.
    destruct (valueIn base 0 (withoutUnderscores digits) <=? 2 ^ bits - 1);
      [|discriminate Ed].
    injection Ed as _ <-. cbn [orb] in Hp.
    destruct (hasUnderscore digits) eqn:Eh.
    - rewrite <- Hu. cbn [andb] in Hp.
      destruct (strconv.underscoreOK body); [discriminate|discriminate Hp].
    - rewrite (separated_plain digits ad Eh). discriminate. }
  destruct (naturalOf body) as [v'|] eqn:En; [|congruence].
  rewrite (ParseUint_literal body bits v' Hb En) in Hp. unfold uintResult in Hp.
  destruct (v' <=? 2 ^ bits - 1); [|discriminate Hp]. now injection Hp as ->.
Qed.

Lemma sign_split c r :
  (if Z_of_ascii c =? 43 then (false, r)
   else if Z_of_ascii c =? 45 then (true, r) else (false, String c r))
  = (if Z_of_ascii c =? 43 then false else Z_of_ascii c =? 45,
     if (Z_of_ascii c =? 43) || (Z_of_ascii c =? 45) then r else String c r).
Proof. destruct (_ =? 43); [reflexivity|]. destruct (_ =? 45); reflexivity. Qed.

(** What [ParseInt] returns for a literal. *)
Lemma ParseInt_literal tok bits v :
  2 <= bits <= 64 -> integerOf tok = Some v ->
  strconv.ParseInt tok 0 bits = intResult tok bits v.
Proof.
  intros Hb Hi. destruct tok as [|c r]; [discriminate Hi|]. cbn [integerOf] in Hi.
  destruct (Z_of_ascii c =? 43) eqn:E43.
  - pose proof (ParseInt_of_uint (String c r) c r false r bits v eq_refl) as L.
    rewrite E43 in L. apply L; auto; [now apply naturalOf_nonneg in Hi|].
    apply ParseUint_literal; [lia|exact Hi].
  - destruct (Z_of_ascii c =? 45) eqn:E45.
    + destruct (naturalOf r) as [u|] eqn:En; [|discriminate Hi].
      cbn [option_map] in Hi. injection Hi as <-.
      pose proof (ParseInt_of_uint (String c r) c r true r bits u eq_refl) as L.
      rewrite E43, E45 in L. apply L; auto; [now apply naturalOf_nonneg in En|].
      apply ParseUint_literal; [lia|exact En].
    + pose proof (ParseInt_of_uint (String c r) c r false (String c r) bits v eq_refl) as L.
      rewrite E43, E45 in L. apply L; auto; [now apply naturalOf_nonneg in Hi|].
      apply ParseUint_literal; [lia|exact Hi].
Qed.

(** What [ParseInt] accepts is a literal in range, and it returns its
    value. *)
Lemma ParseInt_sound tok bits v :
  2 <= bits <= 64 -> strconv.ParseInt tok 0 bits = (v, None) ->
  integerOf tok = Some v /\ inRange bits v = true.
Proof.
  intros Hb Hp.
  assert (integerOf tok <> None) as Hsome.
  { revert Hp. unfold strconv.ParseInt. destruct tok as [|c r]; [discriminate|].
    cbn [integerOf].
    replace (bits =? 0) with false by (symmetry; apply Z.eqb_neq; lia).
    assert (forall (neg : bool) body,
      (let '(un, err) := strconv.ParseUint body 0 bits in
       match match err with
             | Some e => match NumErr e with ErrRange => None | k => Some k end
             | None => None
             end with
       | Some k => (0, Some (mkNumError "ParseInt" (String c r) k))
       | None =>
         if negb neg && (un >=? 2 ^ (bits - 1))
         then (2 ^ (bits - 1) - 1, Some (strconv.rangeError "ParseInt" (String c r)))
         else if neg && (un >? 2 ^ (bits - 1))
              then (- 2 ^ (bits - 1), Some (strconv.rangeError "ParseInt" (String c r)))
              else (if neg then - un else un, None)
       end) = (v, None) -> naturalOf body <> None) as Hcore.
    { intros neg body.
      destruct (pow2_half bits ltac:(lia)) as [P1 P2].
      destruct (strconv.ParseUint body 0 bits) as [un [e|]] eqn:Eu.
      - destruct (NumErr e) eqn:Ek; try discriminate.
        pose proof (ParseUint_range_value body bits un e ltac:(lia) Eu Ek) as ->.
        assert (2 <= 2 ^ (bits - 1)) as P3.
        { change 2 with (2 ^ 1) at 1. apply Z.pow_le_mono_r; lia. }
        destruct neg; cbn [negb andb].
        + rewrite Z.gtb_ltb.
          destruct (Z.ltb_spec (2 ^ (bits - 1)) (2 ^ bits - 1)); [discriminate|lia].
        + rewrite Z.geb_leb.
          destruct (Z.leb_spec (2 ^ (bits - 1)) (2 ^ bits - 1)); [discriminate|lia].
      - intros _. apply ParseUint_sound in Eu; [|lia]. congruence. }
    destruct (Z_of_ascii c =? 43); [apply Hcore|].
    destruct (Z_of_ascii c =? 45).
    - intro Hp. apply Hcore in Hp. destruct (naturalOf r); [discriminate|congruence].
    - apply Hcore. }
  destruct (integerOf tok) as [v'|] eqn:Ei; [|congruence].
  rewrite (ParseInt_literal tok bits v' Hb Ei) in Hp. unfold intResult in Hp.
  destruct (inRange bits v') eqn:Er; [|discriminate Hp]. injection Hp as ->. auto.
Qed.

(** ** What the integer encoder accepts *)

Lemma integerOf_decimal v :
  - 2 ^ 63 <= v < 2 ^ 63 -> integerOf (fmt.Sprintf_d v) = Some v.
Proof.
  intro Hv. pose proof (ParseInt_decimal v 64 Hv ltac:(lia)) as Hp.
  unfold intResult in Hp.
  replace (inRange 64 v) with true in Hp
    by (symmetry; unfold inRange; change (2 ^ (64 - 1)) with (2 ^ 63);
        apply andb_true_iff; split; [apply Z.leb_le|apply Z.ltb_lt]; lia).
  apply (ParseInt_sound _ 64 v) in Hp; [|lia]. apply Hp.
Qed.

Lemma parseInt_accepts size tok v :
  size = 2 \/ size = 4 ->
  parseInt tok size = Ok v <-> integerOf tok = Some v /\ inRange (size * 8) v = true.
Proof.
  intro Hs. assert (2 <= size * 8 <= 64) as Hb by lia. unfold parseInt. split.
  - destruct (strconv.ParseInt tok 0 (size * 8)) as [v' [e|]] eqn:E; [discriminate|].
    intro Ev. injection Ev as ->. now apply ParseInt_sound.
  - intros [Hi Hr]. rewrite (ParseInt_literal tok (size * 8) v Hb Hi).
    unfold intResult. now rewrite Hr.
Qed.

Lemma parseInt_rejects size tok :
  size = 2 \/ size = 4 ->
  notEncodable (size * 8) tok <->
  exists cause, parseInt tok size = Err (EInvalidInteger tok cause) /\ Num cause = tok.
Proof.
  intro Hs. split.
  - intro Hbad. destruct (parseInt_total tok size) as [[v Ev]|[c (Ec & _ & Hn)]]; [|eauto].
    apply (parseInt_accepts size tok v Hs) in Ev as [Hi Hr].
    destruct Hbad as [Hnone|(v' & Hi' & Hr')]; congruence.
  - intros (cause & Ec & _).
    destruct (integerOf tok) as [v|] eqn:Ei; [|left; exact Ei].
    right. exists v. split; [exact Ei|].
    destruct (inRange (size * 8) v) eqn:Er; [|reflexivity].
    rewrite (proj2 (parseInt_accepts size tok v Hs) (conj Ei Er)) in Ec. discriminate Ec.
Qed.

Lemma encodeInts_accepts size raw bytes :
  size = 2 \/ size = 4 -> encodeInts raw size = Ok bytes ->
  exists vals,
    Forall2 (fun tok v => integerOf tok = Some v /\ inRange (size * 8) v = true)
            (splitValues raw) vals
    /\ decodeInts bytes size = Ok vals.
Proof.
  intros Hs He. destruct (encodeInts_decodes size raw bytes Hs He) as (vals & HF & Hd).
  exists vals. split; [|exact Hd]. clear -HF Hs.
  induction HF as [|tok v toks vals (Hp & _) HF IH]; constructor; auto.
  now apply (parseInt_accepts size tok v Hs).
Qed.

Lemma encodeInts_refuses size raw e :
  size = 2 \/ size = 4 -> encodeInts raw size = Err e ->
  exists tok cause,
    In tok (splitValues raw) /\ notEncodable (size * 8) tok
    /\ e = EInvalidInteger tok cause /\ Num cause = tok /\ kindOf e = MalformedInput.
Proof.
  intros Hs He. unfold encodeInts in He.
  apply encodeInts_loop_err in He as (tok & Hin & Ht).
  destruct (parseInt_total tok size) as [[v Ev]|[c (Ec & _ & Hn)]]; [congruence|].
  rewrite Ec in Ht. injection Ht as <-. exists tok, c.
  split; [exact Hin|]. split; [|auto].
  apply (parseInt_rejects size tok Hs). eauto.
Qed.

Lemma encodeInts_total raw size :
  (exists bytes, encodeInts raw size = Ok bytes) \/ (exists e, encodeInts raw size = Err e).
Proof. apply encodeInts_loop_total. Qed.

Lemma encodeInts_bad_token size raw :
  size = 2 \/ size = 4 -> Exists (notEncodable (size * 8)) (splitValues raw) ->
  exists tok cause,
    In tok (splitValues raw) /\ notEncodable (size * 8) tok
    /\ encodeInts raw size = Err (EInvalidInteger tok cause) /\ Num cause = tok
    /\ kindOf (EInvalidInteger tok cause) = MalformedInput.
Proof.
  intros Hs Hbad. destruct (encodeInts_total raw size) as [(bytes & Eb)|(e & Ee)].
  - exfalso. destruct (encodeInts_accepts size raw bytes Hs Eb) as (vals & HF & _).
    clear -HF Hbad. induction HF as [|tok v toks vals (Hi & Hr) HF IH];
      inversion Hbad as [? ? Hb|? ? Hb]; subst; auto.
    destruct Hb as [Hn|(v' & Hi' & Hr')]; congruence.
  - destruct (encodeInts_refuses size raw e Hs Ee) as (tok & cause & Hin & Hb & -> & Hn & Hk).
    exists tok, cause. auto.
Qed.

(** C6: signed 16-bit and 32-bit integers round-trip through their decimal
    text, which denotes them. The encoder accepts a token exactly when it
    is an integer literal whose value fits the width, and then encodes that
    value: the bytes of an accepted list decode to the values that its
    tokens denote. A token that is no integer literal, or whose value is
    out of range, is rejected with a malformed-input error that names it,
    and so is every list that holds one. *)
Theorem C6_int_round_trip :
  forall P : Platform,
    (forall v, inRange 16 v = true ->
       parseWriteData "int16" (fmt.Sprintf_d v) = Ok (binary.PutUint16 (to_uint 16 v))
       /\ decodeInts (binary.PutUint16 (to_uint 16 v)) 2 = Ok [v]
       /\ formatData (binary.PutUint16 (to_uint 16 v)) "int16" = Ok (fmt.Sprintf_d v))
    /\ (forall v, inRange 32 v = true ->
       parseWriteData "int32" (fmt.Sprintf_d v) = Ok (binary.PutUint32 (to_uint 32 v))
       /\ decodeInts (binary.PutUint32 (to_uint 32 v)) 4 = Ok [v]
       /\ formatData (binary.PutUint32 (to_uint 32 v)) "int32" = Ok (fmt.Sprintf_d v))
    /\ (forall v, - 2 ^ 63 <= v < 2 ^ 63 -> integerOf (fmt.Sprintf_d v) = Some v)
    /\ (forall size tok v, size = 2 \/ size = 4 ->
       (parseInt tok size = Ok v
        <-> integerOf tok = Some v /\ inRange (size * 8) v = true))
    /\ (forall size tok, size = 2 \/ size = 4 ->
       (notEncodable (size * 8) tok
        <-> exists cause, parseInt tok size = Err (EInvalidInteger tok cause)
                          /\ Num cause = tok))
    /\ (forall size raw bytes, size = 2 \/ size = 4 ->
       encodeInts raw size = Ok bytes ->
       exists vals,
         Forall2 (fun tok v => integerOf tok = Some v /\ inRange (size * 8) v = true)
                 (splitValues raw) vals
         /\ decodeInts bytes size = Ok vals)
    /\ (forall size raw, size = 2 \/ size = 4 ->
       Exists (notEncodable (size * 8)) (splitValues raw) ->
       exists tok cause,
         In tok (splitValues raw) /\ notEncodable (size * 8) tok
         /\ encodeInts raw size = Err (EInvalidInteger tok cause) /\ Num cause = tok
         /\ kindOf (EInvalidInteger tok cause) = MalformedInput)
    /\ (forall size raw e, size = 2 \/ size = 4 ->
       encodeInts raw size = Err e ->
       exists tok cause,
         In tok (splitValues raw) /\ notEncodable (size * 8) tok
         /\ e = EInvalidInteger tok cause /\ Num cause = tok
         /\ kindOf e = MalformedInput)
    /\ (forall size raw,
       (exists bytes, encodeInts raw size = Ok bytes)
       \/ (exists e, encodeInts raw size = Err e)).
Proof.
  intro P.
  split; [intros v Hr; now apply round_trip_16|].
  split; [intros v Hr; now apply round_trip_32|].
  split; [apply integerOf_decimal|].
  split; [intros; now apply parseInt_accepts|].
  split; [intros; now apply parseInt_rejects|].
  split; [intros; eapply encodeInts_accepts; eauto|].
  split; [intros; now apply encodeInts_bad_token|].
  split; [intros; now apply encodeInts_refuses|].
  intros. apply encodeInts_total.
Qed.

(** C10: the integer encoder detects the base of each token. After [0x] or
    [0X] the digits are read in base 16, after a leading [0] in base 8, and
    the value is checked against the 16 or 32 bit range: [010] encodes the
    value 8 and [0x10] the value 16. *)
Theorem C10_base_detection :
  forall P : Platform,
    (forall size x ds, size = 2 \/ size = 4 -> x = "x"%char \/ x = "X"%char ->
       ds <> "" -> allChars (isDigitIn 16) ds = true ->
       parseInt (String "0" (String x ds)) size =
       if valueIn 16 0 ds <? 2 ^ (size * 8 - 1) then Ok (valueIn 16 0 ds)
       else Err (EInvalidInteger (String "0" (String x ds))
                   (mkNumError "ParseInt" (String "0" (String x ds)) ErrRange)))
    /\ (forall size ds, size = 2 \/ size = 4 -> allChars (isDigitIn 8) ds = true ->
       parseInt (String "0" ds) size =
       if valueIn 8 0 ds <? 2 ^ (size * 8 - 1) then Ok (valueIn 8 0 ds)
       else Err (EInvalidInteger (String "0" ds)
                   (mkNumError "ParseInt" (String "0" ds) ErrRange)))
    /\ parseInt "010" 2 = Ok 8
    /\ parseInt "0x10" 2 = Ok 16
    /\ parseWriteData "int16" "010" = Ok [x00; x08]
    /\ parseWriteData "int16" "0x10" = Ok [x00; x10]
    /\ parseWriteData "int32" "010,0X10" = Ok [x00; x00; x00; x08; x00; x00; x00; x10]
    /\ parseWriteData "int16" "0x7fff" = Ok [x7f; xff]
    /\ parseWriteData "int16" "0x8000"
       = Err (EInvalidInteger "0x8000" (mkNumError "ParseInt" "0x8000" ErrRange))
    /\ parseWriteData "int16" "0100000"
       = Err (EInvalidInteger "0100000" (mkNumError "ParseInt" "0100000" ErrRange)).
Proof.
  intro P.
  split; [intros; now apply parseInt_hex|].
  split; [intros; now apply parseInt_octal|].
  repeat split; vm_compute; reflexivity.
Qed.

(** ** The access engine *)

Lemma upper_lower_byte c :
  strings.upperByte (strings.lowerByte c) = strings.upperByte c
  /\ strings.upperByte (strings.upperByte c) = strings.upperByte c
  /\ ((Z_of_ascii c <? 128) = true ->
      (Z_of_ascii (strings.lowerByte c) <? 128) = true
      /\ (Z_of_ascii (strings.upperByte c) <? 128) = true).
Proof. destruct c as [[] [] [] [] [] [] [] []]; vm_compute; repeat split; congruence. Qed.

Lemma isASCII_map f s :
  (forall c, (Z_of_ascii c <? 128) = true -> (Z_of_ascii (f c) <? 128) = true) ->
  isASCII s = true -> isASCII (map_string f s) = true.
Proof.
  intros Hf. unfold isASCII. induction s as [|c s IH]; [reflexivity|].
  cbn [map_string list_ascii_of_string forallb]. rewrite !andb_true_iff.
  intros [Hc Hs]. split; auto.
Qed.

Lemma map_string_compose f g h s :
  (forall c, f (g c) = h c) -> map_string f (map_string g s) = map_string h s.
Proof. intro E. induction s; cbn [map_string]; congruence. Qed.

Section EngineFacts.
Context `{Platform} {St : Type} `{Client St}.

Lemma ToUpper_ToLower s :
  isASCII s = true -> strings.ToUpper (strings.ToLower s) = strings.ToUpper s.
Proof.
  intro Ha. unfold strings.ToUpper, strings.ToLower. rewrite Ha.
  rewrite isASCII_map by (exact Ha || (intros c Hc; now apply upper_lower_byte)).
  apply map_string_compose. intro c. apply upper_lower_byte.
Qed.

Lemma ToUpper_ToUpper s :
  isASCII s = true -> strings.ToUpper (strings.ToUpper s) = strings.ToUpper s.
Proof.
  intro Ha. unfold strings.ToUpper. rewrite Ha.
  rewrite isASCII_map by (exact Ha || (intros c Hc; now apply upper_lower_byte)).
  apply map_string_compose. intro c. apply upper_lower_byte.
Qed.

(** What the transport answered to a read. *)
Lemma readCall_run e buf f (w : world St) :
  readCall e buf f w =
  (match snd (f buf (env w)) with
   | Some m => Err (ETransport m)
   | None => Ok (overwrite buf (snd (fst (f buf (env w)))))
   end,
   mkWorld (fst (fst (f buf (env w)))) (trace w ++ [e])%list).
Proof.
  unfold readCall, bindM, call, failWith, lift, ret.
  destruct (f buf (env w)) as [[s d] [m|]]; reflexivity.
Qed.

Lemma writeCall_run e f (w : world St) :
  writeCall e f w =
  (match snd (f (env w)) with
   | Some m => Err (ETransport m)
   | None => Ok tt
   end,
   mkWorld (fst (f (env w))) (trace w ++ [e])%list).
Proof.
  unfold writeCall, bindM, call, failWith, lift, ret.
  destruct (f (env w)) as [s [m|]]; reflexivity.
Qed.

Ltac by_alias u :=
  repeat match goal with
         | |- context [String.eqb u ?s] =>
           destruct (String.eqb u s); cbn [orb]; try reflexivity
         end.

Lemma readArea_resolve (a : areaOptions) (w : world St) :
  readArea a w =
  if amount a <? 0 then (Panic MakeSliceLenOutOfRange, w)
  else match resolve (area a) with
       | Some k => readCall (readOp k a) (repeat x00 (Z.to_nat (amount a))) (readMethod k a) w
       | None => (Err (EAreaNotSupported (area a)), w)
       end.
Proof.
  unfold readArea, resolve, aliasTable. cbn [lookup].
  destruct (amount a <? 0); [reflexivity|].
  generalize (strings.ToUpper (area a)). intro u. by_alias u.
Qed.

Lemma writeArea_resolve (a : areaOptions) (data : list byte) (w : world St) :
  writeArea a data w =
  match resolve (area a) with
  | Some k => writeCall (writeOp k a data) (writeMethod k a data) w
  | None => (Err (EAreaNotSupported (area a)), w)
  end.
Proof.
  unfold writeArea, resolve, aliasTable. cbn [lookup].
  generalize (strings.ToUpper (area a)). intro u. by_alias u.
Qed.
End EngineFacts.

(** C7: area names are matched against the alias table without regard to
    case. ["db"] and ["DB"] both select the data block operations; ["tm"]
    and ["ct"] select nothing: reading or writing them returns the
    unsupported-area error and leaves the world as it was. *)
Theorem C7_area_resolution :
  forall (P : Platform) (St : Type) (C : Client St)
         (d s n : Z) (data : list byte) (w : world St),
    (resolve "db" = Some DataBlock /\ resolve "DB" = Some DataBlock
     /\ resolve "tm" = None /\ resolve "ct" = None)
    /\ (forall name, isASCII name = true ->
          resolve (strings.ToLower name) = resolve name
          /\ resolve (strings.ToUpper name) = resolve name)
    /\ (forall a,
          readArea a w =
          if amount a <? 0 then (Panic MakeSliceLenOutOfRange, w)
          else match resolve (area a) with
               | Some k => readCall (readOp k a) (repeat x00 (Z.to_nat (amount a)))
                                    (readMethod k a) w
               | None => (Err (EAreaNotSupported (area a)), w)
               end)
    /\ (forall a,
          writeArea a data w =
          match resolve (area a) with
          | Some k => writeCall (writeOp k a data) (writeMethod k a data) w
          | None => (Err (EAreaNotSupported (area a)), w)
          end)
    /\ readArea {| area := "db"; db := d; start := s; amount := n |} w
       = readArea {| area := "DB"; db := d; start := s; amount := n |} w
    /\ writeArea {| area := "db"; db := d; start := s; amount := n |} data w
       = writeArea {| area := "DB"; db := d; start := s; amount := n |} data w
    /\ Forall (fun name =>
                 readArea {| area := name; db := d; start := s; amount := n |} w
                 = (if n <? 0 then Panic MakeSliceLenOutOfRange
                    else Err (EAreaNotSupported name), w)
                 /\ writeArea {| area := name; db := d; start := s; amount := n |} data w
                    = (Err (EAreaNotSupported name), w)
                 /\ kindOf (EAreaNotSupported name) = UnsupportedArea)
              ["tm"; "ct"; "TM"; "CT"].
Proof.
  intros P St C d s n data w.
  split; [repeat split|].
  split.
  { intros name Ha. unfold resolve.
    rewrite ToUpper_ToLower, ToUpper_ToUpper by exact Ha. split; reflexivity. }
  split; [intro a; apply readArea_resolve|].
  split; [intro a; apply writeArea_resolve|].
  split; [rewrite !readArea_resolve; reflexivity|].
  split; [rewrite !writeArea_resolve; reflexivity|].
  repeat constructor; rewrite ?readArea_resolve, ?writeArea_resolve; cbn [amount area];
    try reflexivity; destruct (n <? 0); reflexivity.
Qed.

(** C9: for a descriptor whose area resolves, [writeArea] makes one call,
    the write operation that the kind selects, with the length of the
    payload as its length argument; the [amount] of the descriptor plays no
    part. *)
Theorem C9_write_dispatch :
  forall (P : Platform) (St : Type) (C : Client St)
         (a : areaOptions) (data : list byte) (w : world St) (k : AreaKind),
    resolve (area a) = Some k ->
    writeArea a data w
    = (match snd (writeMethod k a data (env w)) with
       | Some m => Err (ETransport m)
       | None => Ok tt
       end,
       mkWorld (fst (writeMethod k a data (env w))) (trace w ++ [writeOp k a data])%list)
    /\ (exists st sz, writeOp k a data = match k with
                                         | DataBlock => EvAGWriteDB (db a) st sz data
                                         | Input => EvAGWriteEB st sz data
                                         | Output => EvAGWriteAB st sz data
                                         | Marker => EvAGWriteMB st sz data
                                         end /\ sz = len data /\ st = start a)
    /\ filter isTransportCall (trace (snd (writeArea a data w)))
       = (filter isTransportCall (trace w) ++ [writeOp k a data])%list
    /\ forall n : Z,
        writeArea {| area := area a; db := db a; start := start a; amount := n |} data w
        = writeArea a data w.
Proof.
  intros P St C a data w k Hk.
  assert (writeArea a data w
          = (match snd (writeMethod k a data (env w)) with
             | Some m => Err (ETransport m)
             | None => Ok tt
             end,
             mkWorld (fst (writeMethod k a data (env w)))
                     (trace w ++ [writeOp k a data])%list)) as E.
  { rewrite writeArea_resolve, Hk. apply writeCall_run. }
  split; [exact E|]. split.
  { exists (start a), (len data). destruct k; repeat split. }
  split.
  { rewrite E. cbn [snd trace]. rewrite filter_app. f_equal. destruct k; reflexivity. }
  intro n. rewrite !writeArea_resolve. cbn [area]. rewrite Hk. destruct k; reflexivity.
Qed.

(** ** The kinds of error that the codec makes *)

Lemma decodeInts_loop_no_err fuel data size : forall i vals e,
  decodeInts_loop fuel data size i vals <> Err e.
Proof.
  induction fuel as [|fuel IH]; intros i vals e; cbn [decodeInts_loop]; [discriminate|].
  destruct (i <? len data); [|discriminate].
  unfold decodeInts_step.
  destruct (size =? 2).
  { destruct (slice_from data i) as [b|]; cbn [orPanic bind]; [|discriminate].
    destruct (binary.Uint16 b); cbn [orPanic bind]; [apply IH|discriminate]. }
  destruct (size =? 4).
  { destruct (slice_from data i) as [b|]; cbn [orPanic bind]; [|discriminate].
    destruct (binary.Uint32 b); cbn [orPanic bind]; [apply IH|discriminate]. }
  cbn [bind]. apply IH.
Qed.

Lemma decodeInts_err data size e :
  decodeInts data size = Err e -> e = ENotAligned size (len data).
Proof.
  unfold decodeInts. destruct (size =? 0); [discriminate|].
  destruct (negb _); [intro E; now injection E|].
  destruct (_ <? 0); [discriminate|]. intro E. now apply decodeInts_loop_no_err in E.
Qed.

Lemma parseHex_loop_err fuel clean : forall i out e,
  parseHex_loop fuel clean i out = Err e -> exists pos cause, e = EInvalidHex pos cause.
Proof.
  induction fuel as [|fuel IH]; intros i out e; cbn [parseHex_loop]; [discriminate|].
  destruct (i <? slen clean); [|discriminate].
  destruct (str_slice clean i (i + 2)) as [g|]; cbn [orPanic bind]; [|discriminate].
  destruct (fmt.Sscanf_02X g) as [err|v].
  - intro E. injection E as <-. eauto.
  - destruct (list_set out (Z.to_nat (i / 2)) v); cbn [orPanic bind]; [apply IH|discriminate].
Qed.

Lemma parseHex_err s e : parseHex s = Err e -> kindOf e = MalformedInput.
Proof.
  unfold parseHex. destruct (negb _).
  - intro E. injection E as <-. reflexivity.
  - intro E. apply parseHex_loop_err in E as (pos & cause & ->). reflexivity.
Qed.

Section CodecErrors.
Context `{Platform}.

Lemma formatFloats_loop_no_err fuel data : forall i out e,
  formatFloats_loop fuel data i out <> Err e.
Proof.
  induction fuel as [|fuel IH]; intros i out e; cbn [formatFloats_loop]; [discriminate|].
  destruct (i <? len data); [|discriminate].
  destruct (slice_from data i) as [b|]; cbn [orPanic bind]; [|discriminate].
  destruct (binary.Uint32 b); cbn [orPanic bind]; [apply IH|discriminate].
Qed.

Lemma encodeFloats_loop_err parts : forall out e,
  encodeFloats_loop parts out = Err e -> exists tok cause, e = EInvalidFloat tok cause.
Proof.
  induction parts as [|p parts IH]; intros out e; cbn [encodeFloats_loop]; [discriminate|].
  unfold parseFloat. destruct (strconv_ParseFloat32 p) as [v [err|]]; cbn [bind].
  - intro E. injection E as <-. eauto.
  - apply IH.
Qed.

Lemma formatData_err data format e :
  formatData data format = Err e ->
  kindOf e = AlignmentError \/ kindOf e = UnsupportedFormat.
Proof.
  unfold formatData. generalize (strings.ToLower format). intro f.
  destruct (f =? "hex")%string; [discriminate|].
  destruct ((f =? "string")%string || (f =? "str")%string); [discriminate|].
  destruct (f =? "int16")%string.
  { destruct (decodeInts data 2) eqn:E; cbn [bind]; try discriminate.
    apply decodeInts_err in E. intro E'. injection E' as <-. subst. now left. }
  destruct (f =? "int32")%string.
  { destruct (decodeInts data 4) eqn:E; cbn [bind]; try discriminate.
    apply decodeInts_err in E. intro E'. injection E' as <-. subst. now left. }
  destruct ((f =? "float32")%string || (f =? "float")%string).
  { destruct (negb _); [intro E; injection E as <-; now left|].
    destruct (formatFloats_loop _ _ _ _) eqn:E; cbn [bind]; try discriminate.
    now apply formatFloats_loop_no_err in E. }
  intro E. injection E as <-. now right.
Qed.

Lemma parseWriteData_err format raw e :
  parseWriteData format raw = Err e ->
  kindOf e = MalformedInput \/ kindOf e = UnsupportedFormat.
Proof.
  unfold parseWriteData. generalize (strings.ToLower format). intro f.
  destruct (f =? "hex")%string; [intro E; left; eapply parseHex_err; eauto|].
  destruct ((f =? "string")%string || (f =? "str")%string); [discriminate|].
  destruct (f =? "int16")%string.
  { intro E. apply encodeInts_rejects in E as (tok & cause & _ & -> & _). now left. }
  destruct (f =? "int32")%string.
  { intro E. apply encodeInts_rejects in E as (tok & cause & _ & -> & _). now left. }
  destruct ((f =? "float32")%string || (f =? "float")%string).
  { intro E. apply encodeFloats_loop_err in E as (tok & cause & ->). now left. }
  intro E. injection E as <-. now right.
Qed.
End CodecErrors.

(** ** The commands *)
Section Commands.
Context `{Platform} {St : Type} `{Client St}.

Lemma connect_run (conn : connOptions) (w : world St) :
  exists addr ct s' r,
    connect conn w = (r, mkWorld s' (trace w ++ [EvConnect addr (rack conn) (slot conn) ct])%list)
    /\ (r = Ok tt \/ exists m, r = Err (EConnect m)).
Proof.
  unfold connect, bindM, call, failWith, lift, ret.
  match goal with
  | |- context [Connect ?a ?r ?s ?c (env w)] =>
    exists a, c; destruct (Connect a r s c (env w)) as [s' [m|]]
  end; eexists; eexists; (split; [reflexivity|]); eauto.
Qed.

(** An unsupported-area error of [readArea] is made before any call. *)
Lemma readArea_unsupported (a : areaOptions) (w w' : world St) e :
  readArea a w = (Err e, w') -> kindOf e = UnsupportedArea ->
  e = EAreaNotSupported (area a) /\ resolve (area a) = None /\ w' = w.
Proof.
  rewrite readArea_resolve. destruct (amount a <? 0); [discriminate|].
  destruct (resolve (area a)) as [k|].
  - rewrite readCall_run. destruct (snd _) as [m|]; intro E; inversion E; subst;
      intro K; discriminate K.
  - intro E. injection E as <- <-. auto.
Qed.

Lemma readArea_resolved (a : areaOptions) (w w' : world St) k r :
  resolve (area a) = Some k -> readArea a w = (r, w') ->
  (r = Panic MakeSliceLenOutOfRange /\ w' = w)
  \/ (trace w' = (trace w ++ [readOp k a])%list
      /\ ((exists data, r = Ok data) \/ exists m, r = Err (ETransport m))).
Proof.
  intro Hk. rewrite readArea_resolve, Hk.
  destruct (amount a <? 0); [intro E; injection E as <- <-; now left|].
  rewrite readCall_run. intro E. injection E as <- <-. right. cbn [trace].
  split; [reflexivity|]. destruct (snd _); eauto.
Qed.

Lemma writeArea_unsupported (a : areaOptions) data (w w' : world St) e :
  writeArea a data w = (Err e, w') -> kindOf e = UnsupportedArea ->
  e = EAreaNotSupported (area a) /\ resolve (area a) = None /\ w' = w.
Proof.
  rewrite writeArea_resolve. destruct (resolve (area a)) as [k|].
  - rewrite writeCall_run. destruct (snd _) as [m|]; intro E; inversion E; subst;
      intro K; discriminate K.
  - intro E. injection E as <- <-. auto.
Qed.

Lemma runPoll_loop_unsupported fuel a format interval count :
  forall i (w w' : world St) e,
    runPoll_loop fuel a format interval count i w = (Err e, w') ->
    kindOf e = UnsupportedArea ->
    e = EAreaNotSupported (area a) /\ resolve (area a) = None /\ w' = w.
Proof.
  induction fuel as [|fuel IH]; intros i w w' e; cbn [runPoll_loop]; [discriminate|].
  unfold bindM at 1.
  destruct (readArea a w) as [[data|e0|p|] w1] eqn:Er; try discriminate.
  - (* the read returned *)
    unfold bindM at 1, lift at 1.
    destruct (formatData data format) as [out|e1|p|] eqn:Ef; try discriminate.
    + unfold bindM at 1. unfold bindM at 1, println, call.
      cbn [env trace].
      destruct ((count >? 0) && (to_int 64 (i + 1) >=? count)); [discriminate|].
      unfold bindM at 1, call. cbn [env trace].
      intros E Hk. destruct (IH _ _ _ _ E Hk) as (-> & Hres & _).
      exfalso. rewrite readArea_resolve, Hres in Er.
      destruct (amount a <? 0); discriminate.
    + intro E. injection E as <- _. intro Hk.
      destruct (formatData_err _ _ _ Ef) as [K|K]; rewrite K in Hk; discriminate.
  - intro E. injection E as <- <-. intro Hk.
    eapply readArea_unsupported; eauto.
Qed.

Lemma runRead_unsupported conn a format (w w' : world St) e :
  runRead conn a format w = (Err e, w') -> kindOf e = UnsupportedArea ->
  e = EAreaNotSupported (area a) /\ resolve (area a) = None
  /\ exists addr ct,
      trace w' = (trace w ++ [EvConnect addr (rack conn) (slot conn) ct; EvClose])%list.
Proof.
  unfold runRead. unfold bindM at 1.
  destruct (connect_run conn w) as (addr & ct & s' & r & -> & [->|[m ->]]).
  2:{ intro E. injection E as <- _. discriminate. }
  unfold defer. unfold bindM at 1.
  destruct (readArea a _) as [[data|e0|p|] w1] eqn:Er.
  - unfold bindM at 1, lift at 1.
    destruct (formatData data format) as [out|e1|p|] eqn:Ef.
    + unfold println, call. cbn [env trace]. discriminate.
    + intro E. injection E as <- _. intro Hk.
      destruct (formatData_err _ _ _ Ef) as [K|K]; rewrite K in Hk; discriminate.
    + discriminate.
    + discriminate.
  - intro E. injection E as <- <-. intro Hk.
    destruct (readArea_unsupported _ _ _ _ Er Hk) as (-> & Hres & ->).
    split; [reflexivity|]. split; [exact Hres|]. exists addr, ct.
    unfold plcClose. cbn [trace]. now rewrite <- app_assoc.
  - discriminate.
  - discriminate.
Qed.

Lemma runPoll_unsupported fuel conn a format interval count (w w' : world St) e :
  runPoll fuel conn a format interval count w = (Err e, w') -> kindOf e = UnsupportedArea ->
  e = EAreaNotSupported (area a) /\ resolve (area a) = None
  /\ exists addr ct,
      trace w' = (trace w ++ [EvConnect addr (rack conn) (slot conn) ct; EvClose])%list.
Proof.
  unfold runPoll. unfold bindM at 1.
  destruct (connect_run conn w) as (addr & ct & s' & r & -> & [->|[m ->]]).
  2:{ intro E. injection E as <- _. discriminate. }
  unfold defer.
  destruct (runPoll_loop fuel a format interval count 0 _) as [[u|e0|p|] w1] eqn:El;
    try discriminate.
  intro E. injection E as <- <-. intro Hk.
  destruct (runPoll_loop_unsupported _ _ _ _ _ _ _ _ _ El Hk) as (-> & Hres & ->).
  split; [reflexivity|]. split; [exact Hres|]. exists addr, ct.
  unfold plcClose. cbn [trace]. now rewrite <- app_assoc.
Qed.

Lemma runWrite_unsupported conn a format raw (w w' : world St) e :
  runWrite conn a format raw w = (Err e, w') -> kindOf e = UnsupportedArea ->
  e = EAreaNotSupported (area a) /\ resolve (area a) = None
  /\ exists addr ct,
      trace w' = (trace w ++ [EvConnect addr (rack conn) (slot conn) ct; EvClose])%list.
Proof.
  unfold runWrite. destruct (raw =? "")%string.
  { intro E. injection E as <- _. discriminate. }
  unfold bindM at 1, lift at 1.
  destruct (parseWriteData format raw) as [payload|e1|p|] eqn:Ep; try discriminate.
  2:{ intro E. injection E as <- _. intro Hk.
      destruct (parseWriteData_err _ _ _ Ep) as [K|K]; rewrite K in Hk; discriminate. }
  unfold bindM at 1.
  destruct (connect_run conn w) as (addr & ct & s' & r & -> & [->|[m ->]]).
  2:{ intro E. injection E as <- _. discriminate. }
  unfold defer.
  destruct (writeArea a payload _) as [[u|e0|p|] w1] eqn:Ew; try discriminate.
  intro E. injection E as <- <-. intro Hk.
  destruct (writeArea_unsupported _ _ _ _ _ Ew Hk) as (-> & Hres & ->).
  split; [reflexivity|]. split; [exact Hres|]. exists addr, ct.
  unfold plcClose. cbn [trace]. now rewrite <- app_assoc.
Qed.

End Commands.

(** C2, as the code has it: a command that fails with an unsupported-area
    error has opened the connection and closed it again, and has made no
    read or write call on the transport. The error is the one of
    [readArea] or [writeArea] for an area name that does not resolve. *)
Theorem C2_unsupported_area_before_area_calls :
  forall (P : Platform) (St : Type) (C : Client St)
         (conn : connOptions) (a : areaOptions) (format raw : string)
         (interval count : Z) (fuel : nat) (w w' : world St) (e : error),
    runRead conn a format w = (Err e, w')
    \/ runPoll fuel conn a format interval count w = (Err e, w')
    \/ runWrite conn a format raw w = (Err e, w') ->
    kindOf e = UnsupportedArea ->
    e = EAreaNotSupported (area a)
    /\ resolve (area a) = None
    /\ (exists addr ct,
          trace w' = (trace w ++ [EvConnect addr (rack conn) (slot conn) ct; EvClose])%list)
    /\ filter isAreaCall (trace w') = filter isAreaCall (trace w).
Proof.
  intros P St C conn a format raw interval count fuel w w' e Hrun Hk.
  assert (e = EAreaNotSupported (area a) /\ resolve (area a) = None
          /\ exists addr ct,
              trace w' = (trace w ++ [EvConnect addr (rack conn) (slot conn) ct; EvClose])%list)
    as (He & Hres & addr & ct & Ht).
  { destruct Hrun as [Hr|[Hr|Hr]].
    - eapply runRead_unsupported; eauto.
    - eapply runPoll_unsupported; eauto.
    - eapply runWrite_unsupported; eauto. }
  split; [exact He|]. split; [exact Hres|]. split; [eauto|].
  rewrite Ht, filter_app. cbn [filter isAreaCall]. apply app_nil_r.
Qed.

Section Poll.
Context `{Platform} {St : Type} `{Client St}.

Lemma readArea_ok_trace (a : areaOptions) (w w2 : world St) data :
  readArea a w = (Ok data, w2) ->
  exists k, resolve (area a) = Some k /\ trace w2 = (trace w ++ [readOp k a])%list.
Proof.
  rewrite readArea_resolve. destruct (amount a <? 0); [discriminate|].
  destruct (resolve (area a)) as [k|]; [|discriminate].
  rewrite readCall_run. intro E. inversion E. exists k. split; reflexivity.
Qed.


Lemma stepOf_readOp k a : stepOf (readOp k a) = Some Read.
Proof. destruct k; reflexivity. Qed.

End Poll.






(** * Further properties *)

(** ** Text and bytes, there and back *)

Lemma length_list_byte_of_string s :
  List.length (list_byte_of_string s) = String.length s.
Proof.
  unfold list_byte_of_string. rewrite length_map.
  induction s; cbn [list_ascii_of_string List.length String.length]; congruence.
Qed.

Lemma splitByte_app_token t : forall cur rest,
  allChars tokenChar t = true ->
  strings.splitByte "," cur (t ++ String "," rest)
  = (cur ++ t) :: strings.splitByte "," "" rest.
Proof.
  induction t as [|c t IH]; intros cur rest Ht; cbn [append strings.splitByte].
  - rewrite Ascii.eqb_refl. now rewrite append_nil_r.
  - cbn [allChars] in Ht. apply andb_true_iff in Ht as [Hc Ht].
    unfold tokenChar in Hc. apply andb_true_iff in Hc as [_ Hc].
    apply negb_true_iff in Hc. apply Z.eqb_neq in Hc.
    destruct (Ascii.eqb_spec c ","); [subst c; now contradiction Hc|].
    rewrite IH by exact Ht. now rewrite append_assoc.
Qed.

Lemma splitByte_concat toks : forall cur,
  Forall (fun t => allChars tokenChar t = true) toks ->
  strings.splitByte "," cur (String.concat "," toks)
  = match toks with
    | [] => [cur]
    | t :: rest => (cur ++ t) :: rest
    end.
Proof.
  induction toks as [|t toks IH]; intros cur Ht; [reflexivity|].
  inversion Ht as [|? ? H1 H2]; subst.
  destruct toks as [|t' toks].
  - cbn [String.concat]. now apply splitByte_token.
  - change (String.concat "," (t :: t' :: toks))
      with (t ++ String "," (String.concat "," (t' :: toks))).
    rewrite splitByte_app_token by exact H1. f_equal.
    rewrite IH by exact H2. reflexivity.
Qed.

Lemma splitValues_loop_tokens toks : forall res,
  Forall (fun t => t <> "" /\ allChars tokenChar t = true) toks ->
  splitValues_loop toks res = (res ++ toks)%list.
Proof.
  induction toks as [|t toks IH]; intros res Ht; cbn [splitValues_loop].
  - now rewrite app_nil_r.
  - inversion Ht as [|? ? [Hne Hc] H2]; subst.
    rewrite TrimSpace_token by exact Hc.
    destruct (String.eqb_spec t ""); [contradiction|]. cbn [negb].
    rewrite IH by exact H2. now rewrite <- app_assoc.
Qed.

Lemma splitValues_concat toks :
  Forall (fun t => t <> "" /\ allChars tokenChar t = true) toks ->
  splitValues (String.concat "," toks) = toks.
Proof.
  intro Ht. unfold splitValues.
  rewrite splitByte_concat by (eapply Forall_impl; [|exact Ht]; now intros t [_ Hc]).
  destruct toks as [|t toks]; [reflexivity|].
  cbn [append]. now rewrite splitValues_loop_tokens.
Qed.

Lemma signed_in_range_16 a b : inRange 16 (signedBigEndian [a; b]) = true.
Proof.
  rewrite <- to_int_16_signed. unfold to_int, inRange.
  pose proof (Z_of_byte_range a). pose proof (Z_of_byte_range b).
  change (2 ^ (16 - 1)) with 32768. change (2 ^ 16) with 65536.
  rewrite Z.mod_small by lia.
  destruct (Z.ltb_spec (Z_of_byte a * 256 + Z_of_byte b) 32768);
    apply andb_true_iff; split; try apply Z.leb_le; try apply Z.ltb_lt; lia.
Qed.

Lemma signed_in_range_32 a b c d : inRange 32 (signedBigEndian [a; b; c; d]) = true.
Proof.
  rewrite <- to_int_32_signed. unfold to_int, inRange.
  pose proof (Z_of_byte_range a). pose proof (Z_of_byte_range b).
  pose proof (Z_of_byte_range c). pose proof (Z_of_byte_range d).
  change (2 ^ (32 - 1)) with 2147483648. change (2 ^ 32) with 4294967296.
  rewrite Z.mod_small by lia.
  destruct (Z.ltb_spec (((Z_of_byte a * 256 + Z_of_byte b) * 256 + Z_of_byte c) * 256
                        + Z_of_byte d) 2147483648);
    apply andb_true_iff; split; try apply Z.leb_le; try apply Z.ltb_lt; lia.
Qed.

Lemma byte_of_Z_mod z : byte_of_Z (z mod 256) = byte_of_Z z.
Proof. unfold byte_of_Z. rewrite Z.mod_mod by lia. reflexivity. Qed.

Lemma byte_of_Z_low q b : byte_of_Z (q * 256 + Z_of_byte b) = b.
Proof.
  rewrite <- byte_of_Z_mod. rewrite Z.add_comm, Z.mod_add by lia.
  rewrite Z.mod_small by apply Z_of_byte_range. apply byte_of_Z_of_byte.
Qed.

Lemma div_256 q b : (q * 256 + Z_of_byte b) / 256 = q.
Proof.
  pose proof (Z_of_byte_range b).
  rewrite Z.add_comm, Z.div_add by lia. rewrite Z.div_small by lia. lia.
Qed.

Lemma to_uint_to_int bits u :
  1 <= bits -> 0 <= u < 2 ^ bits -> to_uint bits (to_int bits u) = u.
Proof.
  intros Hb Hu. unfold to_uint, to_int.
  destruct (pow2_half bits Hb) as [P1 P2].
  rewrite (Z.mod_small u) by lia.
  generalize dependent (2 ^ (bits - 1)). intros h P1 P2.
  rewrite P2 in *. clear P2.
  destruct (Z.ltb_spec u h).
  - apply Z.mod_small. lia.
  - symmetry. apply Z.mod_unique with (q := -1); lia.
Qed.

Lemma PutUint16_signed a b :
  binary.PutUint16 (to_uint 16 (signedBigEndian [a; b])) = [a; b].
Proof.
  rewrite <- to_int_16_signed.
  pose proof (Z_of_byte_range a). pose proof (Z_of_byte_range b).
  rewrite to_uint_to_int by (change (2 ^ 16) with 65536; lia).
  unfold binary.PutUint16. rewrite Z.shiftr_div_pow2 by lia. change (2 ^ 8) with 256.
  rewrite div_256, byte_of_Z_low, byte_of_Z_of_byte. reflexivity.
Qed.

Lemma PutUint32_signed a b c d :
  binary.PutUint32 (to_uint 32 (signedBigEndian [a; b; c; d])) = [a; b; c; d].
Proof.
  rewrite <- to_int_32_signed.
  pose proof (Z_of_byte_range a). pose proof (Z_of_byte_range b).
  pose proof (Z_of_byte_range c). pose proof (Z_of_byte_range d).
  rewrite to_uint_to_int by (change (2 ^ 32) with 4294967296; lia).
  unfold binary.PutUint32. rewrite !Z.shiftr_div_pow2 by lia.
  change (2 ^ 8) with 256. change (2 ^ 16) with (256 * 256).
  change (2 ^ 24) with (256 * 256 * 256).
  rewrite <- !Z.div_div by lia.
  rewrite !div_256, !byte_of_Z_low, byte_of_Z_of_byte. reflexivity.
Qed.

Lemma inRange_int64 bits v :
  1 <= bits <= 64 -> inRange bits v = true -> - 2 ^ 63 <= v < 2 ^ 63.
Proof.
  intros Hb Hr. unfold inRange in Hr. apply andb_true_iff in Hr as [H1 H2].
  apply Z.leb_le in H1. apply Z.ltb_lt in H2.
  pose proof (Z.pow_le_mono_r 2 (bits - 1) 63 ltac:(lia) ltac:(lia)). lia.
Qed.

Lemma encodeInts_loop_decimal vals : forall size out,
  size = 2 \/ size = 4 ->
  Forall (fun v => inRange (size * 8) v = true) vals ->
  encodeInts_loop (List.map fmt.Sprintf_d vals) size out
  = Ok (fold_left
          (fun out v =>
             if size =? 2 then (out ++ binary.PutUint16 (to_uint 16 v))%list
             else if size =? 4 then (out ++ binary.PutUint32 (to_uint 32 v))%list
                  else out) vals out).
Proof.
  induction vals as [|v vals IH]; intros size out Hs Hr; [reflexivity|].
  inversion Hr as [|? ? Hv Hr']; subst.
  cbn [List.map encodeInts_loop fold_left].
  rewrite parseInt_decimal;
    [|exact Hs|apply (inRange_int64 (size * 8)); [lia|exact Hv]].
  rewrite Hv. cbn [bind]. now apply IH.
Qed.

Lemma chunks2_rebuild k : forall data,
  List.length data = (2 * k)%nat ->
  flat_map (fun v => binary.PutUint16 (to_uint 16 v))
           (List.map signedBigEndian (chunks2 data)) = data
  /\ Forall (fun v => inRange 16 v = true) (List.map signedBigEndian (chunks2 data)).
Proof.
  induction k as [|k IH]; intros data Hl.
  - destruct data; [split; [reflexivity|constructor]|discriminate].
  - destruct data as [|a [|b data]]; try (cbn in Hl; lia).
    destruct (IH data ltac:(cbn in Hl; lia)) as [I1 I2].
    cbn [chunks2 List.map flat_map]. rewrite PutUint16_signed, I1.
    split; [reflexivity|]. constructor; [apply signed_in_range_16|exact I2].
Qed.

Lemma chunks4_rebuild k : forall data,
  List.length data = (4 * k)%nat ->
  flat_map (fun v => binary.PutUint32 (to_uint 32 v))
           (List.map signedBigEndian (chunks4 data)) = data
  /\ Forall (fun v => inRange 32 v = true) (List.map signedBigEndian (chunks4 data)).
Proof.
  induction k as [|k IH]; intros data Hl.
  - destruct data; [split; [reflexivity|constructor]|discriminate].
  - destruct data as [|a [|b [|c [|d data]]]]; try (cbn in Hl; lia).
    destruct (IH data ltac:(cbn in Hl; lia)) as [I1 I2].
    cbn [chunks4 List.map flat_map]. rewrite PutUint32_signed, I1.
    split; [reflexivity|]. constructor; [apply signed_in_range_32|exact I2].
Qed.

Lemma even_length k (data : list byte) : len data mod k = 0 -> 0 < k ->
  List.length data = (Z.to_nat k * (List.length data / Z.to_nat k))%nat.
Proof.
  intros E Hk. apply Nat.Div0.div_exact.
  apply Nat2Z.inj. rewrite Nat2Z.inj_mod. rewrite Z2Nat.id by lia. exact E.
Qed.

Lemma decimal_tokens vals :
  Forall (fun v => - 2 ^ 63 <= v < 2 ^ 63) vals ->
  Forall (fun t => t <> "" /\ allChars tokenChar t = true) (List.map fmt.Sprintf_d vals).
Proof.
  induction 1 as [|v vals Hv _ IH]; cbn [List.map]; constructor; auto.
  now apply Sprintf_d_token.
Qed.

Section BytesTextBytes.
Context `{Platform}.

Lemma bytes_text_bytes_16 data :
  len data mod 2 = 0 ->
  exists text, formatData data "int16" = Ok text /\ parseWriteData "int16" text = Ok data.
Proof.
  intro E.
  destruct (chunks2_rebuild _ data (even_length 2 data E ltac:(lia))) as [Hb Hr].
  exists (joinInts (List.map signedBigEndian (chunks2 data))). split.
  - change (formatData data "int16") with (vals <- decodeInts data 2 ;; Ok (joinInts vals)).
    rewrite decodeInts_2, E. reflexivity.
  - change (parseWriteData "int16" ?t) with (encodeInts t 2).
    unfold encodeInts, joinInts, strings.Join.
    rewrite splitValues_concat.
    + rewrite encodeInts_loop_decimal by (auto; exact Hr).
      cbn [Z.eqb Pos.eqb]. rewrite fold_put16. cbn [app]. now rewrite Hb.
    + apply decimal_tokens. eapply Forall_impl; [|exact Hr].
      intros v Hv. apply (inRange_int64 16); [lia|exact Hv].
Qed.

Lemma bytes_text_bytes_32 data :
  len data mod 4 = 0 ->
  exists text, formatData data "int32" = Ok text /\ parseWriteData "int32" text = Ok data.
Proof.
  intro E.
  destruct (chunks4_rebuild _ data (even_length 4 data E ltac:(lia))) as [Hb Hr].
  exists (joinInts (List.map signedBigEndian (chunks4 data))). split.
  - change (formatData data "int32") with (vals <- decodeInts data 4 ;; Ok (joinInts vals)).
    rewrite decodeInts_4, E. reflexivity.
  - change (parseWriteData "int32" ?t) with (encodeInts t 4).
    unfold encodeInts, joinInts, strings.Join.
    rewrite splitValues_concat.
    + rewrite encodeInts_loop_decimal by (auto; exact Hr).
      cbn [Z.eqb Pos.eqb]. rewrite fold_put32. cbn [app]. now rewrite Hb.
    + apply decimal_tokens. eapply Forall_impl; [|exact Hr].
      intros v Hv. apply (inRange_int64 32); [lia|exact Hv].
Qed.

End BytesTextBytes.

(** ** The codec never indexes out of range *)

Lemma list_set_some {A} (l : list A) : forall i v,
  (i < List.length l)%nat ->
  exists l', list_set l i v = Some l' /\ List.length l' = List.length l.
Proof.
  induction l as [|h t IH]; intros i v Hi; [cbn in Hi; lia|].
  destruct i as [|j]; cbn [list_set].
  - eexists. split; reflexivity.
  - destruct (IH j v ltac:(cbn in Hi; lia)) as (l' & -> & Hl).
    eexists. split; [reflexivity|]. cbn. now rewrite Hl.
Qed.

Lemma parseHex_loop_returns fuel clean : forall i out,
  0 <= i <= slen clean -> i mod 2 = 0 -> slen clean mod 2 = 0 ->
  2 * len out = slen clean -> slen clean - i < 2 * Z.of_nat fuel ->
  (exists B, parseHex_loop fuel clean i out = Ok B /\ len B = len out)
  \/ (exists e, parseHex_loop fuel clean i out = Err e).
Proof.
  induction fuel as [|fuel IH]; intros i out Hi Hie Hce Hout Hf; [lia|].
  cbn [parseHex_loop]. destruct (Z.ltb_spec i (slen clean)) as [Hlt|Hge].
  - assert (i + 2 <= slen clean) as Hi2.
    { rewrite (Z.div_mod i 2), (Z.div_mod (slen clean) 2) in Hlt |- * by lia. lia. }
    unfold str_slice.
    replace ((0 <=? i) && (i <=? i + 2) && (i + 2 <=? slen clean)) with true
      by (symmetry; rewrite !andb_true_iff, !Z.leb_le; lia).
    cbn [orPanic bind]. destruct (fmt.Sscanf_02X _) as [err|v]; [right; eauto|].
    destruct (list_set_some out (Z.to_nat (i / 2)) v) as (out' & -> & Hl).
    { apply Nat2Z.inj_lt. rewrite Z2Nat.id by (apply Z.div_pos; lia).
      fold (len out). apply Z.div_lt_upper_bound; lia. }
    cbn [orPanic bind].
    assert (len out' = len out) as Hl' by (unfold len; now rewrite Hl).
    destruct (IH (i + 2) out') as [(B & -> & HB)|(e & ->)];
      try lia; [| left; exists B; split; [reflexivity|lia] | right; eauto].
    rewrite <- Z.add_mod_idemp_l, Hie by lia. reflexivity.
  - left. eauto.
Qed.

Lemma rem_mod_len n k : 0 <= n -> 0 < k -> Z.rem n k = n mod k.
Proof. intros. apply Z.rem_mod_nonneg; lia. Qed.

Lemma parseHex_returns s :
  (exists B, parseHex s = Ok B /\ 2 * len B = slen (cleanHex s))
  \/ (exists e, parseHex s = Err e).
Proof.
  unfold parseHex. fold (cleanHex s). set (clean := cleanHex s).
  assert (0 <= slen clean) as Hn by (unfold slen; lia).
  rewrite rem_mod_len by lia.
  destruct (Z.eqb_spec (slen clean mod 2) 0) as [He|Ho]; cbn [negb]; [|right; eauto].
  assert (2 * len (repeat x00 (Z.to_nat (slen clean / 2))) = slen clean) as Hl.
  { unfold len. rewrite repeat_length, Z2Nat.id by (apply Z.div_pos; lia).
    rewrite (Z.div_mod (slen clean) 2) at 2 by lia. lia. }
  destruct (parseHex_loop_returns (S (String.length clean)) clean 0
              (repeat x00 (Z.to_nat (slen clean / 2))))
    as [(B & -> & HB)|(e & ->)]; try (unfold slen in *; lia); try reflexivity.
  - left. exists B. split; [reflexivity|]. lia.
  - right. eauto.
Qed.

Lemma Uint32_some (b : list byte) :
  (4 <= List.length b)%nat -> exists u, binary.Uint32 b = Some u.
Proof.
  destruct b as [|b0 [|b1 [|b2 [|b3 r]]]]; cbn [List.length]; try lia.
  intros _. eexists. reflexivity.
Qed.

Section CodecReturns.
Context `{Platform}.

Lemma formatFloats_loop_returns fuel data : forall i out,
  0 <= i <= len data -> (len data - i) mod 4 = 0 -> len data - i < 4 * Z.of_nat fuel ->
  exists o, formatFloats_loop fuel data i out = Ok o.
Proof.
  induction fuel as [|fuel IH]; intros i out Hi Hm Hf; [lia|].
  cbn [formatFloats_loop]. destruct (Z.ltb_spec i (len data)) as [Hlt|Hge]; [|eauto].
  assert (i + 4 <= len data) as Hi4.
  { assert (4 <> 0) as H4 by lia.
    pose proof (Z.div_mod (len data - i) 4 H4) as D. rewrite Hm in D. lia. }
  unfold slice_from.
  replace ((0 <=? i) && (i <=? len data)) with true
    by (symmetry; rewrite andb_true_iff, !Z.leb_le; lia).
  cbn [orPanic bind].
  destruct (Uint32_some (skipn (Z.to_nat i) data)) as (u & ->).
  { rewrite length_skipn. unfold len in *. lia. }
  cbn [orPanic bind]. apply IH; try lia.
  replace (len data - (i + 4)) with (len data - i + (-1) * 4) by lia.
  now rewrite Z.mod_add by lia.
Qed.

Lemma encodeFloats_loop_returns parts : forall out,
  returned (encodeFloats_loop parts out) = true.
Proof.
  induction parts as [|p parts IH]; intro out; cbn [encodeFloats_loop]; [reflexivity|].
  unfold parseFloat. destruct (strconv_ParseFloat32 p) as [v [err|]]; cbn [bind];
    [reflexivity|apply IH].
Qed.

Lemma formatData_returns data format : returned (formatData data format) = true.
Proof.
  unfold formatData. generalize (strings.ToLower format). intro f.
  destruct (f =? "hex")%string; [reflexivity|].
  destruct ((f =? "string")%string || (f =? "str")%string); [reflexivity|].
  destruct (f =? "int16")%string.
  { rewrite decodeInts_2. destruct (_ =? 0); reflexivity. }
  destruct (f =? "int32")%string.
  { rewrite decodeInts_4. destruct (_ =? 0); reflexivity. }
  destruct ((f =? "float32")%string || (f =? "float")%string); [|reflexivity].
  assert (0 <= len data) as Hn by (unfold len; lia).
  rewrite rem_mod_len by lia.
  destruct (Z.eqb_spec (len data mod 4) 0) as [He|Ho]; cbn [negb]; [|reflexivity].
  destruct (formatFloats_loop_returns (S (List.length data)) data 0 []) as (o & ->);
    try (unfold len in *; lia); [|reflexivity].
  now rewrite Z.sub_0_r.
Qed.

Lemma parseWriteData_returns format raw : returned (parseWriteData format raw) = true.
Proof.
  unfold parseWriteData. generalize (strings.ToLower format). intro f.
  destruct (f =? "hex")%string.
  { destruct (parseHex_returns raw) as [(B & -> & _)|(e & ->)]; reflexivity. }
  destruct ((f =? "string")%string || (f =? "str")%string); [reflexivity|].
  destruct (f =? "int16")%string.
  { unfold encodeInts.
    destruct (encodeInts_loop_total (splitValues raw) 2 []) as [(B & ->)|(e & ->)];
      reflexivity. }
  destruct (f =? "int32")%string.
  { unfold encodeInts.
    destruct (encodeInts_loop_total (splitValues raw) 4 []) as [(B & ->)|(e & ->)];
      reflexivity. }
  destruct ((f =? "float32")%string || (f =? "float")%string); [|reflexivity].
  apply encodeFloats_loop_returns.
Qed.

Lemma format_names_agree data format raw :
  formatData data format = Err (EUnknownFormat format)
  <-> parseWriteData format raw = Err (EUnknownFormat format).
Proof.
  unfold formatData, parseWriteData. generalize (strings.ToLower format). intro f.
  destruct (f =? "hex")%string.
  { split; [discriminate|]. intro E.
    apply parseHex_err in E. discriminate E. }
  destruct ((f =? "string")%string || (f =? "str")%string); [split; discriminate|].
  destruct (f =? "int16")%string.
  { split; intro E.
    - destruct (decodeInts data 2) eqn:Ed; cbn [bind] in E; try discriminate.
      apply decodeInts_err in Ed. congruence.
    - apply encodeInts_rejects in E as (tok & cause & _ & E & _). discriminate E. }
  destruct (f =? "int32")%string.
  { split; intro E.
    - destruct (decodeInts data 4) eqn:Ed; cbn [bind] in E; try discriminate.
      apply decodeInts_err in Ed. congruence.
    - apply encodeInts_rejects in E as (tok & cause & _ & E & _). discriminate E. }
  destruct ((f =? "float32")%string || (f =? "float")%string); [|tauto].
  split; intro E.
  - destruct (negb _); [discriminate|].
    destruct (formatFloats_loop _ _ _ _) eqn:El; cbn [bind] in E; try discriminate.
    now apply formatFloats_loop_no_err in El.
  - apply encodeFloats_loop_err in E as (tok & cause & E). discriminate E.
Qed.
End CodecReturns.

(** ** The tokens of a value list *)

Lemma length_substring_le s : forall n m, (String.length (substring n m s) <= m)%nat.
Proof.
  induction s as [|c s IH]; intros n m.
  - destruct n, m; cbn; lia.
  - destruct n as [|n]; [destruct m as [|m]|]; cbn [substring String.length].
    + lia.
    + specialize (IH 0%nat m). lia.
    + apply IH.
Qed.

Lemma substring_all s : substring 0 (String.length s) s = s.
Proof. induction s as [|c s IH]; [reflexivity|]. cbn [String.length substring]. now rewrite IH. Qed.

Lemma trimLeft_substring p fuel : forall s,
  allChars p s = true -> allChars p (strings.trimLeft fuel s) = true.
Proof.
  induction fuel as [|fuel IH]; intros s Hs; [exact Hs|].
  cbn [strings.trimLeft]. destruct (strings.spaceWidth s); [exact Hs|].
  apply IH. now apply allChars_substring.
Qed.

Lemma trimRight_substring p fuel : forall s,
  allChars p s = true -> allChars p (strings.trimRight fuel s) = true.
Proof.
  induction fuel as [|fuel IH]; intros s Hs; [exact Hs|].
  cbn [strings.trimRight]. destruct (strings.spaceWidthLast s); [exact Hs|].
  apply IH. now apply allChars_substring.
Qed.

Lemma trimLeft_done fuel : forall s,
  (String.length s <= fuel)%nat -> strings.spaceWidth (strings.trimLeft fuel s) = 0%nat.
Proof.
  induction fuel as [|fuel IH]; intros s Hl.
  - destruct s; [reflexivity|cbn in Hl; lia].
  - cbn [strings.trimLeft]. destruct (strings.spaceWidth s) as [|w] eqn:E; [exact E|].
    apply IH. pose proof (length_substring_le s (S w) (String.length s - S w)). lia.
Qed.

Lemma trimRight_done fuel : forall s,
  (String.length s <= fuel)%nat ->
  strings.spaceWidthLast (strings.trimRight fuel s) = 0%nat.
Proof.
  induction fuel as [|fuel IH]; intros s Hl.
  - destruct s; [reflexivity|cbn in Hl; lia].
  - cbn [strings.trimRight]. destruct (strings.spaceWidthLast s) as [|w] eqn:E; [exact E|].
    apply IH. pose proof (length_substring_le s 0 (String.length s - S w)). lia.
Qed.

Lemma spaceWidth_first s c :
  strings.spaceWidth s = 0%nat -> firstChar s = Some c -> strings.asciiSpace c = false.
Proof.
  destruct s as [|d r]; [discriminate|]. cbn [firstChar]. intros E Ec.
  injection Ec as ->. unfold strings.spaceWidth in E.
  destruct (strings.asciiSpace c); [discriminate|reflexivity].
Qed.

Lemma firstChar_prefix s m c :
  firstChar (substring 0 m s) = Some c -> firstChar s = Some c.
Proof. destruct s, m; cbn; congruence. Qed.

Lemma trimRight_first fuel : forall s c,
  (forall c, firstChar s = Some c -> strings.asciiSpace c = false) ->
  firstChar (strings.trimRight fuel s) = Some c -> strings.asciiSpace c = false.
Proof.
  induction fuel as [|fuel IH]; intros s c Hs; [apply Hs|].
  cbn [strings.trimRight]. destruct (strings.spaceWidthLast s); [apply Hs|].
  apply IH. intros d Hd. apply Hs. eapply firstChar_prefix; eauto.
Qed.

Lemma get_substring s : forall n c,
  String.get n s = Some c -> substring n 1 s = String c "".
Proof.
  induction s as [|d s IH]; intros n c; [destruct n; discriminate|].
  destruct n as [|n]; cbn [String.get substring].
  - intro E. injection E as ->. destruct s; reflexivity.
  - apply IH.
Qed.

Lemma spaceWidthLast_last s c :
  strings.spaceWidthLast s = 0%nat -> lastChar s = Some c -> strings.asciiSpace c = false.
Proof.
  unfold lastChar, strings.spaceWidthLast. intros E Ec.
  destruct s as [|d r]; [discriminate|].
  rewrite (get_substring _ _ _ Ec) in E.
  change (1 <=? String.length (String d r))%nat with true in E. cbn [andb] in E.
  unfold strings.spaceWidth at 1 in E.
  destruct (strings.asciiSpace c); [discriminate|reflexivity].
Qed.

Lemma TrimSpace_shape p s :
  allChars p s = true ->
  allChars p (strings.TrimSpace s) = true
  /\ (forall c, firstChar (strings.TrimSpace s) = Some c -> strings.asciiSpace c = false)
  /\ (forall c, lastChar (strings.TrimSpace s) = Some c -> strings.asciiSpace c = false).
Proof.
  intro Hs. unfold strings.TrimSpace. split; [|split].
  - apply trimRight_substring. now apply trimLeft_substring.
  - intro c. apply trimRight_first. intro d. apply spaceWidth_first.
    now apply trimLeft_done.
  - intro c. apply spaceWidthLast_last. now apply trimRight_done.
Qed.

Lemma splitByte_pieces p s : forall cur,
  allChars p cur = true ->
  allChars (fun c => p c || (c =? ",")%char) s = true ->
  Forall (fun piece => allChars p piece = true) (strings.splitByte "," cur s).
Proof.
  induction s as [|c s IH]; intros cur Hc Hs; cbn [strings.splitByte].
  - constructor; [exact Hc|constructor].
  - cbn [allChars] in Hs. apply andb_true_iff in Hs as [Hh Hs].
    destruct (Ascii.eqb_spec c ",") as [->|Hne].
    + constructor; [exact Hc|]. now apply IH.
    + apply IH; [|exact Hs]. rewrite allChars_app, Hc. cbn [allChars].
      rewrite andb_true_r. apply orb_true_iff in Hh as [Hh|Hh];
        [exact Hh|discriminate Hh].
Qed.

Lemma noComma_any s : allChars (fun c => noComma c || (c =? ",")%char) s = true.
Proof.
  induction s as [|c s IH]; [reflexivity|]. cbn [allChars]. rewrite IH.
  unfold noComma. destruct (c =? ",")%char; reflexivity.
Qed.

Lemma splitValues_loop_In items : forall res t,
  In t (splitValues_loop items res) ->
  In t res \/ exists item, In item items /\ t = strings.TrimSpace item /\ t <> "".
Proof.
  induction items as [|item items IH]; intros res t Ht; cbn [splitValues_loop] in Ht;
    [now left|].
  destruct (String.eqb_spec (strings.TrimSpace item) "") as [E|E]; cbn [negb] in Ht;
    apply IH in Ht.
  - destruct Ht as [Ht|(i & Hi & Hti)]; [now left|right; exists i; split; [now right|exact Hti]].
  - destruct Ht as [Ht|(i & Hi & Hti)].
    + apply in_app_or in Ht as [Ht|[<-|[]]]; [now left|].
      right. exists item. split; [now left|]. split; [reflexivity|exact E].
    + right. exists i. split; [now right|exact Hti].
Qed.

Lemma splitValues_tokens raw t :
  In t (splitValues raw) ->
  t <> "" /\ allChars noComma t = true
  /\ (forall c, firstChar t = Some c -> strings.asciiSpace c = false)
  /\ (forall c, lastChar t = Some c -> strings.asciiSpace c = false).
Proof.
  intro Ht. unfold splitValues in Ht.
  apply splitValues_loop_In in Ht as [[]|(item & Hi & -> & Hne)].
  split; [exact Hne|]. apply TrimSpace_shape.
  pose proof (splitByte_pieces noComma raw "" eq_refl (noComma_any raw)) as HF.
  rewrite Forall_forall in HF. now apply HF.
Qed.

(** ** A value list without values *)

Lemma trimLeft_spaces s : forall fuel,
  (String.length s <= fuel)%nat -> allChars strings.asciiSpace s = true ->
  strings.trimLeft fuel s = "".
Proof.
  induction s as [|c s IH]; intros fuel Hf Hs.
  - destruct fuel; reflexivity.
  - destruct fuel as [|fuel]; [cbn in Hf; lia|].
    cbn [allChars] in Hs. apply andb_true_iff in Hs as [Hc Hs].
    cbn [strings.trimLeft]. unfold strings.spaceWidth. rewrite Hc.
    change (substring 1 (String.length (String c s) - 1) (String c s))
      with (substring 0 (String.length s - 0) s).
    rewrite Nat.sub_0_r, substring_all.
    apply IH; [cbn in Hf; lia|exact Hs].
Qed.

Lemma TrimSpace_spaces s :
  allChars strings.asciiSpace s = true -> strings.TrimSpace s = "".
Proof.
  intro Hs. unfold strings.TrimSpace. now rewrite trimLeft_spaces.
Qed.

Lemma splitValues_loop_blank items : forall res,
  Forall (fun piece => allChars strings.asciiSpace piece = true) items ->
  splitValues_loop items res = res.
Proof.
  induction items as [|item items IH]; intros res HF; [reflexivity|].
  inversion HF as [|? ? Hi HF']; subst. cbn [splitValues_loop].
  rewrite TrimSpace_spaces by exact Hi. cbn [String.eqb negb]. now apply IH.
Qed.

Lemma splitValues_blank raw :
  allChars blankChar raw = true -> splitValues raw = [].
Proof.
  intro Hb. unfold splitValues. apply splitValues_loop_blank.
  apply splitByte_pieces; [reflexivity|].
  revert Hb. apply allChars_impl. intros c Hc. unfold blankChar in Hc.
  apply orb_true_iff in Hc as [Hc|Hc]; [now rewrite Hc|].
  apply Z.eqb_eq in Hc. apply orb_true_iff. right.
  apply Ascii.eqb_eq. rewrite <- (ascii_of_Z_of_ascii c), Hc. reflexivity.
Qed.

Section Blank.
Context `{Platform}.

Lemma blank_values_empty_payload raw :
  allChars blankChar raw = true ->
  parseWriteData "int16" raw = Ok []
  /\ parseWriteData "int32" raw = Ok []
  /\ parseWriteData "float32" raw = Ok [].
Proof.
  intro Hb.
  change (parseWriteData "int16" raw) with (encodeInts raw 2).
  change (parseWriteData "int32" raw) with (encodeInts raw 4).
  change (parseWriteData "float32" raw) with (encodeFloats raw).
  unfold encodeInts, encodeFloats. rewrite splitValues_blank by exact Hb.
  repeat split.
Qed.
End Blank.

(** ** Lengths *)

Lemma encodeInts_length size raw B :
  size = 2 \/ size = 4 -> encodeInts raw size = Ok B ->
  len B = size * len (splitValues raw).
Proof.
  intros Hs He. unfold encodeInts in He.
  apply encodeInts_loop_ok in He as (vals & HF & ->).
  assert (len (splitValues raw) = len vals) as ->.
  { unfold len. f_equal. clear -HF. induction HF; cbn; congruence. }
  destruct Hs as [-> | ->]; cbn [Z.eqb Pos.eqb];
    rewrite ?fold_put16, ?fold_put32; cbn [app]; clear;
    induction vals as [|v vals IH]; try reflexivity;
    cbn [flat_map]; rewrite len_app, IH; unfold len; cbn [List.length binary.PutUint16 binary.PutUint32]; lia.
Qed.

Lemma length_hexPair b : String.length (fmt.Sprintf_02X b) = 2%nat.
Proof. destruct b; reflexivity. Qed.

Lemma bytesToHex_loop_length data : forall i b, i > 0 ->
  slen (bytesToHex_loop data i b) = slen b + 3 * len data.
Proof.
  induction data as [|v rest IH]; intros i b Hi; cbn [bytesToHex_loop].
  - unfold len. cbn. lia.
  - destruct (i >? 0) eqn:E; [|lia]. rewrite IH by lia.
    rewrite !slen_append. unfold slen at 2 3. rewrite length_hexPair.
    unfold len. cbn [List.length String.length]. lia.
Qed.

Lemma bytesToHex_length B :
  B <> [] -> slen (bytesToHex B) = 3 * len B - 1.
Proof.
  destruct B as [|b rest]; [congruence|]. intros _.
  unfold bytesToHex. cbn [bytesToHex_loop Z.gtb Z.compare].
  rewrite bytesToHex_loop_length by lia. rewrite slen_append.
  unfold slen at 1 2. rewrite length_hexPair.
  unfold len. cbn [List.length String.length]. lia.
Qed.

(** ** The commands, outcome by outcome *)

Lemma overwrite_length buf data :
  List.length (overwrite buf data) = List.length buf.
Proof.
  unfold overwrite. rewrite length_firstn, length_app, length_skipn. lia.
Qed.

Lemma negb_isSession_readOp k a : negb (isSession (readOp k a)) = true.
Proof. destruct k; reflexivity. Qed.

Lemma negb_isSession_writeOp k a d : negb (isSession (writeOp k a d)) = true.
Proof. destruct k; reflexivity. Qed.

Lemma isPrint_readOp k a : isPrint (readOp k a) = false.
Proof. destruct k; reflexivity. Qed.

Section Outcomes.
Context `{Platform} {St : Type} `{Client St}.

Lemma connect_opened (conn : connOptions) (w : world St) :
  exists c s' r,
    opened c = true
    /\ connect conn w = (r, mkWorld s' (trace w ++ [c])%list)
    /\ (r = Ok tt \/ exists m, r = Err (EConnect m)).
Proof.
  destruct (connect_run conn w) as (addr & ct & s' & r & E & Hr).
  exists (EvConnect addr (rack conn) (slot conn) ct), s', r. auto.
Qed.

Lemma readArea_run (a : areaOptions) (w w' : world St) r :
  readArea a w = (r, w') ->
  (r = Panic MakeSliceLenOutOfRange /\ amount a < 0 /\ w' = w)
  \/ (r = Err (EAreaNotSupported (area a)) /\ resolve (area a) = None /\ 0 <= amount a
      /\ w' = w)
  \/ (exists k, resolve (area a) = Some k /\ 0 <= amount a
                /\ trace w' = (trace w ++ [readOp k a])%list
                /\ ((exists m, r = Err (ETransport m))
                    \/ exists data, r = Ok data /\ len data = amount a)).
Proof.
  rewrite readArea_resolve. destruct (Z.ltb_spec (amount a) 0) as [Hn|Hp].
  { intro E. injection E as <- <-. now left. }
  destruct (resolve (area a)) as [k|].
  2:{ intro E. injection E as <- <-. right. left. auto. }
  rewrite readCall_run. intro E. injection E as <- <-. right. right.
  exists k. split; [reflexivity|]. split; [exact Hp|]. split; [reflexivity|].
  destruct (snd _) as [m|]; [left; eauto|right]. eexists. split; [reflexivity|].
  unfold len. rewrite overwrite_length, repeat_length. lia.
Qed.

Lemma writeArea_run (a : areaOptions) (data : list byte) (w w' : world St) r :
  writeArea a data w = (r, w') ->
  (r = Err (EAreaNotSupported (area a)) /\ resolve (area a) = None /\ w' = w)
  \/ (exists k, resolve (area a) = Some k
                /\ trace w' = (trace w ++ [writeOp k a data])%list
                /\ (r = Ok tt \/ exists m, r = Err (ETransport m))).
Proof.
  rewrite writeArea_resolve. destruct (resolve (area a)) as [k|].
  2:{ intro E. injection E as <- <-. now left. }
  rewrite writeCall_run. intro E. injection E as <- <-. right.
  exists k. split; [reflexivity|]. split; [reflexivity|].
  destruct (snd _) as [m|]; eauto.
Qed.

(** Every way [runRead] ends. *)
Lemma runRead_run conn a format (w w' : world St) r :
  runRead conn a format w = (r, w') ->
  exists c r0 w0,
    opened c = true /\ connect conn w = (r0, w0) /\ trace w0 = (trace w ++ [c])%list
    /\ ((exists m, r0 = Err (EConnect m) /\ r = Err (EConnect m) /\ w' = w0)
        \/ (r0 = Ok tt
            /\ ((r = Panic MakeSliceLenOutOfRange /\ amount a < 0 /\ w' = plcClose w0)
                \/ (r = Err (EAreaNotSupported (area a)) /\ resolve (area a) = None
                    /\ w' = plcClose w0)
                \/ (exists k w1,
                      resolve (area a) = Some k /\ 0 <= amount a
                      /\ trace w1 = (trace w0 ++ [readOp k a])%list
                      /\ ((exists m, readArea a w0 = (Err (ETransport m), w1)
                                     /\ r = Err (ETransport m) /\ w' = plcClose w1)
                          \/ (exists data,
                                readArea a w0 = (Ok data, w1) /\ len data = amount a
                                /\ ((exists e, formatData data format = Err e
                                               /\ r = Err e /\ w' = plcClose w1)
                                    \/ (exists out,
                                          formatData data format = Ok out /\ r = Ok tt
                                          /\ w' = plcClose
                                                    (mkWorld (env w1)
                                                       (trace w1
                                                        ++ [EvPrint (out ++ String "010"%char "")])%list))))))))).
Proof.
  unfold runRead. unfold bindM at 1.
  destruct (connect_opened conn w) as (c & s' & r0 & Hc & Eco & Hr0).
  rewrite Eco. intro E. exists c, r0, (mkWorld s' (trace w ++ [c])%list).
  split; [exact Hc|]. split; [reflexivity|]. split; [reflexivity|]. revert E.
  destruct Hr0 as [->|[m ->]].
  2:{ intro E. injection E as <- <-. left. exists m. auto. }
  intro E. right. split; [reflexivity|]. revert E.
  unfold defer. unfold bindM at 1.
  destruct (readArea a _) as [r1 w1] eqn:Er. pose proof Er as Er'.
  apply readArea_run in Er'
    as [(-> & Hn & ->)|[(-> & Hres & Hp & ->)|(k & Hres & Hp & Ht & Hr)]].
  - intro E. injection E as <- <-. left. auto.
  - intro E. injection E as <- <-. right. left. auto.
  - intro E. right. right. exists k, w1. split; [exact Hres|]. split; [exact Hp|].
    split; [exact Ht|]. revert E.
    destruct Hr as [(m & ->)|(data & -> & Hl)].
    + intro E. injection E as <- <-. left. exists m. auto.
    + unfold bindM at 1, lift at 1.
      pose proof (formatData_returns data format) as Hret.
      destruct (formatData data format) as [out|e| |] eqn:Ef; try discriminate Hret.
      * unfold println, call. cbn [env trace]. intro E. injection E as <- <-.
        right. exists data. split; [reflexivity|]. split; [exact Hl|].
        right. exists out. auto.
      * intro E. injection E as <- <-. right. exists data.
        split; [reflexivity|]. split; [exact Hl|]. left. exists e. auto.
Qed.

(** Every way [runWrite] ends. *)
Lemma runWrite_run conn a format raw (w w' : world St) r :
  runWrite conn a format raw w = (r, w') ->
  (raw = "" /\ r = Err EValuesRequired /\ w' = w)
  \/ (raw <> "" /\ exists e, parseWriteData format raw = Err e /\ r = Err e /\ w' = w)
  \/ (raw <> "" /\ exists payload c,
        parseWriteData format raw = Ok payload /\ opened c = true /\
        (((exists m, r = Err (EConnect m)) /\ trace w' = (trace w ++ [c])%list)
         \/ (r = Err (EAreaNotSupported (area a)) /\ resolve (area a) = None
             /\ trace w' = (trace w ++ [c; EvClose])%list)
         \/ (exists k, resolve (area a) = Some k
                       /\ (r = Ok tt \/ exists m, r = Err (ETransport m))
                       /\ trace w' = (trace w ++ [c; writeOp k a payload; EvClose])%list))).
Proof.
  unfold runWrite. destruct (String.eqb_spec raw "") as [->|Hne].
  { intro E. injection E as <- <-. now left. }
  unfold bindM at 1, lift at 1.
  pose proof (parseWriteData_returns format raw) as Hret.
  destruct (parseWriteData format raw) as [payload|e| |] eqn:Ep; try discriminate Hret.
  2:{ intro E. injection E as <- <-. right. left. split; [exact Hne|]. eauto. }
  unfold bindM at 1. intro E. right. right. split; [exact Hne|]. revert E.
  destruct (connect_opened conn w) as (c & s' & r0 & Hc & -> & [->|[m ->]]);
    intro E; exists payload, c; (split; [reflexivity|]); (split; [exact Hc|]); revert E.
  2:{ intro E. injection E as <- <-. left. split; [eauto|reflexivity]. }
  unfold defer. destruct (writeArea a payload _) as [r1 w1] eqn:Ew.
  apply writeArea_run in Ew as [(-> & Hres & ->)|(k & Hres & Ht & Hr)]; cbn [trace] in *.
  - intro E. injection E as <- <-. right. left.
    unfold plcClose. cbn [trace]. rewrite <- app_assoc. auto.
  - intro E. right. right. exists k. split; [exact Hres|]. revert E.
    destruct Hr as [->|(m & ->)]; intro E; injection E as <- <-;
      (split; [eauto|]); unfold plcClose; cbn [trace];
      rewrite Ht, <- !app_assoc; reflexivity.
Qed.
End Outcomes.

Section PollOutcomes.
Context `{Platform} {St : Type} `{Client St}.

(** Every way the loop of [runPoll] ends, or does not end, on an area
    that resolves. *)
Lemma runPoll_loop_run a format interval count k :
  resolve (area a) = Some k ->
  forall fuel i (w w' : world St) r,
    runPoll_loop fuel a format interval count i w = (r, w') ->
    exists evs,
      trace w' = (trace w ++ evs)%list
      /\ forallb (fun e => negb (isSession e)) evs = true
      /\ ((r = Running /\ List.map stepOf evs = List.map Some (ticks fuel))
          \/ (r = Ok tt /\ 0 < count
              /\ exists n, List.map stepOf evs = List.map Some (ticks n ++ [Read; Emit])%list)
          \/ (exists e n, r = Err e
                          /\ List.map stepOf evs = List.map Some (ticks n ++ [Read])%list)
          \/ (r = Panic MakeSliceLenOutOfRange /\ amount a < 0 /\ evs = [])).
Proof.
  intro Hres. induction fuel as [|fuel IH]; intros i w w' r; cbn [runPoll_loop].
  { intro E. injection E as <- <-. exists []. rewrite app_nil_r. auto. }
  unfold bindM at 1. destruct (readArea a w) as [r1 w1] eqn:Er.
  apply readArea_run in Er
    as [(-> & Hn & ->)|[(-> & Hnone & _)|(k' & _ & Hp & Ht & Hr)]].
  { intro E. injection E as <- <-. exists []. rewrite app_nil_r.
    split; [reflexivity|]. split; [reflexivity|]. right. right. right. auto. }
  { congruence. }
  destruct Hr as [(m & ->)|(data & -> & Hl)].
  { intro E. injection E as <- <-. exists [readOp k' a]. split; [exact Ht|].
    cbn [forallb]. rewrite negb_isSession_readOp. split; [reflexivity|].
    right. right. left. exists (ETransport m), 0%nat. split; [reflexivity|].
    cbn [ticks app List.map]. now rewrite stepOf_readOp. }
  unfold bindM at 1, lift at 1.
  pose proof (formatData_returns data format) as Hret.
  destruct (formatData data format) as [out|e| |] eqn:Ef; try discriminate Hret.
  2:{ intro E. injection E as <- <-. exists [readOp k' a]. split; [exact Ht|].
      cbn [forallb]. rewrite negb_isSession_readOp. split; [reflexivity|].
      right. right. left. exists e, 0%nat. split; [reflexivity|].
      cbn [ticks app List.map]. now rewrite stepOf_readOp. }
  unfold bindM at 1. unfold bindM at 1, println, call. cbn [env trace].
  destruct (count >? 0) eqn:Ec; cbn [andb];
    [destruct (to_int 64 (i + 1) >=? count) eqn:Ei|].
  - intro E. injection E as <- <-. eexists. split.
    { cbn [trace]. rewrite Ht, <- app_assoc. reflexivity. }
    cbn [app forallb]. rewrite negb_isSession_readOp. split; [reflexivity|].
    right. left. split; [reflexivity|]. split; [now apply Z.gtb_lt in Ec|].
    exists 0%nat. cbn [ticks app List.map]. now rewrite stepOf_readOp.
  - unfold bindM at 1, call. cbn [env trace]. intro E.
    apply IH in E as (evs & Hte & Hse & Hcase). cbn [trace] in Hte.
    exists (readOp k' a :: EvPrint (("[" ++ Now (env w1) ++ "] " ++ out) ++ String "010"%char "")
                     :: EvSleep interval :: evs).
    split; [rewrite Hte, Ht, <- !app_assoc; reflexivity|].
    cbn [forallb]. rewrite negb_isSession_readOp, Hse. split; [reflexivity|].
    cbn [List.map]. rewrite stepOf_readOp.
    destruct Hcase as [(-> & Hs)|[(-> & Hc & n & Hs)|[(e & n & -> & Hs)|(-> & Hn & _)]]].
    + left. split; [reflexivity|]. cbn [ticks List.map]. now rewrite Hs.
    + right. left. split; [reflexivity|]. split; [exact Hc|]. exists (S n).
      cbn [ticks app List.map]. now rewrite Hs.
    + right. right. left. exists e, (S n). split; [reflexivity|].
      cbn [ticks app List.map]. now rewrite Hs.
    + lia.
  - unfold bindM at 1, call. cbn [env trace]. intro E.
    apply IH in E as (evs & Hte & Hse & Hcase). cbn [trace] in Hte.
    exists (readOp k' a :: EvPrint (("[" ++ Now (env w1) ++ "] " ++ out) ++ String "010"%char "")
                     :: EvSleep interval :: evs).
    split; [rewrite Hte, Ht, <- !app_assoc; reflexivity|].
    cbn [forallb]. rewrite negb_isSession_readOp, Hse. split; [reflexivity|].
    cbn [List.map]. rewrite stepOf_readOp.
    destruct Hcase as [(-> & Hs)|[(-> & Hc & n & Hs)|[(e & n & -> & Hs)|(-> & Hn & _)]]].
    + left. split; [reflexivity|]. cbn [ticks List.map]. now rewrite Hs.
    + right. left. split; [reflexivity|]. split; [exact Hc|]. exists (S n).
      cbn [ticks app List.map]. now rewrite Hs.
    + right. right. left. exists e, (S n). split; [reflexivity|].
      cbn [ticks app List.map]. now rewrite Hs.
    + lia.
Qed.

(** On an area that does not resolve the loop ends at once. *)
Lemma runPoll_loop_unresolved a format interval count fuel i (w : world St) :
  resolve (area a) = None ->
  runPoll_loop (S fuel) a format interval count i w
  = (if amount a <? 0 then Panic MakeSliceLenOutOfRange
     else Err (EAreaNotSupported (area a)), w).
Proof.
  intro Hres. cbn [runPoll_loop]. unfold bindM at 1.
  rewrite readArea_resolve, Hres. destruct (amount a <? 0); reflexivity.
Qed.
End PollOutcomes.

Lemma Contains_colon_app a rest :
  strings.Contains (a ++ String ":" rest) ":" = true.
Proof.
  unfold strings.Contains.
  assert (index 0 ":" (a ++ String ":" rest) <> None) as Hi.
  { induction a as [|c a IH].
    - destruct rest; vm_compute; discriminate.
    - cbn [append]. change (index 0 ":" (String c (a ++ String ":" rest)))
        with (if prefix ":" (String c (a ++ String ":" rest)) then Some 0%nat
              else match index 0 ":" (a ++ String ":" rest) with
                   | Some n => Some (S n)
                   | None => None
                   end).
      destruct (prefix _ _); [discriminate|].
      destruct (index 0 ":" (a ++ String ":" rest)); [discriminate|contradiction]. }
  destruct (index 0 ":" _); [reflexivity|contradiction].
Qed.

(** ** Floats *)

Lemma unsignedBigEndian_4 a b c d :
  unsignedBigEndian [a; b; c; d]
  = ((Z_of_byte a * 256 + Z_of_byte b) * 256 + Z_of_byte c) * 256 + Z_of_byte d.
Proof. unfold unsignedBigEndian. cbn [fold_left]. lia. Qed.

Lemma unsigned_PutUint32 u :
  0 <= u < 2 ^ 32 -> unsignedBigEndian (binary.PutUint32 u) = u.
Proof.
  intro Hu. pose proof (Uint32_PutUint32 u Hu) as E.
  unfold binary.PutUint32 in *. rewrite Uint32_value in E. apply Some_inj in E.
  now rewrite unsignedBigEndian_4.
Qed.

Lemma chunks4_bits us :
  Forall (fun u => 0 <= u < 2 ^ 32) us ->
  List.map unsignedBigEndian (chunks4 (flat_map binary.PutUint32 us)) = us.
Proof.
  induction 1 as [|u us Hu _ IH]; [reflexivity|].
  cbn [flat_map]. rewrite chunks4_PutUint32. cbn [List.map].
  now rewrite unsigned_PutUint32, IH.
Qed.

Lemma length_flat_PutUint32 us :
  List.length (flat_map binary.PutUint32 us) = (4 * List.length us)%nat.
Proof.
  induction us as [|u us IH]; [reflexivity|].
  cbn [flat_map]. rewrite length_app, IH. unfold binary.PutUint32. cbn [List.length]. lia.
Qed.

Section Floats.
Context `{Platform}.

Lemma formatFloats_loop_4 k : forall rest pre out fuel,
  List.length rest = (4 * k)%nat -> (k < fuel)%nat ->
  formatFloats_loop fuel (pre ++ rest)%list (len pre) out
  = Ok (out ++ List.map (fun g => fmt_Sprintf_g32 (unsignedBigEndian g)) (chunks4 rest))%list.
Proof.
  induction k as [|k IH]; intros rest pre out fuel Hl Hf;
    (destruct fuel as [|fuel]; [lia|]); cbn [formatFloats_loop].
  - destruct rest; [|discriminate Hl]. rewrite app_nil_r, Z.ltb_irrefl.
    cbn [chunks4 List.map]. now rewrite app_nil_r.
  - destruct rest as [|a [|b [|c [|d rest]]]]; try (cbn in Hl; lia).
    replace (len pre <? len (pre ++ a :: b :: c :: d :: rest)%list) with true
      by (symmetry; apply Z.ltb_lt; rewrite len_app; unfold len; cbn [List.length]; lia).
    rewrite slice_from_app. cbn [orPanic bind]. rewrite Uint32_value. cbn [orPanic bind].
    rewrite <- unsignedBigEndian_4.
    specialize (IH rest (pre ++ [a; b; c; d])%list
                   (out ++ [fmt_Sprintf_g32 (unsignedBigEndian [a; b; c; d])])%list fuel).
    rewrite <- !app_assoc in IH. cbn [app] in IH.
    replace (len (pre ++ [a; b; c; d])%list) with (len pre + 4) in IH
      by (rewrite len_app; reflexivity).
    rewrite IH by (cbn in Hl; lia). cbn [chunks4 List.map]. reflexivity.
Qed.

Lemma formatData_float32 data :
  formatData data "float32" =
  if len data mod 4 =? 0
  then Ok (strings.Join
             (List.map (fun g => fmt_Sprintf_g32 (unsignedBigEndian g)) (chunks4 data)) ",")
  else Err (EFloatSize (len data)).
Proof.
  change (formatData data "float32")
    with (if negb (Z.rem (len data) 4 =? 0) then Err (EFloatSize (len data))
          else out <- formatFloats_loop (S (List.length data)) data 0 [] ;;
               Ok (strings.Join out ",")).
  assert (0 <= len data) as Hn by (unfold len; lia).
  rewrite Z.rem_mod_nonneg by lia.
  destruct (len data mod 4 =? 0) eqn:E; cbn [negb]; [|reflexivity].
  apply Z.eqb_eq in E.
  pose proof (formatFloats_loop_4 (List.length data / 4) data [] [] (S (List.length data))) as L.
  cbn [app] in L. change (len (@nil byte)) with 0 in L. rewrite L; [reflexivity| |].
  - unfold len in E. apply Nat.Div0.div_exact.
    apply Nat2Z.inj. rewrite Nat2Z.inj_mod. exact E.
  - pose proof (Nat.Div0.div_le_upper_bound (List.length data) 4 (List.length data)). lia.
Qed.

Lemma encodeFloats_loop_ok parts : forall vals out,
  Forall2 (fun tok v => strconv_ParseFloat32 tok = (v, None)) parts vals ->
  encodeFloats_loop parts out = Ok (out ++ flat_map binary.PutUint32 vals)%list.
Proof.
  induction parts as [|p parts IH]; intros vals out HF; inversion HF as [|? v ? vs Hp HF']; subst.
  - cbn [encodeFloats_loop flat_map]. now rewrite app_nil_r.
  - cbn [encodeFloats_loop flat_map]. unfold parseFloat. rewrite Hp. cbn [bind].
    rewrite (IH vs) by exact HF'. now rewrite <- app_assoc.
Qed.

Lemma encodeFloats_values raw vals :
  Forall2 (fun tok v => strconv_ParseFloat32 tok = (v, None)) (splitValues raw) vals ->
  parseWriteData "float32" raw = Ok (flat_map binary.PutUint32 vals).
Proof.
  intro HF. change (parseWriteData "float32" raw) with (encodeFloats raw).
  unfold encodeFloats. now rewrite (encodeFloats_loop_ok _ vals).
Qed.

Lemma float_round_trip us :
  Forall (fun u => 0 <= u < 2 ^ 32 /\ rendersBack u) us ->
  parseWriteData "float32" (strings.Join (List.map fmt_Sprintf_g32 us) ",")
  = Ok (flat_map binary.PutUint32 us)
  /\ formatData (flat_map binary.PutUint32 us) "float32"
     = Ok (strings.Join (List.map fmt_Sprintf_g32 us) ",").
Proof.
  intro Hus. split.
  - apply encodeFloats_values. unfold strings.Join. rewrite splitValues_concat.
    + induction Hus as [|u us (_ & _ & _ & Hp) _ IH]; constructor; auto.
    + induction Hus as [|u us (_ & Hne & Ht & _) _ IH]; constructor; auto.
  - rewrite formatData_float32.
    assert (len (flat_map binary.PutUint32 us) mod 4 = 0) as ->.
    { unfold len. rewrite length_flat_PutUint32, Nat2Z.inj_mul, Z.mul_comm.
      apply Z.mod_mul. lia. }
    cbn [Z.eqb]. rewrite <- (List.map_map unsignedBigEndian fmt_Sprintf_g32).
    rewrite chunks4_bits; [reflexivity|].
    eapply Forall_impl; [|exact Hus]. now intros u [Hu _].
Qed.
End Floats.

(** C4: float32 encoding is bit-exact. The encoder writes, for each token
    of the list and in order, the four bytes of the bit pattern that the
    library's parser returns for it, most significant first: with [1.5]
    parsed to [0x3FC00000] and [2.25] to [0x40100000], the text [1.5,2.25]
    gives the bytes 3F C0 00 00 40 10 00 00. The decoder hands each group
    of four bytes to the library's formatting as the bit pattern it
    spells. Bit patterns go through the bytes unchanged, so for floats
    whose text the library parses back to the same bits, encoding the
    text gives their bytes and decoding those gives the text again. *)
Theorem C4_float_bit_exact :
  forall P : Platform,
    (forall raw vals,
       Forall2 (fun tok v => strconv_ParseFloat32 tok = (v, None)) (splitValues raw) vals ->
       parseWriteData "float32" raw = Ok (flat_map binary.PutUint32 vals))
    /\ (strconv_ParseFloat32 "1.5" = (1069547520, None) ->
        strconv_ParseFloat32 "2.25" = (1074790400, None) ->
        parseWriteData "float32" "1.5,2.25"
        = Ok [x3f; xc0; x00; x00; x40; x10; x00; x00])
    /\ (forall data,
       formatData data "float32" =
       if len data mod 4 =? 0
       then Ok (strings.Join
                  (List.map (fun g => fmt_Sprintf_g32 (unsignedBigEndian g)) (chunks4 data))
                  ",")
       else Err (EFloatSize (len data)))
    /\ (forall us, Forall (fun u => 0 <= u < 2 ^ 32) us ->
       List.map unsignedBigEndian (chunks4 (flat_map binary.PutUint32 us)) = us)
    /\ (forall us, Forall (fun u => 0 <= u < 2 ^ 32 /\ rendersBack u) us ->
       parseWriteData "float32" (strings.Join (List.map fmt_Sprintf_g32 us) ",")
       = Ok (flat_map binary.PutUint32 us)
       /\ formatData (flat_map binary.PutUint32 us) "float32"
          = Ok (strings.Join (List.map fmt_Sprintf_g32 us) ",")).
Proof.
  intro P.
  split; [apply encodeFloats_values|].
  split.
  { intros H1 H2.
    apply (encodeFloats_values "1.5,2.25" [1069547520; 1074790400]).
    change (splitValues "1.5,2.25") with ["1.5"; "2.25"].
    repeat constructor; assumption. }
  split; [apply formatData_float32|].
  split; [apply chunks4_bits|apply float_round_trip].
Qed.

(** * Further properties of the codec *)

(** X1: the string format is a round trip in both directions. The bytes
    that [formatData] shows as a string are the bytes that [parseWriteData]
    makes of that string, and the text that [parseWriteData] turns into
    bytes is the text that [formatData] shows for them, one byte for each
    byte of the text; [str] names the same format. *)
Theorem X1_string_round_trip :
  forall (P : Platform) (data : list byte) (raw : string),
    formatData data "string" = Ok (string_of_list_byte data)
    /\ parseWriteData "string" (string_of_list_byte data) = Ok data
    /\ parseWriteData "str" raw = Ok (list_byte_of_string raw)
    /\ formatData (list_byte_of_string raw) "str" = Ok raw
    /\ len (list_byte_of_string raw) = slen raw.
Proof.
  intros P data raw. split; [reflexivity|]. split.
  { change (parseWriteData "string" (string_of_list_byte data))
      with (@Ok (list byte) (list_byte_of_string (string_of_list_byte data))).
    now rewrite list_byte_of_string_of_list_byte. }
  split; [reflexivity|]. split.
  { change (formatData (list_byte_of_string raw) "str")
      with (Ok (string_of_list_byte (list_byte_of_string raw))).
    now rewrite string_of_list_byte_of_string. }
  unfold len, slen. now rewrite length_list_byte_of_string.
Qed.

(** X2: what is read as integers can be written back. For data whose
    length is a multiple of the width, [formatData] gives a text, and
    [parseWriteData] on that text, in the same format, gives the data. *)
Theorem X2_int_bytes_round_trip :
  forall (P : Platform) (data : list byte) (size : Z) (format : string),
    (size = 2 /\ format = "int16") \/ (size = 4 /\ format = "int32") ->
    len data mod size = 0 ->
    exists text,
      formatData data format = Ok text /\ parseWriteData format text = Ok data.
Proof.
  intros P data size format [[-> ->]|[-> ->]] Hl.
  - now apply bytes_text_bytes_16.
  - now apply bytes_text_bytes_32.
Qed.

(** X3: [splitValues] undoes the join that [joinInts] makes. Tokens that
    are not empty and hold no white space and no comma, joined by commas,
    split into the same tokens, in order. *)
Theorem X3_split_of_join :
  forall (toks : list string),
    Forall (fun t => t <> "" /\ allChars tokenChar t = true) toks ->
    splitValues (strings.Join toks ",") = toks.
Proof. intros toks Ht. unfold strings.Join. now apply splitValues_concat. Qed.

(** X4: the codec does not panic. Whatever the data, the format name and
    the text, [formatData] and [parseWriteData] return a value or an
    error: no index leaves its slice and the loops end. *)
Theorem X4_codec_returns :
  forall (P : Platform) (data : list byte) (format raw : string),
    returned (formatData data format) = true
    /\ returned (parseWriteData format raw) = true.
Proof.
  intros P data format raw.
  split; [apply formatData_returns|apply parseWriteData_returns].
Qed.

(** X5: reading and writing know the same format names. [formatData]
    refuses a name as unknown exactly when [parseWriteData] does. *)
Theorem X5_format_names_agree :
  forall (P : Platform) (data : list byte) (format raw : string),
    formatData data format = Err (EUnknownFormat format)
    <-> parseWriteData format raw = Err (EUnknownFormat format).
Proof. intros P data format raw. apply format_names_agree. Qed.

(** X6: the tokens of a value list are trimmed. No token that
    [splitValues] returns is empty, holds a comma, or starts or ends with
    an ASCII white space character. *)
Theorem X6_tokens_trimmed :
  forall (raw t : string),
    In t (splitValues raw) ->
    t <> ""
    /\ allChars noComma t = true
    /\ (forall c, firstChar t = Some c -> strings.asciiSpace c = false)
    /\ (forall c, lastChar t = Some c -> strings.asciiSpace c = false).
Proof. intros raw t. apply splitValues_tokens. Qed.

(** X7: a value list without values is no error. Text made of commas and
    ASCII white space only has no tokens, and the numeric formats encode it
    to the empty payload. *)
Theorem X7_blank_values_empty_payload :
  forall (P : Platform) (raw : string),
    allChars blankChar raw = true ->
    splitValues raw = []
    /\ parseWriteData "int16" raw = Ok []
    /\ parseWriteData "int32" raw = Ok []
    /\ parseWriteData "float32" raw = Ok [].
Proof.
  intros P raw Hb. split; [now apply splitValues_blank|].
  now apply blank_values_empty_payload.
Qed.

(** X8: an integer payload has one group of [size] bytes for each token
    of the value list. *)
Theorem X8_int_payload_length :
  forall (size : Z) (raw : string) (payload : list byte),
    size = 2 \/ size = 4 ->
    encodeInts raw size = Ok payload ->
    len payload = size * len (splitValues raw).
Proof. intros size raw payload. apply encodeInts_length. Qed.

(** X9: a hex payload has one byte for every two characters that are left
    of the text once the spaces and the [0x]/[0X] prefixes are removed. *)
Theorem X9_hex_payload_length :
  forall (s : string) (payload : list byte),
    parseHex s = Ok payload -> 2 * len payload = slen (cleanHex s).
Proof.
  intros s payload E.
  destruct (parseHex_returns s) as [(B & EB & HB)|(e & Ee)]; [|congruence].
  rewrite EB in E. injection E as <-. exact HB.
Qed.

(** X10: the hex text of [n > 0] bytes is [3 n - 1] characters long: two
    digits a byte and the spaces between them. *)
Theorem X10_hex_text_length :
  forall (data : list byte),
    data <> [] -> slen (bytesToHex data) = 3 * len data - 1.
Proof. intros data. apply bytesToHex_length. Qed.

(** * Further properties of the commands *)

(** X11: a read that succeeds returns as many bytes as were asked for,
    whatever the transport left in the buffer. *)
Theorem X11_read_returns_amount :
  forall (P : Platform) (St : Type) (C : Client St)
         (a : areaOptions) (w w' : world St) (data : list byte),
    readArea a w = (Ok data, w') -> len data = amount a /\ 0 <= amount a.
Proof.
  intros P St C a w w' data E.
  apply readArea_run in E
    as [(E & _)|[(E & _)|(k & _ & Hp & _ & [(m & E)|(d & E & Hl)])]];
    try discriminate E.
  injection E as <-. auto.
Qed.

(** X12: [runRead] prints when it succeeds, and only then. A successful
    run is a connect, one read of the area in the world that the connect
    left, one printed line and the close; the line is the formatting of
    the bytes that this read returned, [amount] of them, and a newline. A
    run that fails prints nothing. *)
Theorem X12_read_prints_on_success_only :
  forall (P : Platform) (St : Type) (C : Client St)
         (conn : connOptions) (a : areaOptions) (format : string)
         (w w' : world St) (r : result unit),
    runRead conn a format w = (r, w') ->
    exists evs,
      trace w' = (trace w ++ evs)%list
      /\ (r = Ok tt ->
          exists c k w0 w1 data out,
            opened c = true /\ resolve (area a) = Some k
            /\ connect conn w = (Ok tt, w0) /\ trace w0 = (trace w ++ [c])%list
            /\ readArea a w0 = (Ok data, w1) /\ trace w1 = (trace w0 ++ [readOp k a])%list
            /\ len data = amount a /\ formatData data format = Ok out
            /\ w' = plcClose (mkWorld (env w1)
                                (trace w1 ++ [EvPrint (out ++ String "010"%char "")])%list)
            /\ evs = [c; readOp k a; EvPrint (out ++ String "010"%char ""); EvClose])
      /\ (r <> Ok tt -> filter isPrint evs = []).
Proof.
  intros P St C conn a format w w' r E.
  apply runRead_run in E as (c & r0 & w0 & Hc & Eco & Ht0 & Hcase).
  assert (filter isPrint [c] = []) as Fc
      by (destruct c; try discriminate Hc; reflexivity).
  assert (filter isPrint [c; EvClose] = []) as Fcc
      by (destruct c; try discriminate Hc; reflexivity).
  assert (forall k, filter isPrint [c; readOp k a; EvClose] = []) as Fcr
      by (intro k; destruct c; try discriminate Hc; cbn [filter isPrint];
          rewrite isPrint_readOp; reflexivity).
  destruct Hcase as [(m & -> & -> & ->)|(-> & [(-> & _ & ->)|[(-> & _ & ->)|
    (k & w1 & Hk & _ & Ht1 & [(m & Er & -> & ->)|(data & Er & Hl &
       [(e & Hf & -> & ->)|(out & Hf & -> & ->)])])]])].
  - exists [c]. split; [exact Ht0|]. split; [discriminate|auto].
  - exists [c; EvClose]. unfold plcClose. cbn [trace]. rewrite Ht0, <- app_assoc.
    split; [reflexivity|]. split; [discriminate|auto].
  - exists [c; EvClose]. unfold plcClose. cbn [trace]. rewrite Ht0, <- app_assoc.
    split; [reflexivity|]. split; [discriminate|auto].
  - exists [c; readOp k a; EvClose]. unfold plcClose. cbn [trace].
    rewrite Ht1, Ht0, <- !app_assoc. split; [reflexivity|]. split; [discriminate|auto].
  - exists [c; readOp k a; EvClose]. unfold plcClose. cbn [trace].
    rewrite Ht1, Ht0, <- !app_assoc. split; [reflexivity|]. split; [discriminate|auto].
  - exists [c; readOp k a; EvPrint (out ++ String "010"%char ""); EvClose].
    split; [unfold plcClose; cbn [trace]; rewrite Ht1, Ht0, <- !app_assoc; reflexivity|].
    split; [|congruence]. intros _. exists c, k, w0, w1, data, out.
    repeat (split; [assumption||reflexivity|]). reflexivity.
Qed.

(** X13: [runRead] returns, and it releases what it opened. If the connect
    fails nothing else is called. Otherwise the session is closed exactly
    once, as the last call, and between the connect and the close there is
    nothing when the amount is negative (a panic) or the area does not
    resolve, the one read of the area when the read or the formatting
    fails, and that read and the printed line when the command succeeds. *)
Theorem X13_read_session :
  forall (P : Platform) (St : Type) (C : Client St)
         (conn : connOptions) (a : areaOptions) (format : string)
         (w w' : world St) (r : result unit),
    runRead conn a format w = (r, w') ->
    r <> Running
    /\ exists c, opened c = true
       /\ (((exists m, r = Err (EConnect m)) /\ trace w' = (trace w ++ [c])%list)
           \/ (exists mid,
                 trace w' = (trace w ++ c :: mid ++ [EvClose])%list
                 /\ ((mid = []
                      /\ (r = Panic MakeSliceLenOutOfRange
                          \/ r = Err (EAreaNotSupported (area a))))
                     \/ (exists k, resolve (area a) = Some k
                           /\ ((mid = [readOp k a] /\ exists e, r = Err e)
                               \/ (r = Ok tt
                                   /\ exists out,
                                       mid = [readOp k a;
                                              EvPrint (out ++ String "010"%char "")])))))).
Proof.
  intros P St C conn a format w w' r E.
  apply runRead_run in E as (c & r0 & w0 & Hc & Eco & Ht0 & Hcase).
  destruct Hcase as [(m & -> & -> & ->)|(-> & [(-> & _ & ->)|[(-> & _ & ->)|
    (k & w1 & Hk & _ & Ht1 & [(m & Er & -> & ->)|(data & Er & Hl &
       [(e & Hf & -> & ->)|(out & Hf & -> & ->)])])]])];
    (split; [discriminate|]); exists c; (split; [exact Hc|]).
  - left. eauto.
  - right. exists []. unfold plcClose. cbn [trace app]. rewrite Ht0, <- app_assoc.
    split; [reflexivity|]. left. auto.
  - right. exists []. unfold plcClose. cbn [trace app]. rewrite Ht0, <- app_assoc.
    split; [reflexivity|]. left. auto.
  - right. exists [readOp k a]. unfold plcClose. cbn [trace app].
    rewrite Ht1, Ht0, <- !app_assoc. split; [reflexivity|]. right. exists k.
    split; [exact Hk|]. left. eauto.
  - right. exists [readOp k a]. unfold plcClose. cbn [trace app].
    rewrite Ht1, Ht0, <- !app_assoc. split; [reflexivity|]. right. exists k.
    split; [exact Hk|]. left. eauto.
  - right. exists [readOp k a; EvPrint (out ++ String "010"%char "")].
    unfold plcClose. cbn [trace app]. rewrite Ht1, Ht0, <- !app_assoc.
    split; [reflexivity|]. right. exists k. split; [exact Hk|]. right. eauto.
Qed.

(** X14: reading integers needs an amount that is a multiple of their
    width. With format [int16] ([int32]) and an amount that is not a
    multiple of 2 (4), [runRead] never succeeds and prints nothing; its
    alignment error names the width and the amount, and it comes after the
    connect and the one read of the resolved area, before the close. *)
Theorem X14_read_misaligned :
  forall (P : Platform) (St : Type) (C : Client St)
         (conn : connOptions) (a : areaOptions) (size : Z) (format : string)
         (w w' : world St) (r : result unit),
    (size = 2 /\ format = "int16") \/ (size = 4 /\ format = "int32") ->
    amount a mod size <> 0 ->
    runRead conn a format w = (r, w') ->
    r <> Ok tt
    /\ (forall e, r = Err e -> kindOf e = AlignmentError ->
                  e = ENotAligned size (amount a)
                  /\ exists c k w0 w1 data,
                      opened c = true /\ resolve (area a) = Some k
                      /\ connect conn w = (Ok tt, w0)
                      /\ readArea a w0 = (Ok data, w1)
                      /\ w' = plcClose w1
                      /\ trace w' = (trace w ++ [c; readOp k a; EvClose])%list).
Proof.
  intros P St C conn a size format w w' r Hs Hm E.
  assert (forall data, len data = amount a ->
            formatData data format = Err (ENotAligned size (amount a))) as Hf.
  { intros data Hl.
    destruct Hs as [[-> ->]|[-> ->]].
    - change (formatData data "int16") with (vals <- decodeInts data 2 ;; Ok (joinInts vals)).
      rewrite decodeInts_2, Hl.
      destruct (Z.eqb_spec (amount a mod 2) 0); [contradiction|reflexivity].
    - change (formatData data "int32") with (vals <- decodeInts data 4 ;; Ok (joinInts vals)).
      rewrite decodeInts_4, Hl.
      destruct (Z.eqb_spec (amount a mod 4) 0); [contradiction|reflexivity]. }
  apply runRead_run in E as (c & r0 & w0 & Hc & Eco & Ht0 & Hcase).
  destruct Hcase as [(m & -> & -> & ->)|(-> & [(-> & _ & ->)|[(-> & _ & ->)|
    (k & w1 & Hk & _ & Ht1 & [(m & Er & -> & ->)|(data & Er & Hl &
       [(e & He & -> & ->)|(out & He & -> & ->)])])]])];
    try (split; [discriminate|]; intros e Ee Hk'; try discriminate Ee;
         injection Ee as <-; discriminate Hk').
  - split; [discriminate|]. intros e' Ee _. injection Ee as <-.
    rewrite (Hf data Hl) in He. injection He as <-. split; [reflexivity|].
    exists c, k, w0, w1, data. repeat (split; [assumption||reflexivity|]).
    unfold plcClose. cbn [trace]. rewrite Ht1, Ht0, <- !app_assoc. reflexivity.
  - rewrite (Hf data Hl) in He. discriminate He.
Qed.

(** X15: [runWrite] checks the values before it connects. When it fails
    with a malformed-input or unknown-format error, nothing has been
    called: the world is as it was. *)
Theorem X15_write_validates_first :
  forall (P : Platform) (St : Type) (C : Client St)
         (conn : connOptions) (a : areaOptions) (format raw : string)
         (w w' : world St) (e : error),
    runWrite conn a format raw w = (Err e, w') ->
    kindOf e = MalformedInput \/ kindOf e = UnsupportedFormat ->
    w' = w
    /\ (raw = "" /\ e = EValuesRequired \/ parseWriteData format raw = Err e).
Proof.
  intros P St C conn a format raw w w' e E Hk.
  apply runWrite_run in E
    as [(-> & E & ->)|[(_ & e' & Hp & E & ->)|(_ & payload & c & _ & _ & Hcase)]].
  - injection E as <-. auto.
  - injection E as <-. auto.
  - exfalso.
    destruct Hcase as [((m & E) & _)|[(E & _)|(k & _ & [E|(m & E)] & _)]];
      try discriminate E; injection E as ->; destruct Hk as [K|K]; discriminate K.
Qed.

(** X16: [runWrite] sends what [parseWriteData] made of the values. Once
    the values are accepted, the command connects; if that succeeds and the
    area resolves, it makes one write of the whole payload and closes. It
    succeeds only in that way. *)
Theorem X16_write_sends_payload :
  forall (P : Platform) (St : Type) (C : Client St)
         (conn : connOptions) (a : areaOptions) (format raw : string)
         (payload : list byte) (w w' : world St) (r : result unit),
    raw <> "" ->
    parseWriteData format raw = Ok payload ->
    runWrite conn a format raw w = (r, w') ->
    exists c, opened c = true
      /\ (((exists m, r = Err (EConnect m)) /\ trace w' = (trace w ++ [c])%list)
          \/ (r = Err (EAreaNotSupported (area a)) /\ resolve (area a) = None
              /\ trace w' = (trace w ++ [c; EvClose])%list)
          \/ (exists k, resolve (area a) = Some k
                        /\ (r = Ok tt \/ exists m, r = Err (ETransport m))
                        /\ trace w' = (trace w ++ [c; writeOp k a payload; EvClose])%list)).
Proof.
  intros P St C conn a format raw payload w w' r Hne Hp E.
  apply runWrite_run in E
    as [(-> & _)|[(_ & e' & Hp' & _)|(_ & payload' & c & Hp' & Hc & Hcase)]];
    [congruence|congruence|].
  rewrite Hp in Hp'. injection Hp' as <-. exists c. auto.
Qed.

(** X17: a poll without a count does not end by itself. With
    [count <= 0] the command never returns success, however long it
    runs. *)
Theorem X17_poll_without_count_never_done :
  forall (P : Platform) (St : Type) (C : Client St)
         (fuel : nat) (conn : connOptions) (a : areaOptions) (format : string)
         (interval count : Z) (w w' : world St) (r : result unit),
    count <= 0 ->
    runPoll fuel conn a format interval count w = (r, w') ->
    r <> Ok tt.
Proof.
  intros P St C fuel conn a format interval count w w' r Hc.
  unfold runPoll. unfold bindM at 1.
  destruct (connect_opened conn w) as (c & s' & r0 & _ & -> & [->|[m ->]]).
  2:{ intro E. injection E as <- _. discriminate. }
  unfold defer.
  destruct (runPoll_loop fuel a format interval count 0 _) as [r1 w1] eqn:El.
  assert (r1 <> Ok tt) as Hr1.
  { destruct (resolve (area a)) as [k|] eqn:Hres.
    - apply (runPoll_loop_run a format interval count k Hres) in El
        as (evs & _ & _ & [(-> & _)|[(-> & Hp & _)|[(e & n & -> & _)|(-> & _)]]]);
        try discriminate. lia.
    - destruct fuel as [|fuel].
      + cbn [runPoll_loop] in El. injection El as <- _. discriminate.
      + rewrite runPoll_loop_unresolved in El by exact Hres.
        injection El as <- _. destruct (amount a <? 0); discriminate. }
  destruct r1 as [[]| | |]; intro E; injection E as <- _; try discriminate.
  now contradiction Hr1.
Qed.

(** X18: a poll without a count goes on for as long as its reads and
    formats succeed. After any number of steps of the loop it has made that
    many ticks, each a read, a printed line and a sleep, and it still
    runs. *)
Theorem X18_poll_without_count_runs_on :
  forall (P : Platform) (St : Type) (C : Client St)
         (a : areaOptions) (format : string) (interval count : Z),
    count <= 0 ->
    (forall w1 : world St, exists data w2 out,
          readArea a w1 = (Ok data, w2) /\ formatData data format = Ok out) ->
    forall (fuel : nat) (w : world St),
    exists w' evs,
      runPoll_loop fuel a format interval count 0 w = (Running, w')
      /\ trace w' = (trace w ++ evs)%list
      /\ List.map stepOf evs = List.map Some (ticks fuel).
Proof.
  intros P St C a format interval count Hc Hok fuel.
  generalize 0 at 1. induction fuel as [|fuel IH]; intros i w.
  { exists w, []. cbn [runPoll_loop]. rewrite app_nil_r. auto. }
  cbn [runPoll_loop]. destruct (Hok w) as (data & w2 & out & Er & Ef).
  destruct (readArea_ok_trace _ _ _ _ Er) as (k & _ & Ht).
  unfold bindM at 1. rewrite Er. unfold bindM at 1, lift at 1. rewrite Ef.
  unfold bindM at 1. unfold bindM at 1, println, call. cbn [env trace].
  replace (count >? 0) with false by (symmetry; rewrite Z.gtb_ltb; apply Z.ltb_ge; lia).
  cbn [andb]. unfold bindM at 1, call. cbn [env trace].
  edestruct IH as (w' & evs & -> & Hte & Hs).
  eexists. eexists. split; [reflexivity|]. rewrite Hte. cbn [trace].
  rewrite Ht, <- !app_assoc. split; [reflexivity|].
  cbn [app List.map ticks]. rewrite stepOf_readOp, Hs. reflexivity.
Qed.

(** X19: a poll stops at the first failure. When the loop returns an
    error, either the area does not resolve and nothing was called, or
    the steps made are complete ticks followed by the one read of the
    failing tick: nothing is printed and no sleep is made after it. *)
Theorem X19_poll_stops_at_failure :
  forall (P : Platform) (St : Type) (C : Client St)
         (fuel : nat) (a : areaOptions) (format : string) (interval count i : Z)
         (w w' : world St) (e : error),
    runPoll_loop fuel a format interval count i w = (Err e, w') ->
    (resolve (area a) = None /\ e = EAreaNotSupported (area a) /\ w' = w)
    \/ (exists evs n,
          trace w' = (trace w ++ evs)%list
          /\ List.map stepOf evs = List.map Some (ticks n ++ [Read])%list).
Proof.
  intros P St C fuel a format interval count i w w' e E.
  destruct (resolve (area a)) as [k|] eqn:Hres.
  - right.
    apply (runPoll_loop_run a format interval count k Hres) in E
      as (evs & Ht & _ & [(E & _)|[(E & _)|[(e' & n & E & Hs)|(E & _)]]]);
      try discriminate E.
    exists evs, n. auto.
  - left. destruct fuel as [|fuel]; [discriminate E|].
    rewrite runPoll_loop_unresolved in E by exact Hres.
    destruct (amount a <? 0); [discriminate E|]. injection E as <- <-. auto.
Qed.

(** X20: [runPoll] holds one session for the whole poll. If the connect
    fails nothing else is called. Otherwise no call of the loop opens or
    closes a session; while the poll runs the session is open, and when
    the poll is left, by its count, an error or a panic, the session is
    closed as the last call. *)
Theorem X20_poll_session :
  forall (P : Platform) (St : Type) (C : Client St)
         (fuel : nat) (conn : connOptions) (a : areaOptions) (format : string)
         (interval count : Z) (w w' : world St) (r : result unit),
    runPoll fuel conn a format interval count w = (r, w') ->
    exists c, opened c = true
      /\ (((exists m, r = Err (EConnect m)) /\ trace w' = (trace w ++ [c])%list)
          \/ (exists mid,
                forallb (fun e => negb (isSession e)) mid = true
                /\ trace w' = (trace w ++ c :: mid
                                 ++ match r with
                                    | Running => []
                                    | _ => [EvClose]
                                    end)%list)).
Proof.
  intros P St C fuel conn a format interval count w w' r.
  unfold runPoll. unfold bindM at 1.
  destruct (connect_opened conn w) as (c & s' & r0 & Hc & -> & [->|[m ->]]);
    intro E; exists c; (split; [exact Hc|]); revert E.
  2:{ intro E. injection E as <- <-. left. split; [eauto|reflexivity]. }
  unfold defer.
  destruct (runPoll_loop fuel a format interval count 0 _) as [r1 w1] eqn:El.
  assert (exists mid, trace w1 = ((trace w ++ [c]) ++ mid)%list
                      /\ forallb (fun e => negb (isSession e)) mid = true) as (mid & Ht & Hm).
  { destruct (resolve (area a)) as [k|] eqn:Hres.
    - apply (runPoll_loop_run a format interval count k Hres) in El
        as (evs & Ht & Hs & _). exists evs. auto.
    - exists []. rewrite app_nil_r. split; [|reflexivity].
      destruct fuel as [|fuel].
      + cbn [runPoll_loop] in El. now injection El as _ <-.
      + rewrite runPoll_loop_unresolved in El by exact Hres. now injection El as _ <-. }
  intro E. right. exists mid. split; [exact Hm|].
  destruct r1 as [u|e|p|]; injection E as <- <-;
    unfold plcClose; cbn [trace]; rewrite Ht, <- ?app_assoc; try reflexivity.
  now rewrite app_nil_r.
Qed.

(** X21: what [connect] dials. The command makes one connect call, with
    the rack and slot it was given; with a positive port the address it
    dials always names a port (the given address if that holds a colon,
    else the address, a colon and the port in decimal); a connect type is
    passed exactly when it is positive; and the only error is the one of
    the connect call. *)
Theorem X21_connect_dials :
  forall (P : Platform) (St : Type) (C : Client St)
         (conn : connOptions) (w w' : world St) (r : result unit),
    connect conn w = (r, w') ->
    exists addr ct,
      trace w' = (trace w ++ [EvConnect addr (rack conn) (slot conn) ct])%list
      /\ (0 < port conn -> strings.Contains addr ":" = true)
      /\ (strings.Contains (address conn) ":" = true \/ port conn <= 0 ->
          addr = address conn)
      /\ (strings.Contains (address conn) ":" = false -> 0 < port conn ->
          addr = address conn ++ ":" ++ fmt.Sprintf_d (port conn))
      /\ (ct = None <-> ctype conn <= 0)
      /\ (r = Ok tt \/ exists m, r = Err (EConnect m)).
Proof.
  intros P St C conn w w' r. unfold connect, bindM, call, failWith, lift, ret.
  match goal with
  | |- context [Connect ?a ?rk ?s ?c (env w)] =>
    destruct (Connect a rk s c (env w)) as [s' [m|]]; intro E; injection E as <- <-;
      exists a, c; cbn [trace]
  end.
  all: split; [reflexivity|].
  all: destruct (strings.Contains (address conn) ":") eqn:Ec; cbn [negb andb].
  all: destruct (Z.gtb_spec (port conn) 0) as [Hp|Hp].
  all: destruct (Z.gtb_spec (ctype conn) 0) as [Ht|Ht].
  all: repeat split; eauto; try lia; try discriminate; try congruence;
    try (intros _; apply Contains_colon_app);
    try (intros [K|K]; [discriminate K|lia]).
Qed.

(** ** The theorems at concrete inputs *)


Lemma C6_int_round_trip_witness :
  (parseWriteData (H := asciiPlatform) "int16" "-12345" = Ok [xcf; xc7]
   /\ decodeInts [xcf; xc7] 2 = Ok [-12345]
   /\ formatData (H := asciiPlatform) [xcf; xc7] "int16" = Ok "-12345")
  /\ (parseWriteData (H := asciiPlatform) "int32" "2147483647" = Ok [x7f; xff; xff; xff]
      /\ decodeInts [x7f; xff; xff; xff] 4 = Ok [2147483647]
      /\ formatData (H := asciiPlatform) [x7f; xff; xff; xff] "int32" = Ok "2147483647")
  /\ integerOf "-32768" = Some (-32768)
  /\ parseInt "0x_7f" 2 = Ok 127
  /\ (exists cause, parseInt "abc" 2 = Err (EInvalidInteger "abc" cause) /\ Num cause = "abc")
  /\ (exists cause, parseInt "1e3" 4 = Err (EInvalidInteger "1e3" cause) /\ Num cause = "1e3")
  /\ (exists cause, parseInt "1__2" 4 = Err (EInvalidInteger "1__2" cause)
                    /\ Num cause = "1__2")
  /\ (exists cause, parseInt "+40000" 2 = Err (EInvalidInteger "+40000" cause)
                    /\ Num cause = "+40000")
  /\ (exists vals,
        Forall2 (fun tok v => integerOf tok = Some v /\ inRange (2 * 8) v = true)
                (splitValues "1, -2") vals
        /\ decodeInts [x00; x01; xff; xfe] 2 = Ok vals)
  /\ (exists tok cause,
        In tok (splitValues "1,70000") /\ notEncodable (2 * 8) tok
        /\ encodeInts "1,70000" 2 = Err (EInvalidInteger tok cause) /\ Num cause = tok
        /\ kindOf (EInvalidInteger tok cause) = MalformedInput)
  /\ (exists tok cause,
        In tok (splitValues "7,0x") /\ notEncodable (4 * 8) tok
        /\ EInvalidInteger "0x" (mkNumError "ParseInt" "0x" ErrSyntax)
           = EInvalidInteger tok cause
        /\ Num cause = tok
        /\ kindOf (EInvalidInteger "0x" (mkNumError "ParseInt" "0x" ErrSyntax))
           = MalformedInput).
Proof.
  destruct (C6_int_round_trip asciiPlatform)
    as (R16 & R32 & Hdec & Hacc & Hrej & Hok & Hbad & Herr & _).
  split; [exact (R16 (-12345) eq_refl)|].
  split; [exact (R32 2147483647 eq_refl)|].
  split; [apply (Hdec (-32768)); split; [discriminate|reflexivity]|].
  split; [apply (Hacc 2 "0x_7f" 127 (or_introl eq_refl)); split; reflexivity|].
  split; [apply (Hrej 2 "abc" (or_introl eq_refl)); left; reflexivity|].
  split; [apply (Hrej 4 "1e3" (or_intror eq_refl)); left; reflexivity|].
  split; [apply (Hrej 4 "1__2" (or_intror eq_refl)); left; reflexivity|].
  split; [apply (Hrej 2 "+40000" (or_introl eq_refl)); right; exists 40000;
          split; reflexivity|].
  split; [exact (Hok 2 "1, -2" [x00; x01; xff; xfe] (or_introl eq_refl) eq_refl)|].
  split; [apply (Hbad 2 "1,70000" (or_introl eq_refl));
          apply Exists_cons_tl, Exists_cons_hd; right; exists 70000; split; reflexivity|].
  exact (Herr 4 "7,0x" _ (or_intror eq_refl) eq_refl).
Defined.

Lemma C10_base_detection_witness :
  parseInt "0x1F" 2 = Ok 31
  /\ parseInt "0X8000" 2
     = Err (EInvalidInteger "0X8000" (mkNumError "ParseInt" "0X8000" ErrRange))
  /\ parseInt "0777" 4 = Ok 511.
Proof.
  destruct (C10_base_detection asciiPlatform) as (Hhex & Hoct & _).
  split; [|split].
  - apply (Hhex 2 "x"%char "1F"); [left; reflexivity|left; reflexivity|discriminate|reflexivity].
  - apply (Hhex 2 "X"%char "8000");
      [left; reflexivity|right; reflexivity|discriminate|reflexivity].
  - apply (Hoct 4 "777"); [right; reflexivity|reflexivity].
Defined.

Lemma C7_area_resolution_witness :
  isASCII "Db" = true
  /\ resolve (H := asciiPlatform) (strings.ToLower (H := asciiPlatform) "Db")
     = resolve (H := asciiPlatform) "Db"
  /\ resolve (H := asciiPlatform) (strings.ToUpper (H := asciiPlatform) "Db")
     = resolve (H := asciiPlatform) "Db".
Proof.
  split; [reflexivity|].
  exact (proj1 (proj2 (C7_area_resolution asciiPlatform (list byte) simPLC 1 0 4 []
                                          (world0 []))) "Db" eq_refl).
Defined.

Lemma C9_write_dispatch_witness :
  resolve (H := asciiPlatform) "mk" = Some Marker
  /\ writeArea (H := asciiPlatform) (H0 := simPLC)
               {| area := "mk"; db := 1; start := 2; amount := 4 |} [xaa; xbb]
               (world0 [x00; x00; x00; x00; x00])
     = (Ok tt, mkWorld [x00; x00; xaa; xbb; x00] [EvAGWriteMB 2 2 [xaa; xbb]]).
Proof.
  split; [reflexivity|].
  exact (proj1 (C9_write_dispatch asciiPlatform (list byte) simPLC
                  {| area := "mk"; db := 1; start := 2; amount := 4 |} [xaa; xbb]
                  (world0 [x00; x00; x00; x00; x00]) Marker eq_refl)).
Defined.

Lemma C2_unsupported_area_witness :
  runRead (H := asciiPlatform) (H0 := simPLC)
          {| address := "10.0.0.1"; rack := 0; slot := 1; ctype := 0; port := 102 |}
          {| area := "TM"; db := 1; start := 0; amount := 4 |} "hex" (world0 [])
  = (Err (EAreaNotSupported "TM"),
     mkWorld [] [EvConnect "10.0.0.1:102" 0 1 None; EvClose])
  /\ EAreaNotSupported "TM" = EAreaNotSupported "TM"
  /\ resolve (H := asciiPlatform) "TM" = None
  /\ filter isAreaCall [EvConnect "10.0.0.1:102" 0 1 None; EvClose] = [].
Proof.
  split; [reflexivity|].
  pose proof (C2_unsupported_area_before_area_calls asciiPlatform (list byte) simPLC
                {| address := "10.0.0.1"; rack := 0; slot := 1; ctype := 0; port := 102 |}
                {| area := "TM"; db := 1; start := 0; amount := 4 |} "hex" "" 0 0 O
                (world0 []) (mkWorld [] [EvConnect "10.0.0.1:102" 0 1 None; EvClose])
                (EAreaNotSupported "TM") (or_introl eq_refl) eq_refl) as (E & R & _ & F).
  split; [exact E|]. split; [exact R|exact F].
Defined.

(** C2 as it is stated does not hold: the command connects before it looks
    at the area name, so a transport call has been made when the
    unsupported-area error is reported. *)
Lemma C2_connect_precedes_error :
  runRead (H := asciiPlatform) (H0 := simPLC)
          {| address := "10.0.0.1"; rack := 0; slot := 1; ctype := 0; port := 102 |}
          {| area := "TM"; db := 1; start := 0; amount := 4 |} "hex" (world0 [])
  = (Err (EAreaNotSupported "TM"),
     mkWorld [] [EvConnect "10.0.0.1:102" 0 1 None; EvClose])
  /\ ~ (forall (P : Platform) (St : Type) (C : Client St)
               (conn : connOptions) (a : areaOptions) (format : string)
               (w w' : world St) (e : error),
           runRead conn a format w = (Err e, w') -> kindOf e = UnsupportedArea ->
           filter isTransportCall (trace w') = filter isTransportCall (trace w)).
Proof.
  split; [reflexivity|]. intro Hc.
  specialize (Hc asciiPlatform (list byte) simPLC
                 {| address := "10.0.0.1"; rack := 0; slot := 1; ctype := 0; port := 102 |}
                 {| area := "TM"; db := 1; start := 0; amount := 4 |} "hex"
                 (world0 []) (mkWorld [] [EvConnect "10.0.0.1:102" 0 1 None; EvClose])
                 (EAreaNotSupported "TM") eq_refl eq_refl).
  discriminate Hc.
Qed.


(** ** The further properties at concrete inputs *)

Lemma X2_int_bytes_round_trip_witness :
  exists text,
    formatData (H := asciiPlatform) [x01; x02; xff; xfe] "int16" = Ok text
    /\ parseWriteData (H := asciiPlatform) "int16" text = Ok [x01; x02; xff; xfe].
Proof.
  exact (X2_int_bytes_round_trip asciiPlatform [x01; x02; xff; xfe] 2 "int16"
           (or_introl (conj eq_refl eq_refl)) eq_refl).
Defined.

Lemma X3_split_of_join_witness :
  splitValues (strings.Join ["258"; "-2"; "0x1F"] ",") = ["258"; "-2"; "0x1F"].
Proof.
  apply X3_split_of_join.
  repeat (constructor; [split; [discriminate|reflexivity]|]). constructor.
Defined.

Lemma X6_tokens_trimmed_witness :
  In "7" (splitValues " 7 ,,8")
  /\ "7" <> ""
  /\ allChars noComma "7" = true
  /\ (forall c, firstChar "7" = Some c -> strings.asciiSpace c = false)
  /\ (forall c, lastChar "7" = Some c -> strings.asciiSpace c = false).
Proof.
  split; [left; reflexivity|].
  apply (X6_tokens_trimmed " 7 ,,8" "7"). left. reflexivity.
Defined.

Lemma X7_blank_values_empty_payload_witness :
  allChars blankChar " , ," = true
  /\ splitValues " , ," = []
  /\ parseWriteData (H := asciiPlatform) "int16" " , ," = Ok []
  /\ parseWriteData (H := asciiPlatform) "int32" " , ," = Ok []
  /\ parseWriteData (H := asciiPlatform) "float32" " , ," = Ok [].
Proof.
  split; [reflexivity|].
  exact (X7_blank_values_empty_payload asciiPlatform " , ," eq_refl).
Defined.

Lemma X8_int_payload_length_witness :
  encodeInts "1, 2" 2 = Ok [x00; x01; x00; x02]
  /\ len [x00; x01; x00; x02] = 2 * len (splitValues "1, 2").
Proof.
  split; [reflexivity|].
  exact (X8_int_payload_length 2 "1, 2" [x00; x01; x00; x02] (or_introl eq_refl) eq_refl).
Defined.

Lemma X9_hex_payload_length_witness :
  parseHex "0x01 02" = Ok [x01; x02]
  /\ 2 * len [x01; x02] = slen (cleanHex "0x01 02").
Proof.
  split; [reflexivity|].
  exact (X9_hex_payload_length "0x01 02" [x01; x02] eq_refl).
Defined.

Lemma X10_hex_text_length_witness :
  slen (bytesToHex [x01; xab]) = 3 * len [x01; xab] - 1.
Proof. apply X10_hex_text_length. discriminate. Defined.

Lemma X11_read_returns_amount_witness :
  readArea (H := asciiPlatform) (H0 := simPLC)
           {| area := "DB"; db := 1; start := 0; amount := 2 |} (world0 [x01; x02; x03])
  = (Ok [x01; x02], mkWorld [x01; x02; x03] [EvAGReadDB 1 0 2])
  /\ len [x01; x02] = 2 /\ 0 <= 2.
Proof.
  split; [reflexivity|].
  exact (X11_read_returns_amount asciiPlatform (list byte) simPLC
           {| area := "DB"; db := 1; start := 0; amount := 2 |} (world0 [x01; x02; x03])
           (mkWorld [x01; x02; x03] [EvAGReadDB 1 0 2]) [x01; x02] eq_refl).
Defined.

Lemma X12_read_prints_on_success_only_witness :
  exists evs,
    [EvConnect "10.0.0.1:102" 0 1 None; EvAGReadDB 1 0 2;
     EvPrint ("01 02" ++ String "010"%char ""); EvClose] = ([] ++ evs)%list
    /\ (Ok tt = Ok tt ->
        exists c k w0 w1 data out,
          opened c = true /\ resolve (H := asciiPlatform) "DB" = Some k
          /\ connect (H0 := simPLC)
                     {| address := "10.0.0.1"; rack := 0; slot := 1; ctype := 0; port := 102 |}
                     (world0 [x01; x02; x03]) = (Ok tt, w0)
          /\ trace w0 = ([] ++ [c])%list
          /\ readArea (H := asciiPlatform) (H0 := simPLC)
                      {| area := "DB"; db := 1; start := 0; amount := 2 |} w0
             = (Ok data, w1)
          /\ trace w1
             = (trace w0 ++ [readOp k {| area := "DB"; db := 1; start := 0; amount := 2 |}])%list
          /\ len data = 2 /\ formatData (H := asciiPlatform) data "hex" = Ok out
          /\ mkWorld [x01; x02; x03]
                     [EvConnect "10.0.0.1:102" 0 1 None; EvAGReadDB 1 0 2;
                      EvPrint ("01 02" ++ String "010"%char ""); EvClose]
             = plcClose (H0 := simPLC)
                 (mkWorld (env w1) (trace w1 ++ [EvPrint (out ++ String "010"%char "")])%list)
          /\ evs = [c; readOp k {| area := "DB"; db := 1; start := 0; amount := 2 |};
                    EvPrint (out ++ String "010"%char ""); EvClose])
    /\ (Ok tt <> Ok tt -> filter isPrint evs = []).
Proof.
  exact (X12_read_prints_on_success_only asciiPlatform (list byte) simPLC
           {| address := "10.0.0.1"; rack := 0; slot := 1; ctype := 0; port := 102 |}
           {| area := "DB"; db := 1; start := 0; amount := 2 |} "hex"
           (world0 [x01; x02; x03])
           (mkWorld [x01; x02; x03]
                    [EvConnect "10.0.0.1:102" 0 1 None; EvAGReadDB 1 0 2;
                     EvPrint ("01 02" ++ String "010"%char ""); EvClose])
           (Ok tt) eq_refl).
Defined.

Lemma X13_read_session_witness :
  Err (ENotAligned 2 3) <> @Running unit
  /\ exists c, opened c = true
     /\ (((exists m, Err (ENotAligned 2 3) = @Err unit (EConnect m))
          /\ [EvConnect "10.0.0.1:102" 0 1 None; EvAGReadDB 1 0 3; EvClose] = ([] ++ [c])%list)
         \/ (exists mid,
               [EvConnect "10.0.0.1:102" 0 1 None; EvAGReadDB 1 0 3; EvClose]
               = ([] ++ c :: mid ++ [EvClose])%list
               /\ ((mid = []
                    /\ (Err (ENotAligned 2 3) = @Panic unit MakeSliceLenOutOfRange
                        \/ Err (ENotAligned 2 3) = @Err unit (EAreaNotSupported "DB")))
                   \/ (exists k, resolve (H := asciiPlatform) "DB" = Some k
                         /\ ((mid = [readOp k {| area := "DB"; db := 1; start := 0;
                                                amount := 3 |}]
                              /\ exists e, Err (ENotAligned 2 3) = @Err unit e)
                             \/ (Err (ENotAligned 2 3) = Ok tt
                                 /\ exists out,
                                     mid = [readOp k {| area := "DB"; db := 1; start := 0;
                                                        amount := 3 |};
                                            EvPrint (out ++ String "010"%char "")])))))).
Proof.
  exact (X13_read_session asciiPlatform (list byte) simPLC
           {| address := "10.0.0.1"; rack := 0; slot := 1; ctype := 0; port := 102 |}
           {| area := "DB"; db := 1; start := 0; amount := 3 |} "int16"
           (world0 [x01; x02; x03])
           (mkWorld [x01; x02; x03]
                    [EvConnect "10.0.0.1:102" 0 1 None; EvAGReadDB 1 0 3; EvClose])
           (Err (ENotAligned 2 3)) eq_refl).
Defined.

Lemma X14_read_misaligned_witness :
  Err (ENotAligned 2 3) <> Ok tt
  /\ (forall e, Err (ENotAligned 2 3) = @Err unit e -> kindOf e = AlignmentError ->
                e = ENotAligned 2 3
                /\ exists c k w0 w1 data,
                    opened c = true /\ resolve (H := asciiPlatform) "DB" = Some k
                    /\ connect (H0 := simPLC)
                               {| address := "10.0.0.1"; rack := 0; slot := 1; ctype := 0;
                                  port := 102 |}
                               (world0 [x01; x02; x03]) = (Ok tt, w0)
                    /\ readArea (H := asciiPlatform) (H0 := simPLC)
                                {| area := "DB"; db := 1; start := 0; amount := 3 |} w0
                       = (Ok data, w1)
                    /\ mkWorld [x01; x02; x03]
                               [EvConnect "10.0.0.1:102" 0 1 None; EvAGReadDB 1 0 3; EvClose]
                       = plcClose (H0 := simPLC) w1
                    /\ [EvConnect "10.0.0.1:102" 0 1 None; EvAGReadDB 1 0 3; EvClose]
                       = ([] ++ [c; readOp k {| area := "DB"; db := 1; start := 0;
                                                amount := 3 |};
                                 EvClose])%list).
Proof.
  apply (X14_read_misaligned asciiPlatform (list byte) simPLC
           {| address := "10.0.0.1"; rack := 0; slot := 1; ctype := 0; port := 102 |}
           {| area := "DB"; db := 1; start := 0; amount := 3 |} 2 "int16"
           (world0 [x01; x02; x03])
           (mkWorld [x01; x02; x03]
                    [EvConnect "10.0.0.1:102" 0 1 None; EvAGReadDB 1 0 3; EvClose])
           (Err (ENotAligned 2 3)) (or_introl (conj eq_refl eq_refl))).
  - discriminate.
  - reflexivity.
Defined.

Lemma X15_write_validates_first_witness :
  world0 [x01; x02; x03] = world0 [x01; x02; x03]
  /\ ("1" = "" /\ EHexOddLength 1 = EValuesRequired
      \/ parseWriteData (H := asciiPlatform) "hex" "1" = Err (EHexOddLength 1)).
Proof.
  exact (X15_write_validates_first asciiPlatform (list byte) simPLC
           {| address := "10.0.0.1"; rack := 0; slot := 1; ctype := 0; port := 102 |}
           {| area := "DB"; db := 1; start := 0; amount := 2 |} "hex" "1"
           (world0 [x01; x02; x03]) (world0 [x01; x02; x03]) (EHexOddLength 1)
           eq_refl (or_introl eq_refl)).
Defined.

Lemma X16_write_sends_payload_witness :
  exists c, opened c = true
    /\ (((exists m, Ok tt = Err (EConnect m))
         /\ [EvConnect "10.0.0.1:102" 0 1 None; EvAGWriteDB 1 0 2 [x0a; xff]; EvClose]
            = ([] ++ [c])%list)
        \/ (Ok tt = Err (EAreaNotSupported "DB") /\ resolve (H := asciiPlatform) "DB" = None
            /\ [EvConnect "10.0.0.1:102" 0 1 None; EvAGWriteDB 1 0 2 [x0a; xff]; EvClose]
               = ([] ++ [c; EvClose])%list)
        \/ (exists k, resolve (H := asciiPlatform) "DB" = Some k
                      /\ (Ok tt = Ok tt \/ exists m, Ok tt = Err (ETransport m))
                      /\ [EvConnect "10.0.0.1:102" 0 1 None; EvAGWriteDB 1 0 2 [x0a; xff];
                          EvClose]
                         = ([] ++ [c; writeOp k {| area := "DB"; db := 1; start := 0;
                                                   amount := 2 |} [x0a; xff];
                                   EvClose])%list)).
Proof.
  apply (X16_write_sends_payload asciiPlatform (list byte) simPLC
           {| address := "10.0.0.1"; rack := 0; slot := 1; ctype := 0; port := 102 |}
           {| area := "DB"; db := 1; start := 0; amount := 2 |} "hex" "0aff" [x0a; xff]
           (world0 [x01; x02; x03])
           (mkWorld [x0a; xff; x03]
                    [EvConnect "10.0.0.1:102" 0 1 None; EvAGWriteDB 1 0 2 [x0a; xff]; EvClose])
           (Ok tt)).
  - discriminate.
  - reflexivity.
  - reflexivity.
Defined.

Lemma X17_poll_without_count_never_done_witness :
  runPoll (H := asciiPlatform) (H0 := simPLC) 1
          {| address := "10.0.0.1"; rack := 0; slot := 1; ctype := 0; port := 102 |}
          {| area := "DB"; db := 1; start := 0; amount := 2 |} "hex" 1000 0
          (world0 [x01; x02; x03])
  = (Running,
     mkWorld [x01; x02; x03]
             [EvConnect "10.0.0.1:102" 0 1 None; EvAGReadDB 1 0 2;
              EvPrint ("[2024-01-01T00:00:00Z] 01 02" ++ String "010"%char "");
              EvSleep 1000])
  /\ @Running unit <> Ok tt.
Proof.
  split; [reflexivity|].
  apply (X17_poll_without_count_never_done asciiPlatform (list byte) simPLC 1
           {| address := "10.0.0.1"; rack := 0; slot := 1; ctype := 0; port := 102 |}
           {| area := "DB"; db := 1; start := 0; amount := 2 |} "hex" 1000 0
           (world0 [x01; x02; x03])
           (mkWorld [x01; x02; x03]
                    [EvConnect "10.0.0.1:102" 0 1 None; EvAGReadDB 1 0 2;
                     EvPrint ("[2024-01-01T00:00:00Z] 01 02" ++ String "010"%char "");
                     EvSleep 1000])).
  - discriminate.
  - reflexivity.
Defined.

Lemma X18_poll_without_count_runs_on_witness :
  exists w' evs,
    runPoll_loop (H := asciiPlatform) (H0 := simPLC) 3
                 {| area := "DB"; db := 1; start := 0; amount := 2 |} "hex" 1000 0
                 0 (world0 [x01; x02])
    = (Running, w')
    /\ trace w' = ([] ++ evs)%list
    /\ List.map stepOf evs = List.map Some (ticks 3).
Proof.
  apply (X18_poll_without_count_runs_on asciiPlatform (list byte) simPLC
           {| area := "DB"; db := 1; start := 0; amount := 2 |} "hex" 1000 0).
  - discriminate.
  - intro w1. do 3 eexists. split; [|reflexivity].
    rewrite readArea_resolve.
    change (resolve (area {| area := "DB"; db := 1; start := 0; amount := 2 |}))
      with (Some DataBlock).
    cbn [amount Z.ltb Z.compare]. rewrite readCall_run. cbn. reflexivity.
Defined.

Lemma X19_poll_stops_at_failure_witness :
  (resolve (H := asciiPlatform) "DB" = None /\ ENotAligned 2 3 = EAreaNotSupported "DB"
   /\ mkWorld [x01; x02; x03] [EvAGReadDB 1 0 3] = world0 [x01; x02; x03])
  \/ (exists evs n,
        [EvAGReadDB 1 0 3] = ([] ++ evs)%list
        /\ List.map stepOf evs = List.map Some (ticks n ++ [Read])%list).
Proof.
  exact (X19_poll_stops_at_failure asciiPlatform (list byte) simPLC 2
           {| area := "DB"; db := 1; start := 0; amount := 3 |} "int16" 1000 0 0
           (world0 [x01; x02; x03]) (mkWorld [x01; x02; x03] [EvAGReadDB 1 0 3])
           (ENotAligned 2 3) eq_refl).
Defined.

Lemma X20_poll_session_witness :
  exists c, opened c = true
    /\ (((exists m, Ok tt = Err (EConnect m))
         /\ [EvConnect "10.0.0.1:102" 0 1 None; EvAGReadDB 1 0 2;
             EvPrint ("[2024-01-01T00:00:00Z] 01 02" ++ String "010"%char ""); EvClose]
            = ([] ++ [c])%list)
        \/ (exists mid,
              forallb (fun e => negb (isSession e)) mid = true
              /\ [EvConnect "10.0.0.1:102" 0 1 None; EvAGReadDB 1 0 2;
                  EvPrint ("[2024-01-01T00:00:00Z] 01 02" ++ String "010"%char ""); EvClose]
                 = ([] ++ c :: mid ++ [EvClose])%list)).
Proof.
  exact (X20_poll_session asciiPlatform (list byte) simPLC 3
           {| address := "10.0.0.1"; rack := 0; slot := 1; ctype := 0; port := 102 |}
           {| area := "DB"; db := 1; start := 0; amount := 2 |} "hex" 1000 1
           (world0 [x01; x02; x03])
           (mkWorld [x01; x02; x03]
                    [EvConnect "10.0.0.1:102" 0 1 None; EvAGReadDB 1 0 2;
                     EvPrint ("[2024-01-01T00:00:00Z] 01 02" ++ String "010"%char "");
                     EvClose])
           (Ok tt) eq_refl).
Defined.

Lemma X21_connect_dials_witness :
  exists addr ct,
    [EvConnect "10.0.0.1:102" 0 1 None] = ([] ++ [EvConnect addr 0 1 ct])%list
    /\ (0 < 102 -> strings.Contains addr ":" = true)
    /\ (strings.Contains "10.0.0.1" ":" = true \/ 102 <= 0 -> addr = "10.0.0.1")
    /\ (strings.Contains "10.0.0.1" ":" = false -> 0 < 102 ->
        addr = "10.0.0.1" ++ ":" ++ fmt.Sprintf_d 102)
    /\ (ct = None <-> 0 <= 0)
    /\ (Ok tt = Ok tt \/ exists m, Ok tt = Err (EConnect m)).
Proof.
  exact (X21_connect_dials asciiPlatform (list byte) simPLC
           {| address := "10.0.0.1"; rack := 0; slot := 1; ctype := 0; port := 102 |}
           (world0 [x01]) (mkWorld [x01] [EvConnect "10.0.0.1:102" 0 1 None]) (Ok tt)
           eq_refl).
Defined.

Lemma C4_float_bit_exact_witness :
  parseWriteData (H := scenarioFloats) "float32" "1.5,2.25"
  = Ok [x3f; xc0; x00; x00; x40; x10; x00; x00]
  /\ (parseWriteData (H := scenarioFloats) "float32"
        (strings.Join (List.map (fmt_Sprintf_g32 (Platform := scenarioFloats))
                                [1069547520; 1074790400]) ",")
      = Ok (flat_map binary.PutUint32 [1069547520; 1074790400])
      /\ formatData (H := scenarioFloats)
           (flat_map binary.PutUint32 [1069547520; 1074790400]) "float32"
         = Ok (strings.Join (List.map (fmt_Sprintf_g32 (Platform := scenarioFloats))
                                      [1069547520; 1074790400]) ",")).
Proof.
  destruct (C4_float_bit_exact scenarioFloats) as (_ & Hsc & _ & _ & Hrt).
  split; [exact (Hsc eq_refl eq_refl)|].
  apply Hrt.
  repeat (constructor;
          [split; [split; [discriminate|reflexivity]
                  |split; [discriminate|split; reflexivity]]|]).
  constructor.
Defined.
